(** * TextLands CLI: intent router, game loop and session lifecycle

    A shallow embedding of [textlands_cli/main.py] (and of the calls of
    [textlands_cli/client.py] it relies on), with the properties of the
    natural-language chat router, of the slash-command lexer, of the
    device-code polling loop and of the resume decision.

    The game loop is given twice.  In [Game] a line handed to the
    console is a line printed, which is all it takes to say which
    calls a round makes and what it writes.  In [Rendered] the console
    reads every text made of typed or received words as rich markup,
    and raises [MarkupError] on a closing tag it cannot match: the
    properties that depend on what the console makes of a text are
    stated on this one.

    Text is modelled as [string], read as 7-bit text: [lower], [\s], [\w]
    and [.] are Python's on the code points below 128. *)

From Stdlib Require Import Ascii String List ZArith Lia Bool Arith DecimalString.
Import ListNotations.

Set Implicit Arguments.

Open Scope string_scope.

(** ** Exceptions, and results that may be one *)

Inductive exn : Type :=
| TypeError (what : string)      (* an operation applied to [None] *)
| KeyError (key : string)        (* [d[key]] on a missing key *)
| HttpError (msg : string)       (* what httpx raises: transport, status, decoding *)
| MarkupError (msg : string)     (* what rich raises on a closing tag it cannot match *)
| Exit (code : Z).               (* typer.Exit, click's Exit, a RuntimeError *)

Inductive py (A : Type) : Type :=
| Ret (a : A)
| Raise (e : exn).

Arguments Ret {A} a.
Arguments Raise {A} e.

(** ** The [str] methods the router uses *)

Module PyStr.

Definition is_upper (c : ascii) : bool :=
  let n := nat_of_ascii c in ((65 <=? n) && (n <=? 90))%nat.

Definition lower_char (c : ascii) : ascii :=
  if is_upper c then ascii_of_nat (nat_of_ascii c + 32) else c.

(** [s.lower()] *)
Fixpoint lower (s : string) : string :=
  match s with
  | EmptyString => EmptyString
  | String c s' => String (lower_char c) (lower s')
  end.

(** [c.isspace()]: tab, newline, vertical tab, form feed, carriage
    return, the four separators 0x1c to 0x1f, and the blank. *)
Definition isspace (c : ascii) : bool :=
  let n := nat_of_ascii c in
  (((9 <=? n) && (n <=? 13)) || ((28 <=? n) && (n <=? 32)))%nat.

Fixpoint lstrip (s : string) : string :=
  match s with
  | EmptyString => EmptyString
  | String c s' => if isspace c then lstrip s' else s
  end.

Fixpoint rstrip (s : string) : string :=
  match s with
  | EmptyString => EmptyString
  | String c s' =>
      match rstrip s' with
      | EmptyString => if isspace c then EmptyString else String c EmptyString
      | r => String c r
      end
  end.

(** [s.strip()] *)
Definition strip (s : string) : string := rstrip (lstrip s).

(** [s.startswith(p)] *)
Fixpoint startswith (p s : string) : bool :=
  match p, s with
  | EmptyString, _ => true
  | String a p', String b s' => Ascii.eqb a b && startswith p' s'
  | String _ _, EmptyString => false
  end.

(** The lowest index at which [sub] occurs in [s], counting from [i]. *)
Fixpoint find_from (sub s : string) (i : nat) : option nat :=
  if startswith sub s then Some i
  else match s with
       | EmptyString => None
       | String _ s' => find_from sub s' (S i)
       end.

(** [s.find(sub)]: the lowest index, or -1. *)
Definition find (s sub : string) : Z :=
  match find_from sub s 0 with
  | Some i => Z.of_nat i
  | None => (-1)%Z
  end.

(** [sub in s] *)
Definition contains (sub s : string) : bool :=
  match find_from sub s 0 with
  | Some _ => true
  | None => false
  end.

Fixpoint drop (n : nat) (s : string) : string :=
  match n, s with
  | O, _ => s
  | S n', String _ s' => drop n' s'
  | S _, EmptyString => EmptyString
  end.

Fixpoint take (n : nat) (s : string) : string :=
  match n, s with
  | S n', String c s' => String c (take n' s')
  | _, _ => EmptyString
  end.

(** [s[k:]]: a negative [k] counts from the end, and the slice is
    clipped to the string. *)
Definition slice_from (s : string) (k : Z) : string :=
  if (k <? 0)%Z
  then drop (Z.to_nat (Z.of_nat (String.length s) + k)) s
  else drop (Z.to_nat k) s.

(** [s[a:b]] for indices [0 <= a], [0 <= b]. *)
Definition slice (s : string) (a b : nat) : string :=
  take (b - a) (drop a s).

(** Truthiness of a [str]. *)
Definition truthy (s : string) : bool :=
  match s with
  | EmptyString => false
  | String _ _ => true
  end.

Fixpoint all_chars (p : ascii -> bool) (s : string) : bool :=
  match s with
  | EmptyString => true
  | String c s' => p c && all_chars p s'
  end.

Definition not_upper (c : ascii) : bool := negb (is_upper c).

(** [s.isascii()]: every code point is below 128. *)
Definition isascii (s : string) : bool :=
  all_chars (fun c => (nat_of_ascii c <? 128)%nat) s.

End PyStr.

(** ** The fragment of [re] the patterns are written in

    Backtracking matching with greedy quantifiers and ordered
    alternation.  In the patterns of the router a [+] or a [*] is only
    ever applied to a character class, and [?] to a group or a class. *)

Module Re.

Inductive cclass : Type :=
| CSpace                     (* \s *)
| CWord                      (* \w *)
| CAny                       (* .  any character but a newline *)
| COneOf (cs : list ascii).  (* [...] *)

Definition newline : ascii := ascii_of_nat 10.

Definition is_word (c : ascii) : bool :=
  let n := nat_of_ascii c in
  (((48 <=? n) && (n <=? 57)) || ((65 <=? n) && (n <=? 90))
   || (n =? 95) || ((97 <=? n) && (n <=? 122)))%nat.

Definition in_class (k : cclass) (c : ascii) : bool :=
  match k with
  | CSpace => PyStr.isspace c
  | CWord => is_word c
  | CAny => negb (Ascii.eqb c newline)
  | COneOf cs => existsb (Ascii.eqb c) cs
  end.

Inductive regex : Type :=
| Bol                          (* ^ *)
| Eol                          (* $ *)
| Lit (w : string)             (* literal text *)
| One (k : cclass)             (* one character of a class *)
| Plus (k : cclass)            (* k+ *)
| Star (k : cclass)            (* k* *)
| Opt (r : regex)              (* (?:r)? *)
| Alt (r1 r2 : regex)          (* r1|r2 *)
| Seq (r1 r2 : regex)          (* r1r2 *)
| Grp (n : nat) (r : regex).   (* the n-th capturing group (r) *)

(** A position in the subject: what is left to read, the offset
    reached, and the spans captured so far (latest first). *)
Record mstate : Type := MState {
  rest : string;
  pos : nat;
  caps : list (nat * (nat * nat))
}.

Definition set_cap (n a b : nat) (st : mstate) : mstate :=
  MState (rest st) (pos st) ((n, (a, b)) :: caps st).

Fixpoint lookup_cap (n : nat) (cs : list (nat * (nat * nat))) : option (nat * nat) :=
  match cs with
  | [] => None
  | (m, sp) :: cs' => if Nat.eqb n m then Some sp else lookup_cap n cs'
  end.

Section Matcher.
Variable R : Type.

(** Greedy repetition of a class: take a character when there is
    one, and give it back when the rest of the pattern fails. *)
Fixpoint star_k (k : cclass) (s : string) (i : nat)
         (cont : string -> nat -> option R) : option R :=
  match s with
  | String a s' =>
      if in_class k a
      then match star_k k s' (S i) cont with
           | Some r => Some r
           | None => cont s i
           end
      else cont s i
  | EmptyString => cont s i
  end.

Definition plus_k (k : cclass) (s : string) (i : nat)
           (cont : string -> nat -> option R) : option R :=
  match s with
  | String a s' => if in_class k a then star_k k s' (S i) cont else None
  | EmptyString => None
  end.

Fixpoint lit_k (w s : string) (i : nat)
         (cont : string -> nat -> option R) : option R :=
  match w with
  | EmptyString => cont s i
  | String a w' =>
      match s with
      | String b s' => if Ascii.eqb a b then lit_k w' s' (S i) cont else None
      | EmptyString => None
      end
  end.

Fixpoint rmatch (r : regex) (st : mstate) (cont : mstate -> option R) : option R :=
  match r with
  | Bol => if Nat.eqb (pos st) 0 then cont st else None
  | Eol =>
      match rest st with
      | EmptyString => cont st
      | String a EmptyString => if Ascii.eqb a newline then cont st else None
      | _ => None
      end
  | Lit w => lit_k w (rest st) (pos st) (fun s i => cont (MState s i (caps st)))
  | One k =>
      match rest st with
      | String a s' =>
          if in_class k a then cont (MState s' (S (pos st)) (caps st)) else None
      | EmptyString => None
      end
  | Plus k => plus_k k (rest st) (pos st) (fun s i => cont (MState s i (caps st)))
  | Star k => star_k k (rest st) (pos st) (fun s i => cont (MState s i (caps st)))
  | Opt r1 =>
      match rmatch r1 st cont with
      | Some x => Some x
      | None => cont st
      end
  | Alt r1 r2 =>
      match rmatch r1 st cont with
      | Some x => Some x
      | None => rmatch r2 st cont
      end
  | Seq r1 r2 => rmatch r1 st (fun st1 => rmatch r2 st1 cont)
  | Grp n r1 => rmatch r1 st (fun st1 => cont (set_cap n (pos st) (pos st1) st1))
  end.
End Matcher.

(** A match object: the subject and the spans of its groups. *)
Record mobj : Type := MObj {
  subject : string;
  spans : list (nat * (nat * nat))
}.

(** [re.match(pattern, s)] *)
Definition re_match (pattern : regex) (s : string) : option mobj :=
  rmatch pattern (MState s 0 []) (fun st => Some (MObj s (caps st))).

(** [m.group(n)]: the text of the n-th group, [None] when the group
    took no part in the match. *)
Definition group (m : mobj) (n : nat) : option string :=
  match lookup_cap n (spans m) with
  | Some (a, b) => Some (PyStr.slice (subject m) a b)
  | None => None
  end.

Declare Scope re_scope.
Delimit Scope re_scope with re.
Infix ">>" := Seq (at level 61, right associativity) : re_scope.

(** [(?:w|w1|...|wn)]: an alternation of literal words, in order. *)
Fixpoint words (w : string) (ws : list string) : regex :=
  match ws with
  | [] => Lit w
  | w' :: ws' => Alt (Lit w) (words w' ws')
  end.

End Re.

(** ** Natural-language chat parsing *)

Module Router.
Import PyStr Re.
Open Scope re_scope.

Definition ws1 : regex := Plus CSpace.        (* \s+ *)
Definition word : regex := Plus CWord.        (* \w+ *)
Definition body : regex := Plus CAny.         (* .+ *)

(** The five patterns of [_parse_dm_intent], in the order of the list. *)
Definition dm_patterns : list regex :=
  [ (* ^(?:dm|message|msg|whisper|pm)\s+(\w+)\s+(.+)$ *)
    Bol >> words "dm" ["message"; "msg"; "whisper"; "pm"] >> ws1
        >> Grp 1 word >> ws1 >> Grp 2 body >> Eol;
    (* ^tell\s+(\w+)\s+(?:that\s+)?(.+)$ *)
    Bol >> Lit "tell" >> ws1 >> Grp 1 word >> ws1
        >> Opt (Lit "that" >> ws1) >> Grp 2 body >> Eol;
    (* ^send\s+(?:a\s+)?(?:message|dm|pm)\s+to\s+(\w+)\s+(?:saying\s+)?(.+)$ *)
    Bol >> Lit "send" >> ws1 >> Opt (Lit "a" >> ws1)
        >> words "message" ["dm"; "pm"] >> ws1 >> Lit "to" >> ws1
        >> Grp 1 word >> ws1 >> Opt (Lit "saying" >> ws1) >> Grp 2 body >> Eol;
    (* ^(?:message|dm|pm)\s+(\w+)\s+(?:and\s+)?(?:say|tell\s+them)\s+(.+)$ *)
    Bol >> words "message" ["dm"; "pm"] >> ws1 >> Grp 1 word >> ws1
        >> Opt (Lit "and" >> ws1)
        >> Alt (Lit "say") (Lit "tell" >> ws1 >> Lit "them") >> ws1
        >> Grp 2 body >> Eol;
    (* ^let\s+(\w+)\s+know\s+(?:that\s+)?(.+)$ *)
    Bol >> Lit "let" >> ws1 >> Grp 1 word >> ws1 >> Lit "know" >> ws1
        >> Opt (Lit "that" >> ws1) >> Grp 2 body >> Eol ].

(** The loop [for pattern in patterns] of [_parse_dm_intent].
    [match.group(1)] is returned as it is, [None] included;
    [text_lower.find(None)] raises a [TypeError]. *)
Fixpoint dm_scan (text text_lower : string) (patterns : list regex)
  : py (option (option string * string)) :=
  match patterns with
  | [] => Ret None
  | pattern :: patterns' =>
      match re_match pattern text_lower with
      | Some m =>
          let recipient := group m 1 in
          match group m 2 with
          | Some g2 =>
              let msg_start := find text_lower g2 in
              let message :=
                if (0 <? msg_start)%Z then slice_from text msg_start else g2 in
              Ret (Some (recipient, message))
          | None => Raise (TypeError "must be str, not None")
          end
      | None => dm_scan text text_lower patterns'
      end
  end.

Definition _parse_dm_intent (text : string)
  : py (option (option string * string)) :=
  let text_lower := strip (lower text) in
  dm_scan text text_lower dm_patterns.

Definition inbox_phrases : list string :=
  [ "inbox"; "messages"; "mail"; "dms"; "check messages"; "check my messages";
    "any messages"; "do i have messages"; "who messaged me"; "who wrote me";
    "show messages"; "read messages"; "unread"; "my inbox" ].

Definition _parse_inbox_intent (text : string) : bool :=
  let text_lower := strip (lower text) in
  existsb (fun phrase => contains phrase text_lower) inbox_phrases.

Definition colon_dash : cclass := COneOf [":"%char; "-"%char].   (* [:\-] *)

(** The three patterns of [_parse_global_chat_intent]. *)
Definition global_patterns : list regex :=
  [ (* ^global\s+(.+)$ *)
    Bol >> Lit "global" >> ws1 >> Grp 1 body >> Eol;
    (* ^(?:say|tell|broadcast|shout)\s+(?:to\s+)?(?:everyone|all|everybody|the world)\s*[:\-]?\s*(.+)$ *)
    Bol >> words "say" ["tell"; "broadcast"; "shout"] >> ws1
        >> Opt (Lit "to" >> ws1)
        >> words "everyone" ["all"; "everybody"; "the world"]
        >> Star CSpace >> Opt (One colon_dash) >> Star CSpace
        >> Grp 1 body >> Eol;
    (* ^(?:to\s+)?(?:everyone|all|everybody)[:\-]?\s+(.+)$ *)
    Bol >> Opt (Lit "to" >> ws1) >> words "everyone" ["all"; "everybody"]
        >> Opt (One colon_dash) >> ws1 >> Grp 1 body >> Eol ].

Fixpoint global_scan (text text_lower : string) (patterns : list regex)
  : py (option string) :=
  match patterns with
  | [] => Ret None
  | pattern :: patterns' =>
      match re_match pattern text_lower with
      | Some m =>
          match group m 1 with
          | Some g1 =>
              let msg_start := find text_lower g1 in
              Ret (Some (if (0 <? msg_start)%Z then slice_from text msg_start
                         else g1))
          | None => Raise (TypeError "must be str, not None")
          end
      | None => global_scan text text_lower patterns'
      end
  end.

Definition _parse_global_chat_intent (text : string) : py (option string) :=
  let text_lower := strip (lower text) in
  global_scan text text_lower global_patterns.

End Router.

(** ** The identity and session store ([config.py]) *)

Module Config.

(** Modelled from the spec: the user info that [textlands_cli/config.py],
    which is missing, keeps: user_id, email and display_name. *)
Record user_info : Type := UserInfo {
  user_id : string;
  email : string;
  display_name : string
}.

(** Modelled from the spec: the current session that the missing
    [textlands_cli/config.py] keeps, realm_id, realm_name, character_id
    and character_name; a value is [None] when the server's session
    lacks the key. *)
Record session : Type := Session {
  realm_id : option string;
  realm_name : option string;
  character_id : option string;
  character_name : option string
}.

(** Modelled from the spec: the store behind the missing
    [textlands_cli/config.py], with get, set and clear for each of
    api_url, api_key, guest_id, session_token, user_info and
    current_session, persisted across invocations. *)
Record store : Type := Store {
  api_url : string;
  api_key : option string;
  guest_id : option string;
  session_token : option string;
  stored_user : option user_info;
  current_session : option session
}.

(** Modelled from the spec: [set_api_key] of the missing [config.py] writes the key
    api_key and no other. *)
Definition set_api_key (v : string) (s : store) : store :=
  Store (api_url s) (Some v) (guest_id s) (session_token s) (stored_user s)
        (current_session s).

(** Modelled from the spec: [clear_api_key] of the missing [config.py] clears the key
    api_key and no other. *)
Definition clear_api_key (s : store) : store :=
  Store (api_url s) None (guest_id s) (session_token s) (stored_user s)
        (current_session s).

(** Modelled from the spec: [set_guest_id] of the missing [config.py] writes the key
    guest_id and no other. *)
Definition set_guest_id (v : string) (s : store) : store :=
  Store (api_url s) (api_key s) (Some v) (session_token s) (stored_user s)
        (current_session s).

(** Modelled from the spec: [set_session_token] of the missing [config.py] writes the key
    session_token and no other. *)
Definition set_session_token (v : string) (s : store) : store :=
  Store (api_url s) (api_key s) (guest_id s) (Some v) (stored_user s)
        (current_session s).

(** Modelled from the spec: [clear_session_token] of the missing [config.py] clears the key
    session_token and no other. *)
Definition clear_session_token (s : store) : store :=
  Store (api_url s) (api_key s) (guest_id s) None (stored_user s)
        (current_session s).

(** Modelled from the spec: [set_user_info] of the missing [config.py] writes the key
    user_info and no other. *)
Definition set_user_info (v : user_info) (s : store) : store :=
  Store (api_url s) (api_key s) (guest_id s) (session_token s) (Some v)
        (current_session s).

(** Modelled from the spec: [clear_user_info] of the missing [config.py] clears the key
    user_info and no other. *)
Definition clear_user_info (s : store) : store :=
  Store (api_url s) (api_key s) (guest_id s) (session_token s) None
        (current_session s).

(** Modelled from the spec: [set_current_session] of the missing [config.py] writes the key
    current_session and no other. *)
Definition set_current_session (v : session) (s : store) : store :=
  Store (api_url s) (api_key s) (guest_id s) (session_token s) (stored_user s)
        (Some v).

(** Modelled from the spec: [clear_current_session] of the missing [config.py] clears the key
    current_session and no other. *)
Definition clear_current_session (s : store) : store :=
  Store (api_url s) (api_key s) (guest_id s) (session_token s) (stored_user s)
        None.

(** Truthiness of an optional [str]: [None] and the empty string are
    false. *)
Definition truthy_opt (v : option string) : bool :=
  match v with
  | Some x => PyStr.truthy x
  | None => false
  end.

End Config.

(** ** What a run does: Gateway calls, console output, store and clock *)

Module IO.
Import Config.

Inductive request : Type :=
| RGetSession
| RStartSession (world_id entity_id : string)
| RListWorldsGrouped
| RGetCampfire (world_id : string)
| RCreateCustomCharacter (world_id concept : string)
| RDoAction (action : string)
| RLook
| RRest
| RInventory
| RSendDm (recipient : option string) (content : string)
| RGetPendingMessages
| RGetUnreadCount
| RSendGlobalChat (message : string)
| RGetGlobalChat (limit : Z)
| RRequestCliAuth (email : string)
| RPollCliToken (device_code : string).

(** One [console.print]. *)
Inductive line : Type :=
| Error (message : string)                    (* print_error *)
| Success (message : string)                  (* print_success *)
| Narrative (text style : string)             (* print_narrative: a panel *)
| SuggestedHeader                             (* "Suggested actions:" *)
| Numbered (i : nat) (text : string)          (* "  i. text" *)
| Plain (text : string)                       (* fixed or formatted text *)
| MessagesHeader (count : nat)                (* "<count> Message(s):" *)
| MessageLine (sender content : string)       (* "sender: content" and a blank line *)
| AndMore (count : nat)                       (* "...and <count> more" *)
| ChatLine (sender content : string)          (* "sender: content" *)
| UnreadNotice (count : Z)                    (* "You have <count> unread message(s)..." *)
| ReplyHint                                   (* Reply: message <name> <your reply> *)
| Blank                                       (* an empty line *)
| Help.                                       (* the help text *)

Inductive event : Type :=
| Call (r : request) (raised : option exn)    (* a Gateway call, and what it raised *)
| Out (l : line)
| Sleep (seconds : Z).

(** The persisted store and the wall clock. *)
Record world : Type := World {
  disk : store;
  clock : Z
}.

Definition io (A : Type) : Type := world -> list event * world * py A.

Definition ret {A : Type} (a : A) : io A := fun w => ([], w, Ret a).

Definition raise {A : Type} (e : exn) : io A := fun w => ([], w, Raise e).

Definition iobind {A B : Type} (m : io A) (f : A -> io B) : io B :=
  fun w =>
    match m w with
    | (t, w1, Ret a) =>
        match f a w1 with
        | (t', w2, r) => ((t ++ t')%list, w2, r)
        end
    | (t, w1, Raise e) => (t, w1, Raise e)
    end.

(** [try: m except Exception as e: ...]: the outcome of [m] as a value. *)
Definition attempt {A : Type} (m : io A) : io (py A) :=
  fun w => match m w with (t, w1, r) => (t, w1, Ret r) end.

Definition lift {A : Type} (m : py A) : io A := fun w => ([], w, m).

(** [console.print] of a line the console can render; what the
    console makes of a text as markup is in [Markup] below. *)
Definition print (l : line) : io unit := fun w => ([Out l], w, Ret tt).

(** A Gateway call answered by [resp]. *)
Definition call {A : Type} (r : request) (resp : py A) : io A :=
  fun w =>
    ([Call r (match resp with Ret _ => None | Raise e => Some e end)], w, resp).

Definition write (f : store -> store) : io unit :=
  fun w => ([], World (f (disk w)) (clock w), Ret tt).

Definition read {A : Type} (f : store -> A) : io A :=
  fun w => ([], w, Ret (f (disk w))).

(** [time.time()] *)
Definition time : io Z := fun w => ([], w, Ret (clock w)).

(** [time.sleep(d)]: the only thing that moves the clock. *)
Definition sleep (d : Z) : io unit :=
  fun w => ([Sleep d], World (disk w) (clock w + d), Ret tt).

Declare Scope io_scope.
Delimit Scope io_scope with io.
Notation "x <- m ;; f" := (iobind m (fun x => f))
  (at level 61, m at next level, right associativity) : io_scope.
Notation "m ;; f" := (iobind m (fun _ => f))
  (at level 61, right associativity) : io_scope.

(** [try: body except Exception as e: handler(e)] *)
Definition try_except {A : Type} (body : io A) (handler : exn -> io A) : io A :=
  iobind (attempt body)
         (fun r => match r with
                   | Ret a => ret a
                   | Raise e => handler e
                   end).

Definition print_error (message : string) : io unit := print (Error message).
Definition print_success (message : string) : io unit := print (Success message).

(** [str(e)] *)
Definition str_exn (e : exn) : string :=
  match e with
  | TypeError what => what
  | KeyError key => "'" ++ key ++ "'"
  | HttpError msg => msg
  | MarkupError msg => msg
  | Exit code => NilZero.string_of_int (Z.to_int code)
  end.

End IO.

(** ** The Gateway as the game loop sees it ([client.py]) *)

Module Client.

(** The fields of a narrative result that [main.py] reads; an absent
    key is [None] (an empty list for the suggestions). *)
Record action_result : Type := ActionResult {
  narrative : option string;
  mood : option string;
  suggested_actions : list string;
  error : option string;
  requires_account : bool;
  account_prompt_incentive : option string
}.

Record chat_ack : Type := ChatAck {
  success : bool;
  ack_error : option string
}.

Record dm : Type := Dm {
  sender_name : option string;
  sender_id : option string;
  content : option string
}.

Record chat_message : Type := ChatMessage {
  chat_sender_name : option string;
  message : option string
}.

(** How the server answers each operation while one line is handled. *)
Record gateway : Type := Gateway {
  look : py action_result;
  inventory : py action_result;
  rest : py action_result;
  do_action : string -> py action_result;
  send_dm : option string -> string -> py chat_ack;
  get_pending_messages : py (list dm);
  get_unread_count : py Z;
  send_global_chat : string -> py chat_ack;
  get_global_chat : Z -> py (list chat_message)
}.

End Client.

(** ** The game loop *)

Module Game.
Import PyStr Config IO Router.
Open Scope io_scope.

Definition or_default (v : option string) (d : string) : string :=
  match v with
  | Some x => x
  | None => d
  end.

(** [mood_styles.get(mood, "white")] *)
Definition mood_style (mood : string) : string :=
  if mood =? "neutral" then "white"
  else if mood =? "tense" then "yellow"
  else if mood =? "danger" then "red"
  else if mood =? "romantic" then "magenta"
  else if mood =? "mysterious" then "cyan"
  else if mood =? "triumphant" then "green"
  else if mood =? "sad" then "blue"
  else "white".

Definition print_narrative (text mood : string) : io unit :=
  print (Narrative text (mood_style mood)).

Fixpoint print_numbered (i : nat) (actions : list string) : io unit :=
  match actions with
  | [] => ret tt
  | action :: actions' => print (Numbered i action) ;; print_numbered (S i) actions'
  end.

Definition print_suggestions (actions : list string) : io unit :=
  match actions with
  | [] => ret tt
  | _ => print SuggestedHeader ;; print_numbered 1 actions
  end.

Definition _do_action (client : Client.gateway) (action : string) : io unit :=
  r <- attempt (call (RDoAction action) (Client.do_action client action)) ;;
  match r with
  | Raise e => print_error ("Action failed: " ++ str_exn e)
  | Ret result =>
      if truthy_opt (Client.error result)
      then print_error (or_default (Client.error result) EmptyString)
      else
        print_narrative (or_default (Client.narrative result) EmptyString)
                        (or_default (Client.mood result) "neutral") ;;
        print_suggestions (Client.suggested_actions result) ;;
        if Client.requires_account result
        then print (Plain (or_default (Client.account_prompt_incentive result)
                                      "Sign up to continue!")) ;;
             print (Plain "Visit https://textlands.com to create an account")
        else ret tt
  end.

Definition _do_look (client : Client.gateway) : io unit :=
  r <- attempt (call RLook (Client.look client)) ;;
  match r with
  | Raise e => print_error ("Failed: " ++ str_exn e)
  | Ret result =>
      print_narrative (or_default (Client.narrative result) "You look around...")
                      "neutral" ;;
      print_suggestions (Client.suggested_actions result)
  end.

Definition _do_inventory (client : Client.gateway) : io unit :=
  r <- attempt (call RInventory (Client.inventory client)) ;;
  match r with
  | Raise e => print_error ("Failed: " ++ str_exn e)
  | Ret result =>
      print_narrative (or_default (Client.narrative result)
                                  "You check your belongings...") "neutral"
  end.

Definition _do_rest (client : Client.gateway) : io unit :=
  r <- attempt (call RRest (Client.rest client)) ;;
  match r with
  | Raise e => print_error ("Failed: " ++ str_exn e)
  | Ret result =>
      print_narrative (or_default (Client.narrative result)
                                  "You rest for a while...") "neutral"
  end.

Fixpoint print_each {A : Type} (render : A -> line) (xs : list A) : io unit :=
  match xs with
  | [] => ret tt
  | x :: xs' => print (render x) ;; print_each render xs'
  end.

Definition render_dm (msg : Client.dm) : line :=
  let sender :=
    or_default (Client.sender_name msg) (or_default (Client.sender_id msg) "Unknown") in
  MessageLine sender (or_default (Client.content msg) EmptyString).

Definition _show_messages (client : Client.gateway) : io unit :=
  try_except
    (messages <- call RGetPendingMessages (Client.get_pending_messages client) ;;
     match messages with
     | [] => print (Plain "No unread messages. Your inbox is empty.")
     | _ =>
         print (MessagesHeader (List.length messages)) ;;
         print_each render_dm (firstn 10 messages) ;;
         (if (10 <? List.length messages)%nat
          then print (AndMore (List.length messages - 10))
          else ret tt) ;;
         print ReplyHint
     end)
    (fun e => print_error ("Failed to load messages: " ++ str_exn e)).

Definition render_chat (msg : Client.chat_message) : line :=
  ChatLine (or_default (Client.chat_sender_name msg) "Unknown")
           (or_default (Client.message msg) EmptyString).

Definition _show_chat (client : Client.gateway) : io unit :=
  try_except
    (messages <- call (RGetGlobalChat 10) (Client.get_global_chat client 10) ;;
     match messages with
     | [] => print (Plain "No recent chat messages.")
     | _ =>
         print (Plain "Recent Global Chat:") ;;
         print_each render_chat (rev messages) ;;
         print Blank
     end)
    (fun e => print_error ("Failed to load chat: " ++ str_exn e)).

Definition _show_help : io unit := print Help.

(** [f"{recipient}"] *)
Definition str_opt (v : option string) : string := or_default v "None".

Definition _handle_chat_intent (client : Client.gateway) (action : string) : io bool :=
  dm_intent <- lift (_parse_dm_intent action) ;;
  match dm_intent with
  | Some (recipient, message) =>
      try_except
        (result <- call (RSendDm recipient message)
                        (Client.send_dm client recipient message) ;;
         if Client.success result
         then print_success ("Message sent to " ++ str_opt recipient)
         else print_error (or_default (Client.ack_error result)
                                      "Failed to send message"))
        (fun e => print_error ("Failed to send: " ++ str_exn e)) ;;
      ret true
  | None =>
      if _parse_inbox_intent action
      then _show_messages client ;; ret true
      else
        global_msg <- lift (_parse_global_chat_intent action) ;;
        if truthy_opt global_msg
        then
          let global_msg := or_default global_msg EmptyString in
          try_except
            (result <- call (RSendGlobalChat global_msg)
                            (Client.send_global_chat client global_msg) ;;
             if Client.success result
             then print_success "Sent to global chat"
             else print_error (or_default (Client.ack_error result) "Failed to send"))
            (fun e => print_error ("Failed to send: " ++ str_exn e)) ;;
          ret true
        else ret false
  end.

Inductive control : Type := Continue | Break.

(** [x in (a, b, ...)] on strings *)
Definition one_of (x : string) (xs : list string) : bool :=
  existsb (String.eqb x) xs.

(** The body of [while True] for a line [action] that was read. *)
Definition loop_body (client : Client.gateway) (action : string) : io control :=
  if negb (truthy action) then ret Continue
  else
    let action_lower := strip (lower action) in
    if one_of action_lower ["/quit"; "/exit"; "/q"]
    then print_success "Farewell, adventurer!" ;; ret Break
    else if one_of action_lower ["/look"; "/l"]
    then _do_look client ;; ret Continue
    else if one_of action_lower ["/inventory"; "/inv"; "/i"]
    then _do_inventory client ;; ret Continue
    else if one_of action_lower ["/rest"; "/r"]
    then _do_rest client ;; ret Continue
    else if one_of action_lower ["/messages"; "/m"; "/inbox"]
    then _show_messages client ;; ret Continue
    else if one_of action_lower ["/chat"; "/c"]
    then _show_chat client ;; ret Continue
    else if one_of action_lower ["/help"; "/h"; "/?"]
    then _show_help ;; ret Continue
    else if startswith "/" action_lower
    then print_error ("Unknown command: " ++ action) ;; ret Continue
    else
      handled <- _handle_chat_intent client action ;;
      if handled then ret Continue
      else _do_action client action ;; ret Continue.

(** What [Prompt.ask] gives: a line, or KeyboardInterrupt / EOFError. *)
Inductive prompt_result : Type :=
| Line (action : string)
| Interrupt.

(** The [while True] loop over the lines typed, each with the server's
    answers while it is handled; when the input ends the prompt raises
    EOFError. *)
Fixpoint game_rounds (script : list (prompt_result * Client.gateway)) : io unit :=
  match script with
  | [] => print Blank
  | (Interrupt, _) :: _ => print Blank
  | (Line action, client) :: script' =>
      c <- loop_body client action ;;
      match c with
      | Break => ret tt
      | Continue => game_rounds script'
      end
  end.

Definition _game_loop (client : Client.gateway)
           (script : list (prompt_result * Client.gateway)) : io unit :=
  print (Plain "Type your actions naturally. /help for commands.") ;;
  try_except
    (unread <- call RGetUnreadCount (Client.get_unread_count client) ;;
     if (0 <? unread)%Z then print (UnreadNotice unread) else ret tt)
    (fun _ => ret tt) ;;
  game_rounds script.

End Game.

(** ** Login, logout and the start of play *)

Module Session.
Import PyStr Config IO Game.
Open Scope io_scope.

(** What a [TextLandsClient] is built with. *)
Record credentials : Type := Credentials {
  cred_api_key : option string;
  cred_guest_id : option string
}.

(** [get_client()]; [fresh] is [uuid.uuid4().hex[:16]]. *)
Definition get_client (fresh : string) : io credentials :=
  api_key <- read api_key ;;
  session_token <- read session_token ;;
  guest_id <- read guest_id ;;
  if truthy_opt session_token
  then
    user_info <- read stored_user ;;
    let player_id :=
      match user_info with
      | Some u => Some (user_id u)
      | None => None
      end in
    ret (Credentials None (if truthy_opt player_id then player_id else guest_id))
  else if negb (truthy_opt api_key) && negb (truthy_opt guest_id)
  then
    let guest_id := "cli_" ++ fresh in
    write (set_guest_id guest_id) ;;
    ret (Credentials api_key (Some guest_id))
  else ret (Credentials api_key guest_id).

Record session_info : Type := SessionInfo {
  is_guest : bool;
  info_display_name : option string
}.

Record device_auth : Type := DeviceAuth {
  device_code : string;
  user_code : string;
  verification_url : string;
  expires_in : Z
}.

(** The answer to a poll; all keys but [status] may be missing. *)
Record token_result : Type := TokenResult {
  status : string;
  tok_session_token : option string;
  tok_user_id : option string;
  tok_email : option string;
  tok_display_name : option string
}.

(** The authentication endpoints; the answer to a poll may depend on
    the time at which it is made. *)
Record auth_server : Type := AuthServer {
  get_session : py session_info;
  request_cli_auth : string -> py device_auth;
  poll_cli_token : string -> Z -> py token_result
}.

(** [d[key]] *)
Definition item (key : string) (v : option string) : py string :=
  match v with
  | Some x => Ret x
  | None => Raise (KeyError key)
  end.

Definition poll (server : auth_server) (device_code : string) : io token_result :=
  fun w => call (RPollCliToken device_code)
                (poll_cli_token server device_code (clock w)) w.

(** The polling loop of [login]; [fuel] bounds the number of rounds,
    and [None] is returned only when it runs out. *)
Fixpoint poll_loop (fuel : nat) (server : auth_server) (email device_code : string)
         (start_time expires_in : Z) : io (option unit) :=
  now <- time ;;
  if (now - start_time <? expires_in)%Z
  then
    match fuel with
    | O => ret None
    | S fuel' =>
        sleep 2 ;;
        token_result <- poll server device_code ;;
        if status token_result =? "authorized"
        then
          tok <- lift (item "session_token" (tok_session_token token_result)) ;;
          write (set_session_token tok) ;;
          uid <- lift (item "user_id" (tok_user_id token_result)) ;;
          mail <- lift (item "email" (tok_email token_result)) ;;
          name <- lift (item "display_name" (tok_display_name token_result)) ;;
          write (set_user_info (UserInfo uid mail name)) ;;
          uid' <- lift (item "user_id" (tok_user_id token_result)) ;;
          write (set_guest_id uid') ;;
          print_success ("Logged in as "
                         ++ (if truthy_opt (tok_display_name token_result)
                             then or_default (tok_display_name token_result) email
                             else email) ++ "!") ;;
          print (Plain "Your progress now syncs across CLI, web, SMS, and Slack.") ;;
          ret (Some tt)
        else if status token_result =? "expired"
        then print_error "Authorization expired. Try again." ;; raise (Exit 1)
        else poll_loop fuel' server email device_code start_time expires_in
    end
  else print_error "Authorization timed out. Try again." ;; raise (Exit 1).

(** The magic-link flow of [login], from the request on. *)
Definition device_flow (fuel : nat) (server : auth_server) (email : string)
  : io (option unit) :=
  try_except
    (result <- call (RRequestCliAuth email) (request_cli_auth server email) ;;
     print (Plain ("Check your email! We sent a login link to " ++ email)) ;;
     print (Plain ("Or visit: " ++ verification_url result)) ;;
     print (Plain ("Code: " ++ user_code result)) ;;
     start_time <- time ;;
     poll_loop fuel server email (device_code result) start_time (expires_in result))
    (fun e => print_error ("Login failed: " ++ str_exn e) ;; raise (Exit 1)).

(** [login(email, api_key)]; [prompted] is the answer to "Enter your
    email" when no email is given. *)
Definition login (fuel : nat) (server : auth_server) (fresh prompted : string)
           (email api_key : option string) : io (option unit) :=
  if truthy_opt api_key
  then
    try_except
      (session <- call RGetSession (get_session server) ;;
       if is_guest session
       then print_error "Invalid API key" ;; raise (Exit 1)
       else
         write (set_api_key (or_default api_key EmptyString)) ;;
         print_success ("Logged in as "
                        ++ or_default (info_display_name session) "adventurer") ;;
         ret (Some tt))
      (fun e => print_error ("Login failed: " ++ str_exn e) ;; raise (Exit 1))
  else
    let email := if truthy_opt email then or_default email EmptyString else prompted in
    if negb (truthy email) || negb (contains "@" email)
    then print_error "Valid email is required" ;; raise (Exit 1)
    else get_client fresh ;; device_flow fuel server email.

Definition logout : io unit :=
  write clear_api_key ;;
  write clear_session_token ;;
  write clear_user_info ;;
  write clear_current_session ;;
  print_success "Logged out".

(** *** play *)

Record realm : Type := Realm {
  realm_key : string;                 (* "id" *)
  realm_title : string;               (* "name" *)
  tagline : option string
}.

Record land_group : Type := LandGroup {
  is_locked : bool;
  group_display_name : string;
  description : string;
  realms : list realm
}.

Record character : Type := Character {
  char_key : string;                  (* "id" *)
  char_name : string;
  occupation : option string;
  physical_summary : option string;
  backstory_hook : option string
}.

Record campfire : Type := Campfire {
  world_name : string;
  world_tagline : option string;
  intro_text : string;
  characters : list character;
  can_create_custom : bool
}.

(** The "session" dict of a start-session answer. *)
Record server_session : Type := ServerSession {
  s_world_id : option string;
  s_world_name : option string;
  s_character_id : option string;
  s_character_name : option string
}.

Record start_result : Type := StartResult {
  session : option server_session;
  start_message : option string;
  opening_narrative : option string
}.

Record lobby : Type := Lobby {
  list_worlds_grouped : py (list land_group);
  get_campfire : string -> py campfire;
  create_custom_character : string -> string -> py (option string);
  start_session : string -> string -> py start_result
}.

(** What the player answers to the prompts of [play]. *)
Record answers : Type := Answers {
  resume : string;            (* "y" or "n" *)
  realm_choice : Z;
  character_choice : Z;
  concept : string
}.

Definition print_opt (v : option string) : io unit :=
  if truthy_opt v then print (Plain (or_default v EmptyString)) else ret tt.

Fixpoint show_realms (idx : nat) (rs : list realm) : io nat :=
  match rs with
  | [] => ret idx
  | r :: rs' =>
      print (Numbered idx (realm_title r)) ;;
      print_opt (tagline r) ;;
      show_realms (S idx) rs'
  end.

Fixpoint show_groups (idx : nat) (groups : list land_group) : io (list realm) :=
  match groups with
  | [] => ret []
  | group :: groups' =>
      if is_locked group then show_groups idx groups'
      else
        print (Plain (group_display_name group ++ " - " ++ description group)) ;;
        idx' <- show_realms idx (realms group) ;;
        print Blank ;;
        more <- show_groups idx' groups' ;;
        ret (realms group ++ more)%list
  end.

Definition _select_realm (server : lobby) (ans : answers) : io (option string) :=
  r <- attempt (call RListWorldsGrouped (list_worlds_grouped server)) ;;
  match r with
  | Raise e => print_error ("Failed to list realms: " ++ str_exn e) ;; ret None
  | Ret groups =>
      print (Plain "Choose a realm:") ;;
      all_realms <- show_groups 1 groups ;;
      match all_realms with
      | [] => print_error "No realms available" ;; ret None
      | _ =>
          let choice := realm_choice ans in
          if (choice <? 1)%Z || (Z.of_nat (List.length all_realms) <? choice)%Z
          then print_error "Invalid choice" ;; ret None
          else ret (option_map realm_key (nth_error all_realms (Z.to_nat (choice - 1))))
      end
  end.

Fixpoint show_characters (i : nat) (cs : list character) : io unit :=
  match cs with
  | [] => ret tt
  | c :: cs' =>
      print (Numbered i (char_name c)) ;;
      print_opt (occupation c) ;;
      print_opt (physical_summary c) ;;
      print_opt (backstory_hook c) ;;
      print Blank ;;
      show_characters (S i) cs'
  end.

Definition _select_character (server : lobby) (ans : answers) (world_id : string)
           (camp : campfire) : io (option string) :=
  let characters := characters camp in
  print (Plain "Choose your character:") ;;
  show_characters 1 characters ;;
  (if can_create_custom camp
   then print (Numbered (List.length characters + 1) "Create your own character") ;;
        print Blank
   else ret tt) ;;
  let choice := character_choice ans in
  if can_create_custom camp && (choice =? Z.of_nat (List.length characters) + 1)%Z
  then
    if negb (truthy (concept ans)) then ret None
    else
      r <- attempt (call (RCreateCustomCharacter world_id (concept ans))
                         (create_custom_character server world_id (concept ans))) ;;
      match r with
      | Raise e => print_error ("Failed to create character: " ++ str_exn e) ;; ret None
      | Ret ident => ret ident
      end
  else if (choice <? 1)%Z || (Z.of_nat (List.length characters) <? choice)%Z
  then print_error "Invalid choice" ;; ret None
  else ret (option_map char_key (nth_error characters (Z.to_nat (choice - 1)))).

(** [current and current.get("realm_id")] *)
Definition has_session (current : option Config.session) : bool :=
  match current with
  | Some c => truthy_opt (realm_id c)
  | None => false
  end.

(** The dict [play] stores after a session has started. *)
Definition stored_session (result : start_result) : Config.session :=
  match session result with
  | Some s => Session (s_world_id s) (s_world_name s) (s_character_id s)
                      (s_character_name s)
  | None => Session None None None None
  end.

(** [play] from the selection of a realm on. *)
Definition start_new (server : lobby) (ans : answers)
           (client : Client.gateway)
           (script : list (prompt_result * Client.gateway))
           (realm : option string) : io unit :=
  chosen <- (if truthy_opt realm then ret realm else _select_realm server ans) ;;
  if negb (truthy_opt chosen) then ret tt
  else
    let realm := or_default chosen EmptyString in
    c <- attempt (call (RGetCampfire realm) (get_campfire server realm)) ;;
    match c with
    | Raise e => print_error ("Failed to load realm: " ++ str_exn e) ;; raise (Exit 1)
    | Ret camp =>
        print (Plain (world_name camp)) ;;
        print_opt (world_tagline camp) ;;
        print Blank ;;
        print (Plain (intro_text camp)) ;;
        entity <- _select_character server ans realm camp ;;
        if negb (truthy_opt entity) then ret tt
        else
          let entity_id := or_default entity EmptyString in
          s <- attempt (call (RStartSession realm entity_id)
                             (start_session server realm entity_id)) ;;
          match s with
          | Raise e =>
              print_error ("Failed to start session: " ++ str_exn e) ;;
              raise (Exit 1)
          | Ret result =>
              write (set_current_session (stored_session result)) ;;
              print Blank ;;
              print_success (or_default (start_message result)
                                        "Your adventure begins...") ;;
              (if truthy_opt (opening_narrative result)
               then print Blank ;;
                    print_narrative (or_default (opening_narrative result) EmptyString)
                                    "neutral"
               else ret tt) ;;
              _game_loop client script
          end
    end.

(** [play(realm)]: [client] answers the unread-count call at the entry
    of the game loop and [script] is what is typed in the loop. *)
Definition play (fresh : string) (server : lobby) (ans : answers)
           (client : Client.gateway)
           (script : list (prompt_result * Client.gateway))
           (realm : option string) : io unit :=
  get_client fresh ;;
  current <- read current_session ;;
  if has_session current && negb (truthy_opt realm)
  then
    if resume ans =? "y"
    then _game_loop client script
    else start_new server ans client script realm
  else start_new server ans client script realm.

End Session.

(** ** What it means for a pattern to match

    [Matches r st st'] holds when [r] can read the subject from [st] to
    [st']; the matcher only ever answers with such a reading. *)

Module ReSpec.
Import PyStr Re.

Inductive Matches : regex -> mstate -> mstate -> Prop :=
| MBol : forall st, pos st = 0 -> Matches Bol st st
| MEol : forall st,
    rest st = EmptyString \/ rest st = String newline EmptyString ->
    Matches Eol st st
| MLit : forall w s i c,
    Matches (Lit w) (MState (w ++ s) i c) (MState s (i + String.length w) c)
| MOne : forall k a s i c,
    in_class k a = true ->
    Matches (One k) (MState (String a s) i c) (MState s (S i) c)
| MPlus : forall k w s i c,
    w <> EmptyString -> all_chars (in_class k) w = true ->
    Matches (Plus k) (MState (w ++ s) i c) (MState s (i + String.length w) c)
| MStar : forall k w s i c,
    all_chars (in_class k) w = true ->
    Matches (Star k) (MState (w ++ s) i c) (MState s (i + String.length w) c)
| MOptYes : forall r st st', Matches r st st' -> Matches (Opt r) st st'
| MOptNo : forall r st, Matches (Opt r) st st
| MAltL : forall r1 r2 st st', Matches r1 st st' -> Matches (Alt r1 r2) st st'
| MAltR : forall r1 r2 st st', Matches r2 st st' -> Matches (Alt r1 r2) st st'
| MSeq : forall r1 r2 st st1 st2,
    Matches r1 st st1 -> Matches r2 st1 st2 -> Matches (Seq r1 r2) st st2
| MGrp : forall n r st st',
    Matches r st st' -> Matches (Grp n r) st (set_cap n (pos st) (pos st') st').

(** The group numbers a pattern can set. *)
Fixpoint groups (r : regex) : list nat :=
  match r with
  | Opt r1 => groups r1
  | Alt r1 r2 | Seq r1 r2 => groups r1 ++ groups r2
  | Grp n r1 => n :: groups r1
  | _ => []
  end.

Definition group_free (r : regex) : bool :=
  match groups r with
  | [] => true
  | _ => false
  end.

(** Where a reading of the subject [s] stands: [rest] is what follows
    the first [pos] characters. *)
Definition at_pos (s : string) (st : mstate) : Prop :=
  exists u, s = u ++ rest st /\ pos st = String.length u.

(** The parts of a pattern written as a sequence, and a reading of
    them one after the other. *)
Fixpoint spine (r : regex) : list regex :=
  match r with
  | Seq r1 r2 => r1 :: spine r2
  | _ => [r]
  end.

Inductive Chain : list regex -> mstate -> mstate -> Prop :=
| ChainNil : forall st, Chain [] st st
| ChainCons : forall r rs st st1 st2,
    Matches r st st1 -> Chain rs st1 st2 -> Chain (r :: rs) st st2.

(** The shape of the direct-message patterns: a recipient [(\w+)] and,
    up to the end of the line, a body [(.+)], with no other group. *)
Definition dm_shaped (p : regex) : Prop :=
  exists pre mid,
    forallb group_free pre = true /\ forallb group_free mid = true /\
    spine p = (pre ++ Grp 1 (Plus CWord) :: mid ++ [Grp 2 (Plus CAny); Eol])%list.

(** The shape of the global-chat patterns: a body [(.+)] up to the end
    of the line as the only group. *)
Definition global_shaped (p : regex) : Prop :=
  exists pre,
    forallb group_free pre = true /\
    spine p = (pre ++ [Grp 1 (Plus CAny); Eol])%list.

End ReSpec.

(** ** Reading a run: the calls made, and the intent they stand for *)

Module Observe.
Import PyStr Config IO Router Game.

Fixpoint calls (trace : list event) : list request :=
  match trace with
  | [] => []
  | Call r _ :: trace' => r :: calls trace'
  | _ :: trace' => calls trace'
  end.

Fixpoint outputs (trace : list event) : list line :=
  match trace with
  | [] => []
  | Out l :: trace' => l :: outputs trace'
  | _ :: trace' => outputs trace'
  end.

Definition is_message_line (l : line) : bool :=
  match l with
  | MessageLine _ _ => true
  | _ => false
  end.

Definition is_and_more (l : line) : bool :=
  match l with
  | AndMore _ => true
  | _ => false
  end.

(** The trace, the result and the final store of a run. *)
Definition trace_of {A : Type} (m : io A) (w : world) : list event :=
  fst (fst (m w)).
Definition result_of {A : Type} (m : io A) (w : world) : py A :=
  snd (m w).
Definition disk_after {A : Type} (m : io A) (w : world) : store :=
  disk (snd (fst (m w))).

(** A run that goes on after the events [trace]. *)
Definition then_run {A : Type} (trace : list event)
           (r : list event * world * py A) : list event * world * py A :=
  match r with
  | (t, w, x) => ((trace ++ t)%list, w, x)
  end.

(** The Intent Classification Result of the spec, for a line that is
    not a slash command (those are [command] below). *)
Inductive intent : Type :=
| DirectMessage (recipient : option string) (body : string)
| InboxCheck
| GlobalBroadcast (body : string)
| GameplayAction (raw_text : string).

(** The Gateway operation each intent is carried out by. *)
Definition request_of (i : intent) : request :=
  match i with
  | DirectMessage recipient body => RSendDm recipient body
  | InboxCheck => RGetPendingMessages
  | GlobalBroadcast body => RSendGlobalChat body
  | GameplayAction raw_text => RDoAction raw_text
  end.

(** The routing order in the words of the spec: direct-message check,
    then inbox check, then global-chat check, then gameplay; [None]
    stands for a parser that raised. *)
Definition spec_classify (action : string) : option intent :=
  match _parse_dm_intent action with
  | Raise _ => None
  | Ret (Some (recipient, body)) => Some (DirectMessage recipient body)
  | Ret None =>
      if _parse_inbox_intent action then Some InboxCheck
      else match _parse_global_chat_intent action with
           | Raise _ => None
           | Ret (Some body) => Some (GlobalBroadcast body)
           | Ret None => Some (GameplayAction action)
           end
  end.

(** The slash commands in the words of the spec: quit/exit/q; look/l;
    inventory/inv/i; rest/r; messages/m/inbox; chat/c; help/h/?. *)
Inductive command : Type :=
| Quit | Look | Inventory | Rest | Messages | Chat | HelpCommand.

Definition aliases : list (string * command) :=
  [ ("/quit", Quit); ("/exit", Quit); ("/q", Quit);
    ("/look", Look); ("/l", Look);
    ("/inventory", Inventory); ("/inv", Inventory); ("/i", Inventory);
    ("/rest", Rest); ("/r", Rest);
    ("/messages", Messages); ("/m", Messages); ("/inbox", Messages);
    ("/chat", Chat); ("/c", Chat);
    ("/help", HelpCommand); ("/h", HelpCommand); ("/?", HelpCommand) ].

Fixpoint lookup_alias (name : string) (table : list (string * command))
  : option command :=
  match table with
  | [] => None
  | (alias, c) :: table' => if name =? alias then Some c else lookup_alias name table'
  end.

Definition spec_lex (action : string) : option command :=
  lookup_alias (strip (lower action)) aliases.

(** What the loop does for a slash line, by the command it names. *)
Definition spec_dispatch (client : Client.gateway) (action : string)
           (c : option command) : io control :=
  match c with
  | Some Quit => iobind (print_success "Farewell, adventurer!") (fun _ => ret Break)
  | Some Look => iobind (_do_look client) (fun _ => ret Continue)
  | Some Inventory => iobind (_do_inventory client) (fun _ => ret Continue)
  | Some Rest => iobind (_do_rest client) (fun _ => ret Continue)
  | Some Messages => iobind (_show_messages client) (fun _ => ret Continue)
  | Some Chat => iobind (_show_chat client) (fun _ => ret Continue)
  | Some HelpCommand => iobind _show_help (fun _ => ret Continue)
  | None => iobind (print_error ("Unknown command: " ++ action))
                   (fun _ => ret Continue)
  end.

(** A request that only the chat router or the gameplay fallback makes. *)
Definition router_only (r : request) : bool :=
  match r with
  | RSendDm _ _ | RSendGlobalChat _ | RDoAction _ => true
  | _ => false
  end.

End Observe.

(** ** Words for what a run does *)

Module Shape.
Import PyStr Config IO Game Session Observe.

(** A run that only prints. *)
Definition prints (ls : list line) : list event := map Out ls.

(** [m] prints the lines [ls], returns [a], and does nothing else. *)
Definition says {A : Type} (m : io A) (ls : list line) (a : A) : Prop :=
  forall w, m w = (prints ls, w, Ret a).

Fixpoint numbered (i : nat) (actions : list string) : list line :=
  match actions with
  | [] => []
  | action :: actions' => Numbered i action :: numbered (S i) actions'
  end.

Definition suggestion_lines (actions : list string) : list line :=
  match actions with
  | [] => []
  | _ => SuggestedHeader :: numbered 1 actions
  end.

(** The shape of the trace of one round of the loop. *)
Definition one_call (r : request) (trace : list event) : Prop :=
  (exists e msg, trace = [Call r (Some e); Out (Error msg)]) \/
  (exists ls, trace = Call r None :: prints ls).

(** [h] makes the one call [r]; when the call raises, it prints one
    error line and nothing else; it never raises itself and leaves
    store and clock alone. *)
Definition handles (h : io unit) (r : request) : Prop :=
  forall w, exists trace, h w = (trace, w, Ret tt) /\ one_call r trace.

(** The lines [_show_messages] prints for the messages fetched. *)
Definition inbox_lines (messages : list Client.dm) : list line :=
  match messages with
  | [] => [Plain "No unread messages. Your inbox is empty."]
  | _ =>
      MessagesHeader (List.length messages)
      :: map render_dm (firstn 10 messages)
      ++ (if (10 <? List.length messages)%nat
          then [AndMore (List.length messages - 10)] else [])
      ++ [ReplyHint]
  end%list.



(** The store after an authorization. *)
Definition authenticated (tok uid mail name : string) (s : store) : store :=
  set_guest_id uid (set_user_info (UserInfo uid mail name) (set_session_token tok s)).

(** [m] leaves the store and the clock as they are. *)
Definition keeps {A : Type} (m : io A) : Prop :=
  forall w, exists t r, m w = (t, w, r).

(** The store holds something [get_client] can build a client from,
    so that it has no guest identity to make up. *)
Definition has_identity (s : store) : bool :=
  truthy_opt (session_token s) || truthy_opt (api_key s) || truthy_opt (guest_id s).

(** The store [get_client] leaves: a guest identity is made up only
    when there is nothing to build a client from. *)
Definition with_identity (fresh : string) (s : store) : store :=
  if has_identity s then s else set_guest_id ("cli_" ++ fresh) s.

(** What a run started in [w] may have done to the store: nothing,
    or the overwriting of the current session by the one a successful
    start-session call returned. *)
Definition framed (server : lobby) (w : world)
           (res : list event * world * py unit) : Prop :=
  clock (snd (fst res)) = clock w /\
  (disk (snd (fst res)) = disk w \/
   exists realm entity result,
     start_session server realm entity = Ret result /\
     In (Call (RStartSession realm entity) None) (fst (fst res)) /\
     disk (snd (fst res)) = set_current_session (stored_session result) (disk w)).

End Shape.

(** ** Concrete servers and stores to run the model on *)

Module Fixtures.
Import Config IO.

Definition down : exn := HttpError "connection refused".

(** A server that cannot be reached. *)
Definition offline : Client.gateway :=
  Client.Gateway (Raise down) (Raise down) (Raise down)
                 (fun _ => Raise down) (fun _ _ => Raise down)
                 (Raise down) (Raise down) (fun _ => Raise down)
                 (fun _ => Raise down).

(** A server that only serves the inbox. *)
Definition mailbox (messages : list Client.dm) : Client.gateway :=
  Client.Gateway (Raise down) (Raise down) (Raise down)
                 (fun _ => Raise down) (fun _ _ => Raise down)
                 (Ret messages) (Raise down) (fun _ => Raise down)
                 (fun _ => Raise down).

Definition note (n : string) : Client.dm :=
  Client.Dm (Some "Kira") None (Some n).

Definition twelve : list Client.dm :=
  map note ["1"; "2"; "3"; "4"; "5"; "6"; "7"; "8"; "9"; "10"; "11"; "12"].

Definition first_run : store :=
  Store "https://api.textlands.com" None None None None None.

Definition w0 : world := World first_run 0.

Definition pending : Session.token_result :=
  Session.TokenResult "pending" None None None None.

Definition granted : Session.token_result :=
  Session.TokenResult "authorized" (Some "tok-1") (Some "user-7")
                      (Some "kira@example.org") (Some "Kira").

(** A server that answers "authorized" to the polls made from time
    [t] on, and "pending" before. *)
Definition grants_at (expires_in t : Z) : Session.auth_server :=
  Session.AuthServer
    (Raise down)
    (fun _ => Ret (Session.DeviceAuth "dev-1" "ABCD" "https://textlands.com/cli"
                                      expires_in))
    (fun _ now => if (now <? t)%Z then Ret pending else Ret granted).

(** A server that only ever answers "pending". *)
Definition never_grants (expires_in : Z) : Session.auth_server :=
  Session.AuthServer
    (Raise down)
    (fun _ => Ret (Session.DeviceAuth "dev-1" "ABCD" "https://textlands.com/cli"
                                      expires_in))
    (fun _ _ => Ret pending).

(** A lobby with one realm and one character, where sessions start. *)
Definition emberfall : Session.lobby :=
  Session.Lobby
    (Ret [Session.LandGroup false "Fantasy" "Swords and sorcery"
                            [Session.Realm "r-1" "Emberfall" None]])
    (fun _ => Ret (Session.Campfire "Emberfall" None "You arrive at dusk."
                                    [Session.Character "c-1" "Mira" None None None]
                                    false))
    (fun _ _ => Raise down)
    (fun world_id entity_id =>
       Ret (Session.StartResult
              (Some (Session.ServerSession (Some world_id) (Some "Emberfall")
                                           (Some entity_id) (Some "Mira")))
              None None)).

(** The store of a guest who has played before. *)
Definition returning : store :=
  Store "https://api.textlands.com" None (Some "cli_f00d") None None
        (Some (Session (Some "r-0") (Some "Oldrealm") (Some "c-0") (Some "Odo"))).

Definition declines : Session.answers := Session.Answers "n" 1 1 EmptyString.

End Fixtures.

(** ** More words for what the parsers and a run do *)

Module Reading.
Import PyStr Re Router Config IO Game Session Observe.

(** A text that does not go on with a character of the class [p]. *)
Definition stops (p : ascii -> bool) (r : string) : Prop :=
  match r with
  | EmptyString => True
  | String c _ => p c = false
  end.

(** What is sent for a line [text]: some text, which is either what
    follows the first [k > 0] characters of the line as it was typed,
    or the start of the lowered, stripped line. *)
Definition sent_text (text message : string) : Prop :=
  truthy message = true /\
  ((exists k, 0 < k /\ message = drop k text) \/
   startswith message (strip (lower text)) = true).

(** An intent without the text it carries: the route of a line. *)
Definition without_body (i : intent) : intent :=
  match i with
  | DirectMessage recipient _ => DirectMessage recipient EmptyString
  | InboxCheck => InboxCheck
  | GlobalBroadcast _ => GlobalBroadcast EmptyString
  | GameplayAction _ => GameplayAction EmptyString
  end.

(** The inbox phrases that hold no other inbox phrase. *)
Definition inbox_core : list string :=
  [ "inbox"; "messages"; "mail"; "dms"; "who messaged me"; "who wrote me"; "unread" ].

(** The direct-message patterns but the fourth. *)
Definition dm_patterns_but_fourth : list regex :=
  (firstn 3 dm_patterns ++ skipn 4 dm_patterns)%list.

(** The calls the game loop makes. *)
Definition loop_request (r : request) : bool :=
  match r with
  | RGetUnreadCount | RDoAction _ | RLook | RRest | RInventory
  | RSendDm _ _ | RGetPendingMessages | RSendGlobalChat _ | RGetGlobalChat _ => true
  | _ => false
  end.

(** What ends the loop: an interrupt or the end of the input, and a
    line of the quit family. *)
Definition ends_loop (p : prompt_result) : bool :=
  match p with
  | Interrupt => true
  | Line action => one_of (strip (lower action)) ["/quit"; "/exit"; "/q"]
  end.

(** The realms [_select_realm] lists: those of the lands that are not
    locked, in order. *)
Definition open_realms (groups : list land_group) : list realm :=
  flat_map realms (filter (fun group => negb (is_locked group)) groups).

Definition is_numbered (l : line) : bool :=
  match l with
  | Numbered _ _ => true
  | _ => false
  end.

Definition is_chat_line (l : line) : bool :=
  match l with
  | ChatLine _ _ => true
  | _ => false
  end.

(** The calls of a run. *)
Definition calls_of {A : Type} (res : list event * world * py A) : list request :=
  calls (fst (fst res)).

(** The calls of a [play] that does not resume, in order: the listing
    of the realms unless a realm was asked for, the campfire of the
    realm, the making of a custom character if one was asked for, the
    start of the session, and then the calls of the game loop; the run
    may end after any of them. *)
Definition new_session_calls (cs : list request) : Prop :=
  exists listing,
    (listing = [] \/ listing = [RListWorldsGrouped]) /\
    (cs = listing \/
     exists realm custom,
       truthy realm = true /\
       (custom = [] \/
        exists concept, truthy concept = true /\
                        custom = [RCreateCustomCharacter realm concept]) /\
       (cs = (listing ++ RGetCampfire realm :: custom)%list \/
        exists entity loop,
          truthy entity = true /\ forallb loop_request loop = true /\
          cs = (listing ++ RGetCampfire realm :: custom
                ++ RStartSession realm entity :: loop)%list)).

End Reading.

(** ** The requests the client sends ([client.py]) *)

Module Http.
Import PyStr IO.
Open Scope io_scope.

(** [s.rstrip("/")] *)
Fixpoint rstrip_slash (s : string) : string :=
  match s with
  | EmptyString => EmptyString
  | String c s' =>
      match rstrip_slash s' with
      | EmptyString => if Ascii.eqb c "/" then EmptyString else String c EmptyString
      | r => String c r
      end
  end.

Record TextLandsClient : Type := Build_TextLandsClient {
  base_url : string;
  api_key : option string;
  guest_id : option string
}.

(** [TextLandsClient(base_url, api_key, guest_id)] *)
Definition __init__ (base_url : string) (api_key guest_id : option string)
  : TextLandsClient :=
  Build_TextLandsClient (rstrip_slash base_url) api_key guest_id.

(** [v or d] *)
Definition or_else (v : option string) (d : string) : string :=
  if Config.truthy_opt v then Game.or_default v d else d.

Definition _get_headers (self : TextLandsClient) : list (string * string) :=
  ([ ("Content-Type", "application/json"); ("User-Agent", "TextLands-CLI/0.1.0") ]
   ++ (if Config.truthy_opt (api_key self)
       then [("X-API-Key", Game.or_default (api_key self) EmptyString)] else [])
   ++ (if Config.truthy_opt (guest_id self)
       then [("Cookie", String.append "textlands_guest="
                                      (Game.or_default (guest_id self) EmptyString))]
       else []))%list.

Inductive verb : Type := GET | POST.

(** A value of the query string or of the JSON body. *)
Inductive value : Type :=
| VStr (s : string)
| VInt (z : Z)
| VBool (b : bool)
| VNone.

Definition of_opt (v : option string) : value :=
  match v with
  | Some s => VStr s
  | None => VNone
  end.

(** What is handed to httpx: the verb, the path, [params=], and
    [json=] (empty when the call has none). *)
Record http_request : Type := Request {
  method : verb;
  path : string;
  params : list (string * value);
  json : list (string * value)
}.

(** [self.guest_id or "cli_user"] *)
Definition player_key (self : TextLandsClient) : string :=
  or_else (guest_id self) "cli_user".

Definition get_session (self : TextLandsClient) : http_request :=
  Request GET "/session/current" [] [].

Definition start_session (self : TextLandsClient) (world_id entity_id : string)
  : http_request :=
  Request POST "/session/start" []
          [("world_id", VStr world_id); ("entity_id", VStr entity_id)].

Definition list_worlds (self : TextLandsClient) (realm : option string)
           (include_nsfw : bool) (limit : Z) : http_request :=
  Request GET "/infinite/worlds"
          ([("limit", VInt limit); ("include_nsfw", VBool include_nsfw)]
           ++ (if Config.truthy_opt realm then [("realm", of_opt realm)] else []))%list
          [].

Definition list_worlds_grouped (self : TextLandsClient) : http_request :=
  Request GET "/infinite/worlds/grouped" [] [].

Definition get_world (self : TextLandsClient) (world_id : string) : http_request :=
  Request GET ("/infinite/worlds/" ++ world_id) [] [].

Definition get_campfire (self : TextLandsClient) (world_id : string) (limit : Z)
  : http_request :=
  Request GET ("/infinite/worlds/" ++ world_id ++ "/campfire") [("limit", VInt limit)] [].

Definition do_action (self : TextLandsClient) (action : string) : http_request :=
  Request POST "/actions/do" [] [("action", VStr action)].

Definition look (self : TextLandsClient) : http_request :=
  Request POST "/actions/look" [] [].

Definition move (self : TextLandsClient) (destination : string) : http_request :=
  Request POST "/actions/move" [] [("destination", VStr destination)].

Definition talk (self : TextLandsClient) (target : string) (message : option string)
  : http_request :=
  Request POST "/actions/talk" []
          ([("target", VStr target)]
           ++ (if Config.truthy_opt message then [("message", of_opt message)] else []))%list.

Definition rest (self : TextLandsClient) : http_request :=
  Request POST "/actions/rest" [] [].

Definition inventory (self : TextLandsClient) : http_request :=
  Request POST "/actions/inventory" [] [].

Definition create_custom_character (self : TextLandsClient) (world_id concept : string)
  : http_request :=
  Request POST ("/infinite/worlds/" ++ world_id ++ "/characters/custom") []
          [("concept", VStr concept)].

Definition send_dm (self : TextLandsClient) (recipient : option string)
           (content : string) : http_request :=
  Request POST "/dm/send-by-key"
          [("sender_key", VStr (player_key self)); ("recipient_key", of_opt recipient);
           ("content", VStr content)]
          [].

Definition get_pending_messages (self : TextLandsClient) : http_request :=
  Request GET ("/dm/pending/" ++ player_key self) [] [].

Definition get_unread_count (self : TextLandsClient) : http_request :=
  Request GET ("/dm/unread/" ++ player_key self) [] [].

Definition send_global_chat (self : TextLandsClient) (message : string) : http_request :=
  Request POST "/chat/global/send"
          [("player_key", VStr (player_key self)); ("message", VStr message)] [].

Definition send_land_chat (self : TextLandsClient) (message : string)
           (land_key : option string) : http_request :=
  Request POST "/chat/land/send"
          ([("player_key", VStr (player_key self)); ("message", VStr message)]
           ++ (if Config.truthy_opt land_key then [("land_key", of_opt land_key)] else []))%list
          [].

Definition get_global_chat (self : TextLandsClient) (limit : Z) : http_request :=
  Request GET "/chat/global" [("limit", VInt limit)] [].

Definition get_land_chat (self : TextLandsClient) (land_key : string) (limit : Z)
  : http_request :=
  Request GET ("/chat/land/" ++ land_key) [("limit", VInt limit)] [].

Definition subscribe_chat (self : TextLandsClient) (channel : string) : http_request :=
  Request POST "/chat/subscribe"
          [("player_key", VStr (player_key self)); ("channel", VStr channel)] [].

Definition request_cli_auth (self : TextLandsClient) (email : string) : http_request :=
  Request POST "/auth/cli/request" [] [("email", VStr email)].

Definition poll_cli_token (self : TextLandsClient) (device_code : string)
  : http_request :=
  Request GET "/auth/cli/token" [("device_code", VStr device_code)] [].

Definition list_lands (self : TextLandsClient) : http_request :=
  Request GET "/infinite/lands" [] [].

(** The request behind each call of a run, as [main.py] makes it. *)
Definition on_the_wire (self : TextLandsClient) (r : request) : http_request :=
  match r with
  | RGetSession => get_session self
  | RStartSession world_id entity_id => start_session self world_id entity_id
  | RListWorldsGrouped => list_worlds_grouped self
  | RGetCampfire world_id => get_campfire self world_id 5
  | RCreateCustomCharacter world_id concept =>
      create_custom_character self world_id concept
  | RDoAction action => do_action self action
  | RLook => look self
  | RRest => rest self
  | RInventory => inventory self
  | RSendDm recipient content => send_dm self recipient content
  | RGetPendingMessages => get_pending_messages self
  | RGetUnreadCount => get_unread_count self
  | RSendGlobalChat message => send_global_chat self message
  | RGetGlobalChat limit => get_global_chat self limit
  | RRequestCliAuth email => request_cli_auth self email
  | RPollCliToken device_code => poll_cli_token self device_code
  end.

(** [get_client()], with the client it builds. *)
Definition connect (fresh : string) : io TextLandsClient :=
  api_url <- read Config.api_url ;;
  c <- Session.get_client fresh ;;
  ret (__init__ api_url (Session.cred_api_key c) (Session.cred_guest_id c)).

End Http.

(** ** More servers and stores to run the model on *)

Module Samples.
Import Config IO.

(** A lobby with a locked land in front of an open one. *)
Definition two_lands : Session.lobby :=
  Session.Lobby
    (Ret [Session.LandGroup true "After Dark" "Adults only"
                            [Session.Realm "r-9" "Velvet" None];
          Session.LandGroup false "Fantasy" "Swords and sorcery"
                            [Session.Realm "r-1" "Emberfall" (Some "Ash and embers");
                             Session.Realm "r-2" "Tidewatch" None]])
    (fun _ => Ret (Session.Campfire "Tidewatch" None "The tide is out."
                                    [Session.Character "c-1" "Mira" (Some "Smith") None None;
                                     Session.Character "c-2" "Odo" None None None]
                                    true))
    (fun _ _ => Ret (Some "c-9"))
    (fun world_id entity_id =>
       Ret (Session.StartResult
              (Some (Session.ServerSession (Some world_id) (Some "Tidewatch")
                                           (Some entity_id) (Some "Odo")))
              None None)).


Definition second : Session.answers := Session.Answers "n" 2 2 EmptyString.

(** A server that only serves the global chat. *)
Definition tavern (messages : list Client.chat_message) : Client.gateway :=
  Client.Gateway (Raise Fixtures.down) (Raise Fixtures.down) (Raise Fixtures.down)
                 (fun _ => Raise Fixtures.down) (fun _ _ => Raise Fixtures.down)
                 (Raise Fixtures.down) (Raise Fixtures.down)
                 (fun _ => Raise Fixtures.down) (fun _ => Ret messages).

Definition chatter : list Client.chat_message :=
  [ Client.ChatMessage (Some "Kira") (Some "latest");
    Client.ChatMessage None (Some "earlier");
    Client.ChatMessage (Some "Odo") (Some "earliest") ].

End Samples.

(** ** The console: rich's markup ([rich.markup], [Console.print])

    [console.print] of a [str] reads it as markup.  A tag is an
    opening bracket, one character of a-z, #, / or @, and the text up
    to the first closing bracket, with no opening bracket in it; an
    odd run of backslashes in front of the tag makes it text.  An
    opening tag is pushed on a stack of styles; a closing tag takes
    the nearest open tag of its name off the stack, the bare closing
    tag takes the top one, and either raises [MarkupError] when there
    is none.  Tags left open are closed at the end of the text.

    [Style.normalize] is taken as [style.strip().lower()], its value
    on a name that is no style definition, and the handler of an [@]
    tag is not evaluated: the properties below are about texts in
    which the words that are not the program's own hold no opening
    bracket, and about a closing tag met when no tag is open. *)

Module Markup.
Import PyStr IO.

(** The characters a tag begins with: a-z, #, / and @. *)
Definition tag_start (c : ascii) : bool :=
  let n := nat_of_ascii c in
  (((97 <=? n) && (n <=? 122)) || (n =? 35) || (n =? 47) || (n =? 64))%nat.

(** Where the matcher is in the text. *)
Inductive state : Type :=
| Text (backslashes : nat)
    (* outside a tag, after a run of that many backslashes *)
| Bracket (escapes position : nat)
    (* after the bracket at [position], which followed [escapes] backslashes *)
| Tag (escapes position : nat) (text : string) (backslashes : nat).
    (* in a tag, [text] read so far, ending with that many backslashes *)

(** [text.partition("=")[0]] *)
Fixpoint before_equals (s : string) : string :=
  match s with
  | EmptyString => EmptyString
  | String c s' =>
      if Ascii.eqb c "=" then EmptyString else String c (before_equals s')
  end.

Definition normalize (style : string) : string := strip (lower style).

(** [pop_style]: the nearest open tag of that name leaves the stack. *)
Fixpoint pop_style (style_name : string) (stack : list string)
  : option (list string) :=
  match stack with
  | [] => None
  | name :: stack' =>
      if name =? style_name then Some stack'
      else match pop_style style_name stack' with
           | Some rest => Some (name :: rest)
           | None => None
           end
  end.

(** [str(n)] *)
Definition str_nat (n : nat) : string := NilEmpty.string_of_uint (Nat.to_uint n).

(** What [render] does with the tag of text [tag_text] found at [position]. *)
Definition on_tag (tag_text : string) (position : nat) (stack : list string)
  : py (list string) :=
  let name := before_equals tag_text in
  if startswith "/" name
  then
    let style_name := strip (drop 1 name) in
    if truthy style_name
    then match pop_style (normalize style_name) stack with
         | Some stack' => Ret stack'
         | None =>
             Raise (MarkupError ("closing tag '[" ++ tag_text ++ "]' at position "
                                 ++ str_nat position
                                 ++ " doesn't match any open tag"))
         end
    else match stack with
         | _ :: stack' => Ret stack'
         | [] =>
             Raise (MarkupError ("closing tag '[/]' at position "
                                 ++ str_nat position ++ " has nothing to close"))
         end
  else Ret (normalize name :: stack).

Definition backslash : ascii := ascii_of_nat 92.

(** One character of the text, read at [position]. *)
Definition step (c : ascii) (position : nat) (st : state) (stack : list string)
  : py (state * list string) :=
  match st with
  | Text k =>
      if Ascii.eqb c "[" then Ret (Bracket k position, stack)
      else if Ascii.eqb c backslash then Ret (Text (S k), stack)
      else Ret (Text 0, stack)
  | Bracket k at_ =>
      if tag_start c then Ret (Tag k at_ (String c EmptyString) 0, stack)
      else if Ascii.eqb c "[" then Ret (Bracket 0 position, stack)
      else if Ascii.eqb c backslash then Ret (Text 1, stack)
      else Ret (Text 0, stack)
  | Tag k at_ text b =>
      if Ascii.eqb c "]"
      then if Nat.even k
           then match on_tag text at_ stack with
                | Ret stack' => Ret (Text 0, stack')
                | Raise e => Raise e
                end
           else Ret (Text 0, stack)
      else if Ascii.eqb c "[" then Ret (Bracket b position, stack)
      else Ret (Tag k at_ (text ++ String c EmptyString)
                    (if Ascii.eqb c backslash then S b else 0), stack)
  end.

Fixpoint scan (s : string) (position : nat) (st : state) (stack : list string)
  : py (state * list string) :=
  match s with
  | EmptyString => Ret (st, stack)
  | String c s' =>
      match step c position st stack with
      | Ret (st', stack') => scan s' (S position) st' stack'
      | Raise e => Raise e
      end
  end.

(** [rich.markup.render]: the exception it raises, if any. *)
Definition render (markup : string) : option exn :=
  match scan markup 0 (Text 0) [] with
  | Ret _ => None
  | Raise e => Some e
  end.

(** [console.print(markup)], shown as the line [l]. *)
Definition console_print (markup : string) (l : line) : io unit :=
  fun w =>
    match render markup with
    | None => ([Out l], w, Ret tt)
    | Some e => ([], w, Raise e)
    end.

(** The text holds no opening bracket. *)
Definition plain (s : string) : bool :=
  all_chars (fun c => negb (Ascii.eqb c "[")) s.

End Markup.

(** ** The game loop on that console

    The functions of [Game] once more, with every text that is made
    of a server's or a player's words printed through
    [Markup.console_print]; a text that is fixed, or fixed but for a
    number, is printed as in [Game]. *)

Module Rendered.
Import PyStr Config IO Router Markup.
Import Game(or_default, mood_style, render_dm, render_chat, str_opt, control,
            Continue, Break, one_of, prompt_result, Line, Interrupt).
Open Scope io_scope.

Definition nl : string := String Re.newline EmptyString.

Definition print_error (message : string) : io unit :=
  console_print ("[red]Error:[/red] " ++ message) (Error message).

Definition print_success (message : string) : io unit :=
  console_print ("[green]" ++ message ++ "[/green]") (Success message).

(** [console.print(Panel(text, ...))]: the panel renders its text as
    the console renders a [str]. *)
Definition print_narrative (text mood : string) : io unit :=
  console_print text (Narrative text (mood_style mood)).

Fixpoint print_numbered (i : nat) (actions : list string) : io unit :=
  match actions with
  | [] => ret tt
  | action :: actions' =>
      console_print ("  [cyan]" ++ str_nat i ++ ".[/cyan] " ++ action)
                    (Numbered i action) ;;
      print_numbered (S i) actions'
  end.

Definition print_suggestions (actions : list string) : io unit :=
  match actions with
  | [] => ret tt
  | _ => print SuggestedHeader ;; print_numbered 1 actions
  end.

Definition _do_action (client : Client.gateway) (action : string) : io unit :=
  r <- attempt (call (RDoAction action) (Client.do_action client action)) ;;
  match r with
  | Raise e => print_error ("Action failed: " ++ str_exn e)
  | Ret result =>
      if truthy_opt (Client.error result)
      then print_error (or_default (Client.error result) EmptyString)
      else
        print_narrative (or_default (Client.narrative result) EmptyString)
                        (or_default (Client.mood result) "neutral") ;;
        print_suggestions (Client.suggested_actions result) ;;
        if Client.requires_account result
        then
          let incentive :=
            or_default (Client.account_prompt_incentive result)
                       "Sign up to continue!" in
          console_print (nl ++ "[yellow]" ++ incentive ++ "[/yellow]")
                        (Plain incentive) ;;
          print (Plain "Visit https://textlands.com to create an account")
        else ret tt
  end.

Definition _do_look (client : Client.gateway) : io unit :=
  r <- attempt (call RLook (Client.look client)) ;;
  match r with
  | Raise e => print_error ("Failed: " ++ str_exn e)
  | Ret result =>
      print_narrative (or_default (Client.narrative result) "You look around...")
                      "neutral" ;;
      print_suggestions (Client.suggested_actions result)
  end.

Definition _do_inventory (client : Client.gateway) : io unit :=
  r <- attempt (call RInventory (Client.inventory client)) ;;
  match r with
  | Raise e => print_error ("Failed: " ++ str_exn e)
  | Ret result =>
      print_narrative (or_default (Client.narrative result)
                                  "You check your belongings...") "neutral"
  end.

Definition _do_rest (client : Client.gateway) : io unit :=
  r <- attempt (call RRest (Client.rest client)) ;;
  match r with
  | Raise e => print_error ("Failed: " ++ str_exn e)
  | Ret result =>
      print_narrative (or_default (Client.narrative result)
                                  "You rest for a while...") "neutral"
  end.

(** The text printed for a line "sender: content", in bold up to the colon. *)
Definition sender_and_content (l : line) : string :=
  match l with
  | MessageLine sender content => "[bold]" ++ sender ++ "[/bold]: " ++ content ++ nl
  | ChatLine sender content => "[bold]" ++ sender ++ "[/bold]: " ++ content
  | _ => EmptyString
  end.

Fixpoint print_each {A : Type} (render : A -> line) (xs : list A) : io unit :=
  match xs with
  | [] => ret tt
  | x :: xs' =>
      console_print (sender_and_content (render x)) (render x) ;;
      print_each render xs'
  end.

Definition _show_messages (client : Client.gateway) : io unit :=
  try_except
    (messages <- call RGetPendingMessages (Client.get_pending_messages client) ;;
     match messages with
     | [] => print (Plain "No unread messages. Your inbox is empty.")
     | _ =>
         print (MessagesHeader (List.length messages)) ;;
         print_each render_dm (firstn 10 messages) ;;
         (if (10 <? List.length messages)%nat
          then print (AndMore (List.length messages - 10))
          else ret tt) ;;
         print ReplyHint
     end)
    (fun e => print_error ("Failed to load messages: " ++ str_exn e)).

Definition _show_chat (client : Client.gateway) : io unit :=
  try_except
    (messages <- call (RGetGlobalChat 10) (Client.get_global_chat client 10) ;;
     match messages with
     | [] => print (Plain "No recent chat messages.")
     | _ =>
         print (Plain "Recent Global Chat:") ;;
         print_each render_chat (rev messages) ;;
         print Blank
     end)
    (fun e => print_error ("Failed to load chat: " ++ str_exn e)).

Definition _show_help : io unit := print Help.

Definition _handle_chat_intent (client : Client.gateway) (action : string) : io bool :=
  dm_intent <- lift (_parse_dm_intent action) ;;
  match dm_intent with
  | Some (recipient, message) =>
      try_except
        (result <- call (RSendDm recipient message)
                        (Client.send_dm client recipient message) ;;
         if Client.success result
         then print_success ("Message sent to " ++ str_opt recipient)
         else print_error (or_default (Client.ack_error result)
                                      "Failed to send message"))
        (fun e => print_error ("Failed to send: " ++ str_exn e)) ;;
      ret true
  | None =>
      if _parse_inbox_intent action
      then _show_messages client ;; ret true
      else
        global_msg <- lift (_parse_global_chat_intent action) ;;
        if truthy_opt global_msg
        then
          let global_msg := or_default global_msg EmptyString in
          try_except
            (result <- call (RSendGlobalChat global_msg)
                            (Client.send_global_chat client global_msg) ;;
             if Client.success result
             then print_success "Sent to global chat"
             else print_error (or_default (Client.ack_error result) "Failed to send"))
            (fun e => print_error ("Failed to send: " ++ str_exn e)) ;;
          ret true
        else ret false
  end.

(** The body of [while True] for a line [action] that was read. *)
Definition loop_body (client : Client.gateway) (action : string) : io control :=
  if negb (truthy action) then ret Continue
  else
    let action_lower := strip (lower action) in
    if one_of action_lower ["/quit"; "/exit"; "/q"]
    then print_success "Farewell, adventurer!" ;; ret Break
    else if one_of action_lower ["/look"; "/l"]
    then _do_look client ;; ret Continue
    else if one_of action_lower ["/inventory"; "/inv"; "/i"]
    then _do_inventory client ;; ret Continue
    else if one_of action_lower ["/rest"; "/r"]
    then _do_rest client ;; ret Continue
    else if one_of action_lower ["/messages"; "/m"; "/inbox"]
    then _show_messages client ;; ret Continue
    else if one_of action_lower ["/chat"; "/c"]
    then _show_chat client ;; ret Continue
    else if one_of action_lower ["/help"; "/h"; "/?"]
    then _show_help ;; ret Continue
    else if startswith "/" action_lower
    then print_error ("Unknown command: " ++ action) ;; ret Continue
    else
      handled <- _handle_chat_intent client action ;;
      if handled then ret Continue
      else _do_action client action ;; ret Continue.

Fixpoint game_rounds (script : list (prompt_result * Client.gateway)) : io unit :=
  match script with
  | [] => print Blank
  | (Interrupt, _) :: _ => print Blank
  | (Line action, client) :: script' =>
      c <- loop_body client action ;;
      match c with
      | Break => ret tt
      | Continue => game_rounds script'
      end
  end.

Definition _game_loop (client : Client.gateway)
           (script : list (prompt_result * Client.gateway)) : io unit :=
  print (Plain "Type your actions naturally. /help for commands.") ;;
  try_except
    (unread <- call RGetUnreadCount (Client.get_unread_count client) ;;
     if (0 <? unread)%Z then print (UnreadNotice unread) else ret tt)
    (fun _ => ret tt) ;;
  game_rounds script.

End Rendered.

(** ** Words for what a run on that console does *)

Module Shown.
Import PyStr IO Game Observe Shape Markup.

(** The words of a line that are a server's or a player's hold no
    opening bracket. *)
Definition plain_line (l : line) : bool :=
  match l with
  | Error message | Success message => plain message
  | Narrative text _ | Numbered _ text | Plain text => plain text
  | MessageLine sender content | ChatLine sender content =>
      plain sender && plain content
  | _ => true
  end.

(** [m] makes no call and leaves store and clock alone: it prints
    some lines, and returns or raises. *)
Definition quiet {A : Type} (m : io A) : Prop :=
  forall w, exists ls res, m w = (prints ls, w, res).

(** The run [res], started in [w], made the one call [r], first, and
    nothing but prints after it; if it returned, it returned [a]; if
    the call raised an exception whose text holds no opening bracket,
    it printed one error line, [prefix] and that text, and returned. *)
Definition reported {A : Type} (res : list event * world * py A) (w : world)
           (r : request) (prefix : string) (a : A) : Prop :=
  exists raised ls out,
    res = (Call r raised :: prints ls, w, out) /\
    (forall x, out = Ret x -> x = a) /\
    (forall e, raised = Some e -> plain (str_exn e) = true ->
               ls = [Error (prefix ++ str_exn e)] /\ out = Ret a).

Definition reports {A : Type} (h : io A) (r : request) (prefix : string) (a : A)
  : Prop :=
  forall w, reported (h w) w r prefix a.

(** What the loop does for a slash line, by the command it names. *)
Definition dispatch (client : Client.gateway) (action : string)
           (c : option command) : io control :=
  match c with
  | Some Quit =>
      iobind (Rendered.print_success "Farewell, adventurer!") (fun _ => ret Break)
  | Some Look => iobind (Rendered._do_look client) (fun _ => ret Continue)
  | Some Inventory => iobind (Rendered._do_inventory client) (fun _ => ret Continue)
  | Some Rest => iobind (Rendered._do_rest client) (fun _ => ret Continue)
  | Some Messages => iobind (Rendered._show_messages client) (fun _ => ret Continue)
  | Some Chat => iobind (Rendered._show_chat client) (fun _ => ret Continue)
  | Some HelpCommand => iobind Rendered._show_help (fun _ => ret Continue)
  | None => iobind (Rendered.print_error ("Unknown command: " ++ action))
                   (fun _ => ret Continue)
  end.

(** The run [r] on the console is the run [g] in which every line
    handed over is printed, as long as no line [g] prints holds an
    opening bracket in its words. *)
Definition as_printed {A : Type} (r g : io A) : Prop :=
  forall w,
    forallb plain_line (outputs (trace_of g w)) = true -> r w = g w.

(** The words the loop puts in front of the text of a failure. *)
Definition failure_prefixes : list string :=
  [ "Action failed: "; "Failed: "; "Failed to load messages: ";
    "Failed to load chat: "; "Failed to send: " ].

End Shown.

(** ** Servers whose words hold a closing tag *)

Module Tagged.
Import IO.

(** The text of a status error quotes the reason phrase the server
    sent with the status. *)
Definition stray : exn :=
  HttpError "Server error '500 [/x]' for url 'https://api.textlands.com/actions/look'".

(** A server that answers every call with that status. *)
Definition garbled : Client.gateway :=
  Client.Gateway (Raise stray) (Raise stray) (Raise stray)
                 (fun _ => Raise stray) (fun _ _ => Raise stray)
                 (Raise stray) (Raise stray) (fun _ => Raise stray)
                 (fun _ => Raise stray).

(** Eleven messages, the first of which is a closing tag. *)
Definition eleven : list Client.dm :=
  map Fixtures.note ["[/x]"; "2"; "3"; "4"; "5"; "6"; "7"; "8"; "9"; "10"; "11"].

End Tagged.

(** * Properties *)

Unset Implicit Arguments.

(** ** The parsers on sample lines *)

Section Checks.
Import PyStr Re Router Observe.

Example spans_of_message :
  option_map spans (re_match (nth 0 dm_patterns Bol) "message kira i found the treasure")
  = Some [(2, (13, 33)); (1, (8, 12))].
Proof. vm_compute. reflexivity. Qed.

Example spans_of_shout :
  option_map spans (re_match (nth 1 global_patterns Bol) "shout to the world - hi there")
  = Some [(1, (21, 29))].
Proof. vm_compute. reflexivity. Qed.

Example dm_send_saying :
  _parse_dm_intent "send a dm to Zed saying Hi There" = Ret (Some (Some "zed", "Hi There")).
Proof. vm_compute. reflexivity. Qed.

Example dm_let_know :
  _parse_dm_intent "let Zed know that Hi There" = Ret (Some (Some "zed", "Hi There")).
Proof. vm_compute. reflexivity. Qed.

Example dm_that_twice :
  _parse_dm_intent "tell bob that that is it" = Ret (Some (Some "bob", "that is it")).
Proof. vm_compute. reflexivity. Qed.

(** The first pattern matches whatever the fourth does. *)
Example dm_and_tell_them :
  _parse_dm_intent "pm zed and tell them Hi There"
  = Ret (Some (Some "zed", "and tell them Hi There")).
Proof. vm_compute. reflexivity. Qed.

(** The body found at offset 0 is given lowered. *)
Example dm_offset_zero : _parse_dm_intent "DM DM DM" = Ret (Some (Some "dm", "dm")).
Proof. vm_compute. reflexivity. Qed.

Example tell_everyone_colon :
  _parse_dm_intent "tell everyone: Hello" = Ret None /\
  _parse_global_chat_intent "tell everyone: Hello" = Ret (Some "Hello").
Proof. split; vm_compute; reflexivity. Qed.

Example global_everyone_colon :
  _parse_global_chat_intent "everyone: Hi There" = Ret (Some "Hi There").
Proof. vm_compute. reflexivity. Qed.

Example global_shout :
  _parse_global_chat_intent "shout to the world - Hi There" = Ret (Some "Hi There").
Proof. vm_compute. reflexivity. Qed.

Example inbox_on_flavor_text :
  _parse_inbox_intent "read the ancient messages on the wall" = true.
Proof. vm_compute. reflexivity. Qed.

Example inbox_before_global :
  spec_classify "global check my messages" = Some InboxCheck.
Proof. vm_compute. reflexivity. Qed.

End Checks.

(** ** Facts about the [str] methods *)

Section StrFacts.
Import PyStr.

Lemma length_append (u v : string) :
  String.length (u ++ v) = String.length u + String.length v.
Proof. induction u as [|a u IH]; simpl; [reflexivity | now rewrite IH]. Qed.

Lemma append_assoc (u v w : string) : (u ++ v) ++ w = u ++ (v ++ w).
Proof. induction u as [|a u IH]; simpl; [reflexivity | now rewrite IH]. Qed.

Lemma append_nil_r (u : string) : u ++ EmptyString = u.
Proof. induction u as [|a u IH]; simpl; [reflexivity | now rewrite IH]. Qed.

Lemma length_lower (s : string) : String.length (lower s) = String.length s.
Proof. induction s as [|a s IH]; simpl; [reflexivity | now rewrite IH]. Qed.

Lemma length_lstrip (s : string) : String.length (lstrip s) <= String.length s.
Proof.
  induction s as [|a s IH]; simpl; [lia|].
  destruct (isspace a); simpl; lia.
Qed.

Lemma length_rstrip (s : string) : String.length (rstrip s) <= String.length s.
Proof.
  induction s as [|a s IH]; simpl; [lia|].
  destruct (rstrip s) as [|b r]; [destruct (isspace a)|]; simpl in *; lia.
Qed.

Lemma length_strip (s : string) : String.length (strip s) <= String.length s.
Proof.
  unfold strip. pose proof (length_rstrip (lstrip s)). pose proof (length_lstrip s). lia.
Qed.

Lemma drop_append (u v : string) : drop (String.length u) (u ++ v) = v.
Proof. induction u as [|a u IH]; simpl; [now destruct v | exact IH]. Qed.

Lemma take_append (u v : string) : take (String.length u) (u ++ v) = u.
Proof. induction u as [|a u IH]; simpl; [now destruct v | now rewrite IH]. Qed.

Lemma length_drop (n : nat) (s : string) :
  String.length (drop n s) = String.length s - n.
Proof.
  revert s; induction n as [|n IH]; intros s; simpl; [lia|].
  destruct s as [|a s]; simpl; [reflexivity | apply IH].
Qed.

Lemma slice_append (u w v : string) :
  slice (u ++ w ++ v) (String.length u) (String.length u + String.length w) = w.
Proof.
  unfold slice. rewrite drop_append.
  replace (String.length u + String.length w - String.length u)
    with (String.length w) by lia.
  apply take_append.
Qed.

Lemma startswith_append (p v : string) : startswith p (p ++ v) = true.
Proof.
  induction p as [|a p IH]; simpl; [reflexivity|].
  now rewrite Ascii.eqb_refl, IH.
Qed.

Lemma startswith_length (p s : string) :
  startswith p s = true -> String.length p <= String.length s.
Proof.
  revert s; induction p as [|a p IH]; intros s H; simpl in *; [lia|].
  destruct s as [|b s]; [discriminate|].
  apply andb_prop in H as [_ H]. apply IH in H. simpl; lia.
Qed.

(** An occurrence is found, at or before the one known. *)
Lemma find_from_occurs (sub u v : string) (k : nat) :
  exists i, find_from sub (u ++ sub ++ v) k = Some (k + i) /\ i <= String.length u.
Proof.
  revert k; induction u as [|a u IH]; intros k.
  - exists 0. simpl (EmptyString ++ _).
    destruct (sub ++ v) eqn:E.
    + simpl. destruct sub; simpl in *; [|discriminate].
      split; [f_equal; lia | lia].
    + unfold find_from; fold find_from. rewrite <- E, startswith_append.
      split; [f_equal; lia | simpl; lia].
  - simpl ((String a u) ++ _). unfold find_from; fold find_from.
    destruct (startswith sub (String a (u ++ sub ++ v))).
    + exists 0. split; [f_equal; lia | simpl; lia].
    + destruct (IH (S k)) as [i [Hi Hle]]. exists (S i).
      split; [rewrite Hi; f_equal; lia | simpl; lia].
Qed.

(** What is found lies within the string. *)
Lemma find_from_bound (sub s : string) (k j : nat) :
  find_from sub s k = Some j ->
  k <= j /\ (j - k) + String.length sub <= String.length s.
Proof.
  revert k; induction s as [|a s IH]; intros k H.
  - simpl in H. destruct (startswith sub EmptyString) eqn:E; [|discriminate].
    injection H as <-. apply startswith_length in E. simpl in *; lia.
  - unfold find_from in H; fold find_from in H.
    destruct (startswith sub (String a s)) eqn:E.
    + injection H as <-. apply startswith_length in E. lia.
    + apply IH in H. simpl; lia.
Qed.

Lemma lower_char_slash (c : ascii) :
  Ascii.eqb "/"%char (lower_char c) = Ascii.eqb "/"%char c.
Proof.
  destruct c as [[] [] [] [] [] [] [] []]; reflexivity.
Qed.

Lemma isspace_slash (c : ascii) :
  Ascii.eqb "/"%char c = true -> isspace c = false.
Proof.
  intros H. apply Ascii.eqb_eq in H. now subst c.
Qed.

Lemma startswith_rstrip (c : ascii) (s : string) :
  isspace c = false -> exists r, rstrip (String c s) = String c r.
Proof.
  intros H. simpl. destruct (rstrip s) as [|b r]; [rewrite H|]; eauto.
Qed.

Lemma all_chars_drop (p : ascii -> bool) (n : nat) :
  forall s, all_chars p s = true -> all_chars p (drop n s) = true.
Proof.
  induction n as [|n IH]; intros s H; [exact H|].
  destruct s as [|a s]; [reflexivity|]. cbn [drop]. apply IH.
  cbn [all_chars] in H. now apply andb_prop in H as [_ H].
Qed.

Lemma all_chars_take (p : ascii -> bool) (n : nat) :
  forall s, all_chars p s = true -> all_chars p (take n s) = true.
Proof.
  induction n as [|n IH]; intros s H; [reflexivity|].
  destruct s as [|a s]; [reflexivity|]. cbn [take all_chars] in *.
  apply andb_prop in H as [Ha H]. now rewrite Ha, IH.
Qed.

Lemma all_chars_slice (p : ascii -> bool) (s : string) (a b : nat) :
  all_chars p s = true -> all_chars p (slice s a b) = true.
Proof. intros H. unfold slice. now apply all_chars_take, all_chars_drop. Qed.

Lemma all_chars_lstrip (p : ascii -> bool) (s : string) :
  all_chars p s = true -> all_chars p (lstrip s) = true.
Proof.
  induction s as [|a s IH]; intros H; [reflexivity|]. cbn [lstrip].
  destruct (isspace a); [|exact H].
  cbn [all_chars] in H. apply andb_prop in H as [_ H]. auto.
Qed.

Lemma all_chars_rstrip (p : ascii -> bool) (s : string) :
  all_chars p s = true -> all_chars p (rstrip s) = true.
Proof.
  induction s as [|a s IH]; intros H; [reflexivity|].
  cbn [all_chars] in H. apply andb_prop in H as [Ha H]. specialize (IH H).
  cbn [rstrip]. destruct (rstrip s) as [|b r].
  - destruct (isspace a); [reflexivity|]. cbn [all_chars]. now rewrite Ha.
  - cbn [all_chars] in *. now rewrite Ha, IH.
Qed.

Lemma lower_char_not_upper (c : ascii) : not_upper (lower_char c) = true.
Proof. destruct c as [[] [] [] [] [] [] [] []]; reflexivity. Qed.

Lemma lower_not_upper (s : string) : all_chars not_upper (lower s) = true.
Proof.
  induction s as [|a s IH]; [reflexivity|].
  cbn [lower all_chars]. now rewrite lower_char_not_upper, IH.
Qed.

Lemma text_lower_not_upper (text : string) :
  all_chars not_upper (strip (lower text)) = true.
Proof. apply all_chars_rstrip, all_chars_lstrip, lower_not_upper. Qed.

Lemma isspace_lower_char (c : ascii) : isspace (lower_char c) = isspace c.
Proof. destruct c as [[] [] [] [] [] [] [] []]; reflexivity. Qed.

(** On a line with no blank in front, as the prompt hands it over, the
    slash test of the loop is the test of the first character typed. *)
Lemma slash_test_on_prompt_lines (action : string) :
  lstrip action = action ->
  startswith "/" (strip (lower action)) = startswith "/" action.
Proof.
  destruct action as [|c s]; [reflexivity|]. intros H.
  assert (Hc : isspace c = false).
  { cbn [lstrip] in H. destruct (isspace c); [|reflexivity].
    pose proof (length_lstrip s) as Hl. rewrite H in Hl. cbn in Hl. lia. }
  unfold strip. cbn [lower lstrip]. rewrite isspace_lower_char, Hc.
  destruct (startswith_rstrip (lower_char c) (lower s)) as [r ->];
    [now rewrite isspace_lower_char|].
  cbn [startswith]. now rewrite lower_char_slash.
Qed.

(** A line that starts with a slash still does so once lowered and
    stripped. *)
Lemma slash_survives (action : string) :
  startswith "/" action = true -> startswith "/" (strip (lower action)) = true.
Proof.
  destruct action as [|c s]; [discriminate|].
  intros H. cbn [startswith] in H. apply andb_prop in H as [H _].
  unfold strip. cbn [lower lstrip].
  assert (Hc : Ascii.eqb "/"%char (lower_char c) = true)
    by now rewrite lower_char_slash.
  rewrite (isspace_slash _ Hc).
  destruct (startswith_rstrip _ (lower s) (isspace_slash _ Hc)) as [r ->].
  cbn [startswith]. now rewrite Hc.
Qed.

End StrFacts.

(** ** The matcher answers only with readings of the subject *)

Section MatcherSound.
Import PyStr Re ReSpec.
Variable R : Type.

Lemma star_k_sound (k : cclass) (s : string) (i : nat)
      (cont : string -> nat -> option R) (res : R) :
  star_k k s i cont = Some res ->
  exists w s', s = w ++ s' /\ all_chars (in_class k) w = true
               /\ cont s' (i + String.length w) = Some res.
Proof.
  revert i; induction s as [|a s IH]; intros i H; simpl in H.
  - exists EmptyString, EmptyString. rewrite Nat.add_0_r. auto.
  - destruct (in_class k a) eqn:Ha.
    + destruct (star_k k s (S i) cont) eqn:E.
      * injection H as ->. apply IH in E as (w & s' & -> & Hw & Hc).
        exists (String a w), s'. simpl. rewrite Ha, Hw.
        rewrite Nat.add_succ_r. auto.
      * exists EmptyString, (String a s). rewrite Nat.add_0_r. auto.
    + exists EmptyString, (String a s). rewrite Nat.add_0_r. auto.
Qed.

Lemma plus_k_sound (k : cclass) (s : string) (i : nat)
      (cont : string -> nat -> option R) (res : R) :
  plus_k k s i cont = Some res ->
  exists w s', s = w ++ s' /\ w <> EmptyString /\ all_chars (in_class k) w = true
               /\ cont s' (i + String.length w) = Some res.
Proof.
  unfold plus_k. destruct s as [|a s]; [discriminate|].
  destruct (in_class k a) eqn:Ha; [|discriminate].
  intros H. apply star_k_sound in H as (w & s' & -> & Hw & Hc).
  exists (String a w), s'. simpl. rewrite Ha, Hw, Nat.add_succ_r.
  repeat split; auto. discriminate.
Qed.

Lemma lit_k_sound (w s : string) (i : nat)
      (cont : string -> nat -> option R) (res : R) :
  lit_k w s i cont = Some res ->
  exists s', s = w ++ s' /\ cont s' (i + String.length w) = Some res.
Proof.
  revert s i; induction w as [|a w IH]; intros s i H; simpl in H.
  - exists s. rewrite Nat.add_0_r. auto.
  - destruct s as [|b s]; [discriminate|].
    destruct (Ascii.eqb a b) eqn:E; [|discriminate].
    apply Ascii.eqb_eq in E as <-.
    apply IH in H as (s' & -> & Hc). exists s'. simpl.
    rewrite Nat.add_succ_r. auto.
Qed.

Theorem rmatch_sound (r : regex) :
  forall (st : mstate) (cont : mstate -> option R) (res : R),
    rmatch r st cont = Some res ->
    exists st', Matches r st st' /\ cont st' = Some res.
Proof.
  induction r as [| |w|k|k|k|r IH|r1 IH1 r2 IH2|r1 IH1 r2 IH2|n r IH];
    intros [s i c] cont res H; simpl in H.
  - destruct (Nat.eqb i 0) eqn:E; [|discriminate].
    apply Nat.eqb_eq in E. eexists; split; [constructor; exact E | exact H].
  - destruct s as [|a [|b s]]; try discriminate.
    + eexists; split; [constructor; simpl; auto | exact H].
    + destruct (Ascii.eqb a newline) eqn:E; [|discriminate].
      apply Ascii.eqb_eq in E as ->.
      eexists; split; [constructor; simpl; auto | exact H].
  - apply lit_k_sound in H as (s' & -> & Hc).
    eexists; split; [constructor | exact Hc].
  - destruct s as [|a s]; [discriminate|].
    destruct (in_class k a) eqn:E; [|discriminate].
    eexists; split; [constructor; exact E | exact H].
  - apply plus_k_sound in H as (w & s' & -> & Hne & Hw & Hc).
    eexists; split; [constructor; assumption | exact Hc].
  - apply star_k_sound in H as (w & s' & -> & Hw & Hc).
    eexists; split; [constructor; assumption | exact Hc].
  - destruct (rmatch r (MState s i c) cont) eqn:E.
    + injection H as ->. apply IH in E as (st' & HM & Hc).
      exists st'; split; [now apply MOptYes | exact Hc].
    + eexists; split; [apply MOptNo | exact H].
  - destruct (rmatch r1 (MState s i c) cont) eqn:E.
    + injection H as ->. apply IH1 in E as (st' & HM & Hc).
      exists st'; split; [now apply MAltL | exact Hc].
    + apply IH2 in H as (st' & HM & Hc).
      exists st'; split; [now apply MAltR | exact Hc].
  - apply IH1 in H as (st1 & HM1 & H). apply IH2 in H as (st2 & HM2 & Hc).
    exists st2; split; [now apply MSeq with st1 | exact Hc].
  - apply IH in H as (st' & HM & Hc).
    eexists; split; [apply MGrp; exact HM | exact Hc].
Qed.

End MatcherSound.

(** ** What the groups of a matched pattern hold *)

Section Shapes.
Import PyStr Re ReSpec.

Lemma Matches_spine (r : regex) :
  forall st st', Matches r st st' -> Chain (spine r) st st'.
Proof.
  induction r; intros st st' H;
    try (simpl; eapply ChainCons; [exact H | constructor]).
  inversion H; subst. simpl. eapply ChainCons; eauto.
Qed.

Lemma Chain_app (l1 l2 : list regex) :
  forall st st', Chain (l1 ++ l2) st st' ->
                 exists stm, Chain l1 st stm /\ Chain l2 stm st'.
Proof.
  induction l1 as [|r l1 IH]; intros st st' H; simpl in H.
  - exists st. split; [constructor | exact H].
  - inversion H as [|r' rs st0 st1 st2 HM HC]; subst.
    apply IH in HC as (stm & HC1 & HC2).
    exists stm. split; [econstructor; eauto | exact HC2].
Qed.

Lemma Chain_cons_inv (r : regex) (rs : list regex) (st st2 : mstate) :
  Chain (r :: rs) st st2 -> exists st1, Matches r st st1 /\ Chain rs st1 st2.
Proof. intros H; inversion H; subst; eauto. Qed.

Lemma Chain_end (st st' : mstate) :
  Chain [Eol] st st' ->
  st' = st /\ (rest st = EmptyString \/ rest st = String newline EmptyString).
Proof.
  intros H. apply Chain_cons_inv in H as (st1 & HM & HN).
  inversion HN; subst. inversion HM; subst. auto.
Qed.

Lemma Matches_at_pos (s : string) (r : regex) (st st' : mstate) :
  Matches r st st' -> at_pos s st -> at_pos s st'.
Proof.
  unfold at_pos.
  induction 1; intros (u & Hs & Hp); simpl in *; eauto;
    try (exists (u ++ w); rewrite append_assoc, length_append; split; congruence).
  exists (u ++ String a EmptyString).
  rewrite append_assoc, length_append. simpl. split; [congruence | lia].
Qed.

Lemma Matches_group_free (r : regex) (st st' : mstate) :
  Matches r st st' -> groups r = [] -> caps st' = caps st.
Proof.
  induction 1 as [| | | | | |r st st' HM IH| |r1 r2 st st' HM IH|r1 r2 st st' HM IH
                  |r1 r2 st st1 st2 HM1 IH1 HM2 IH2|];
    intros Hg; simpl in *; auto; try discriminate;
    try (apply app_eq_nil in Hg as [Hg1 Hg2]; auto).
  rewrite IH2, IH1; auto.
Qed.

Lemma Chain_group_free (s : string) (l : list regex) (st st' : mstate) :
  Chain l st st' -> forallb group_free l = true ->
  caps st' = caps st /\ (at_pos s st -> at_pos s st').
Proof.
  induction 1 as [|r rs st st1 st2 HM HC IH]; intros Hg; simpl in *; [auto|].
  apply andb_prop in Hg as [Hr Hrs]. destruct (IH Hrs) as [Hc Hp].
  unfold group_free in Hr. destruct (groups r) eqn:E; [|discriminate].
  split.
  - rewrite Hc. now apply Matches_group_free with r.
  - intros Hst. apply Hp. now apply Matches_at_pos with r st.
Qed.

(** A group around [k+] holds a non-empty run of the class, read from
    the subject where the group starts. *)
Lemma group_plus_reads (s : string) (n : nat) (k : cclass) (st st' : mstate) :
  Matches (Grp n (Plus k)) st st' -> at_pos s st ->
  exists w,
    w <> EmptyString /\ all_chars (in_class k) w = true /\
    caps st' = (n, (pos st, pos st + String.length w)) :: caps st /\
    slice s (pos st) (pos st + String.length w) = w /\
    rest st = w ++ rest st' /\ at_pos s st'.
Proof.
  intros H (u & Hs & Hp). inversion H as [| | | | | | | | | | |n' r' st0 st1 HM]; subst.
  inversion HM; subst. simpl in *. exists w. repeat split; auto.
  - rewrite Hp. apply slice_append.
  - exists (u ++ w). simpl. rewrite append_assoc, length_append. split; congruence.
Qed.

Lemma re_match_reads (p : regex) (s : string) (m : mobj) :
  re_match p s = Some m ->
  exists st', Chain (spine p) (MState s 0 []) st' /\ m = MObj s (caps st').
Proof.
  unfold re_match. intros H. apply rmatch_sound in H as (st' & HM & Hc).
  exists st'. split; [now apply Matches_spine | congruence].
Qed.

Lemma at_pos_start (s : string) : at_pos s (MState s 0 []).
Proof. exists EmptyString. auto. Qed.

(** The word and the body captured by a direct-message pattern. *)
Theorem dm_shaped_groups (p : regex) (s : string) (m : mobj) :
  dm_shaped p -> re_match p s = Some m ->
  exists w g u v,
    group m 1 = Some w /\ w <> EmptyString /\ all_chars is_word w = true /\
    (exists a b, w = slice s a b) /\
    group m 2 = Some g /\ g <> EmptyString /\ s = u ++ g ++ v.
Proof.
  intros (pre & mid & Hpre & Hmid & Hsp) H.
  apply re_match_reads in H as (stf & HC & Hm). rewrite Hsp in HC.
  apply Chain_app in HC as (st1 & H1 & HC).
  apply Chain_cons_inv in HC as (st2 & Hg1 & HC).
  apply Chain_app in HC as (st3 & H3 & HC).
  apply Chain_cons_inv in HC as (st4 & Hg2 & HC).
  apply Chain_end in HC as [-> _].
  destruct (Chain_group_free s _ _ _ H1 Hpre) as [Hc1 Hp1].
  specialize (Hp1 (at_pos_start s)).
  destruct (group_plus_reads _ _ _ _ _ Hg1 Hp1) as (w & Hw & Hcw & Hcap1 & Hsl1 & _ & Hp2).
  destruct (Chain_group_free s _ _ _ H3 Hmid) as [Hc3 Hp3]. specialize (Hp3 Hp2).
  destruct (group_plus_reads _ _ _ _ _ Hg2 Hp3) as (g & Hgne & _ & Hcap2 & Hsl2 & Hrest & _).
  destruct Hp3 as (u & Hs & _).
  subst m. exists w, g, u, (rest st4). unfold group. simpl.
  rewrite Hcap2, Hc3, Hcap1. simpl. rewrite Hsl1, Hsl2.
  repeat split; auto; [eauto | now rewrite Hs, Hrest].
Qed.

(** The body captured by a global-chat pattern. *)
Theorem global_shaped_groups (p : regex) (s : string) (m : mobj) :
  global_shaped p -> re_match p s = Some m ->
  exists g u v, group m 1 = Some g /\ g <> EmptyString /\ s = u ++ g ++ v.
Proof.
  intros (pre & Hpre & Hsp) H.
  apply re_match_reads in H as (stf & HC & Hm). rewrite Hsp in HC.
  apply Chain_app in HC as (st1 & H1 & HC).
  apply Chain_cons_inv in HC as (st2 & Hg1 & HC).
  apply Chain_end in HC as [-> _].
  destruct (Chain_group_free s _ _ _ H1 Hpre) as [Hc1 Hp1].
  specialize (Hp1 (at_pos_start s)).
  destruct (group_plus_reads _ _ _ _ _ Hg1 Hp1) as (g & Hgne & _ & Hcap & Hsl & Hrest & _).
  destruct Hp1 as (u & Hs & _).
  subst m. exists g, u, (rest st2). unfold group. simpl.
  rewrite Hcap. simpl. rewrite Hsl.
  repeat split; auto. now rewrite Hs, Hrest.
Qed.

End Shapes.

(** ** The parsers never raise *)

Section Parsers.
Import PyStr Re ReSpec Router.

Lemma dm_patterns_shaped : Forall dm_shaped dm_patterns.
Proof.
  unfold dm_patterns, dm_shaped.
  repeat constructor.
  - exists [Bol; words "dm" ["message"; "msg"; "whisper"; "pm"]; ws1], [ws1].
    repeat split.
  - exists [Bol; Lit "tell"; ws1], [ws1; Opt (Seq (Lit "that") ws1)].
    repeat split.
  - exists [Bol; Lit "send"; ws1; Opt (Seq (Lit "a") ws1);
            words "message" ["dm"; "pm"]; ws1; Lit "to"; ws1],
           [ws1; Opt (Seq (Lit "saying") ws1)].
    repeat split.
  - exists [Bol; words "message" ["dm"; "pm"]; ws1],
           [ws1; Opt (Seq (Lit "and") ws1);
            Alt (Lit "say") (Seq (Lit "tell") (Seq ws1 (Lit "them"))); ws1].
    repeat split.
  - exists [Bol; Lit "let"; ws1], [ws1; Lit "know"; ws1; Opt (Seq (Lit "that") ws1)].
    repeat split.
Qed.

Lemma global_patterns_shaped : Forall global_shaped global_patterns.
Proof.
  unfold global_patterns, global_shaped.
  repeat constructor.
  - exists [Bol; Lit "global"; ws1]. repeat split.
  - exists [Bol; words "say" ["tell"; "broadcast"; "shout"]; ws1;
            Opt (Seq (Lit "to") ws1);
            words "everyone" ["all"; "everybody"; "the world"];
            Star CSpace; Opt (One colon_dash); Star CSpace].
    repeat split.
  - exists [Bol; Opt (Seq (Lit "to") ws1); words "everyone" ["all"; "everybody"];
            Opt (One colon_dash); ws1].
    repeat split.
Qed.

(** The scan of direct-message patterns returns; when a pattern
    matches, the recipient is a non-empty run of word characters of
    the lowered line, and the message is not empty. *)
Lemma dm_scan_returns (text text_lower : string) (patterns : list regex) :
  Forall dm_shaped patterns ->
  dm_scan text text_lower patterns = Ret None \/
  exists w message,
    dm_scan text text_lower patterns = Ret (Some (Some w, message)) /\
    w <> EmptyString /\ all_chars is_word w = true /\
    (forall p, all_chars p text_lower = true -> all_chars p w = true).
Proof.
  induction 1 as [|p ps Hp Hps IH]; simpl; [auto|].
  destruct (re_match p text_lower) as [m|] eqn:E; [|exact IH].
  destruct (dm_shaped_groups _ _ _ Hp E)
    as (w & g & u & v & -> & Hw & Hcw & (a & b & Hsl) & -> & _).
  right. exists w. eexists. repeat split; auto.
  intros q Hq. rewrite Hsl. now apply all_chars_slice.
Qed.

Lemma find_occurs (text_lower g u v : string) :
  text_lower = u ++ g ++ v ->
  (0 <= find text_lower g)%Z /\
  Z.to_nat (find text_lower g) + String.length g <= String.length text_lower.
Proof.
  intros ->. unfold find.
  destruct (find_from_occurs g u v 0) as (i & Hi & _). rewrite Hi.
  apply find_from_bound in Hi. rewrite Nat2Z.id. lia.
Qed.

(** The scan of global-chat patterns returns; when a pattern matches,
    the message is not empty. *)
Lemma global_scan_returns (text text_lower : string) (patterns : list regex) :
  Forall global_shaped patterns ->
  String.length text_lower <= String.length text ->
  global_scan text text_lower patterns = Ret None \/
  exists message,
    global_scan text text_lower patterns = Ret (Some message) /\
    truthy message = true.
Proof.
  intros HF Hlen. induction HF as [|p ps Hp Hps IH]; simpl; [auto|].
  destruct (re_match p text_lower) as [m|] eqn:E; [|exact IH].
  destruct (global_shaped_groups _ _ _ Hp E) as (g & u & v & -> & Hg & Hs).
  right. eexists; split; [reflexivity|].
  destruct (find_occurs _ _ _ _ Hs) as [H0 Hb].
  destruct (0 <? find text_lower g)%Z eqn:Hpos.
  - unfold slice_from. destruct (find text_lower g <? 0)%Z eqn:Hneg; [lia|].
    assert (Hl : 0 < String.length (drop (Z.to_nat (find text_lower g)) text)).
    { rewrite length_drop.
      assert (0 < String.length g) by (destruct g; simpl; [congruence | lia]).
      lia. }
    destruct (drop (Z.to_nat (find text_lower g)) text); simpl in *; [lia | auto].
  - destruct g; [congruence | reflexivity].
Qed.

Lemma length_text_lower (text : string) :
  String.length (strip (lower text)) <= String.length text.
Proof. rewrite <- (length_lower text). apply length_strip. Qed.

End Parsers.

(** ** One line, one call: the handlers of the loop *)

Section Handlers.
Import PyStr Config IO Router Game Observe Shape.

Lemma calls_prints (ls : list line) : calls (prints ls) = [].
Proof. induction ls; simpl; auto. Qed.

Lemma outputs_prints (ls : list line) : outputs (prints ls) = ls.
Proof. induction ls; simpl; [|f_equal]; auto. Qed.

Lemma outputs_app (t1 t2 : list event) :
  outputs (t1 ++ t2)%list = (outputs t1 ++ outputs t2)%list.
Proof.
  induction t1 as [|[r x|l|d] t1 IH]; simpl; [reflexivity|exact IH| |exact IH].
  now rewrite IH.
Qed.

Lemma prints_app (l1 l2 : list line) : (prints l1 ++ prints l2)%list = prints (l1 ++ l2)%list.
Proof. unfold prints. now rewrite map_app. Qed.

Lemma says_ret {A : Type} (a : A) : says (ret a) [] a.
Proof. intros w; reflexivity. Qed.

Lemma says_print (l : line) : says (print l) [l] tt.
Proof. intros w; reflexivity. Qed.

Lemma says_bind {A B : Type} (m : io A) (f : A -> io B) ls1 ls2 a b :
  says m ls1 a -> says (f a) ls2 b -> says (iobind m f) (ls1 ++ ls2)%list b.
Proof.
  intros H1 H2 w. unfold iobind. rewrite H1, H2. now rewrite prints_app.
Qed.
Arguments says_bind {A B m f ls1 ls2 a b} _ _.

Lemma says_print_numbered (actions : list string) :
  forall i, says (print_numbered i actions) (numbered i actions) tt.
Proof.
  induction actions as [|a l IH]; intros i; simpl; [apply says_ret|].
  apply (says_bind (says_print _) (IH (S i))).
Qed.

Lemma says_print_suggestions (actions : list string) :
  says (print_suggestions actions) (suggestion_lines actions) tt.
Proof.
  destruct actions as [|a l]; [apply says_ret|].
  unfold print_suggestions, suggestion_lines.
  apply (says_bind (says_print _) (says_print_numbered (a :: l) 1)).
Qed.

Lemma says_print_each {A : Type} (render : A -> line) (xs : list A) :
  says (print_each render xs) (map render xs) tt.
Proof.
  induction xs as [|x xs IH]; simpl; [apply says_ret|].
  apply (says_bind (says_print _) IH).
Qed.

Ltac says_auto :=
  first [ apply says_ret | apply says_print | apply says_print_suggestions
        | apply says_print_each | apply says_print_numbered
        | (eapply says_bind; [says_auto | says_auto]) ].

Lemma handles_call_then {A : Type} (r : request) (resp : py A)
      (k : A -> io unit) (prefix : string) :
  (forall a, exists ls, says (k a) ls tt) ->
  handles (iobind (attempt (call r resp))
                  (fun x => match x with
                            | Raise e => print_error (prefix ++ str_exn e)
                            | Ret a => k a
                            end)) r.
Proof.
  intros Hk w. unfold one_call, iobind, attempt, call.
  destruct resp as [a|e]; simpl.
  - destruct (Hk a) as [ls Hls]. rewrite Hls. eauto.
  - eauto 8.
Qed.

Lemma handles_try {A : Type} (r : request) (resp : py A)
      (k : A -> io unit) (prefix : string) :
  (forall a, exists ls, says (k a) ls tt) ->
  handles (try_except (iobind (call r resp) k)
                      (fun e => print_error (prefix ++ str_exn e))) r.
Proof.
  intros Hk w. unfold one_call, try_except, iobind, attempt, call.
  destruct resp as [a|e]; simpl.
  - destruct (Hk a) as [ls Hls]. rewrite Hls. simpl. rewrite app_nil_r. eauto.
  - eauto 8.
Qed.

Lemma handles_do_action (client : Client.gateway) (action : string) :
  handles (_do_action client action) (RDoAction action).
Proof.
  apply handles_call_then. intros result.
  destruct (truthy_opt (Client.error result)); [eexists; apply says_print|].
  destruct (Client.requires_account result); eexists; says_auto.
Qed.

Lemma handles_do_look (client : Client.gateway) : handles (_do_look client) RLook.
Proof.
  apply handles_call_then. intros result. eexists. says_auto.
Qed.

Lemma handles_do_inventory (client : Client.gateway) :
  handles (_do_inventory client) RInventory.
Proof. apply handles_call_then. intros result. eexists. apply says_print. Qed.

Lemma handles_do_rest (client : Client.gateway) : handles (_do_rest client) RRest.
Proof. apply handles_call_then. intros result. eexists. apply says_print. Qed.

Lemma says_inbox (messages : list Client.dm) :
  says match messages with
       | [] => print (Plain "No unread messages. Your inbox is empty.")
       | _ =>
           iobind (print (MessagesHeader (List.length messages)))
             (fun _ => iobind (print_each render_dm (firstn 10 messages))
                (fun _ => iobind (if (10 <? List.length messages)%nat
                                  then print (AndMore (List.length messages - 10))
                                  else ret tt)
                   (fun _ => print ReplyHint)))
       end (inbox_lines messages) tt.
Proof.
  destruct messages as [|m ms]; [apply says_print|].
  unfold inbox_lines.
  apply (says_bind (says_print _)).
  apply (says_bind (says_print_each _ _)).
  destruct (10 <? List.length (m :: ms))%nat.
  - apply (says_bind (says_print _) (says_print _)).
  - apply (says_bind (says_ret tt) (says_print _)).
Qed.

Lemma handles_show_messages (client : Client.gateway) :
  handles (_show_messages client) RGetPendingMessages.
Proof.
  apply handles_try. intros messages. exists (inbox_lines messages).
  apply says_inbox.
Qed.

Lemma handles_show_chat (client : Client.gateway) :
  handles (_show_chat client) (RGetGlobalChat 10).
Proof.
  apply handles_try. intros messages. destruct messages as [|m ms].
  - eexists; apply says_print.
  - eexists. says_auto.
Qed.

Lemma handles_send_dm (client : Client.gateway) (recipient : option string)
      (message : string) :
  handles
    (try_except
       (iobind (call (RSendDm recipient message)
                     (Client.send_dm client recipient message))
               (fun result =>
                  if Client.success result
                  then print_success ("Message sent to " ++ str_opt recipient)
                  else print_error (or_default (Client.ack_error result)
                                               "Failed to send message")))
       (fun e => print_error ("Failed to send: " ++ str_exn e)))
    (RSendDm recipient message).
Proof.
  apply handles_try. intros result.
  destruct (Client.success result); eexists; apply says_print.
Qed.

Lemma handles_send_global (client : Client.gateway) (message : string) :
  handles
    (try_except
       (iobind (call (RSendGlobalChat message)
                     (Client.send_global_chat client message))
               (fun result =>
                  if Client.success result
                  then print_success "Sent to global chat"
                  else print_error (or_default (Client.ack_error result)
                                               "Failed to send")))
       (fun e => print_error ("Failed to send: " ++ str_exn e)))
    (RSendGlobalChat message).
Proof.
  apply handles_try. intros result.
  destruct (Client.success result); eexists; apply says_print.
Qed.

Lemma handles_then {A : Type} (h : io unit) (r : request) (a : A) (w : world) :
  handles h r ->
  exists trace,
    iobind h (fun _ => ret a) w = (trace, w, Ret a) /\
    h w = (trace, w, Ret tt) /\ one_call r trace.
Proof.
  intros H. destruct (H w) as (trace & E & Hs). exists trace.
  unfold iobind. rewrite E. simpl. rewrite app_nil_r. auto.
Qed.

End Handlers.

(** ** The chat router and the loop around it *)

Section Loop.
Import PyStr Config IO Router Game Observe Shape.

Lemma iobind_lift_ret {A B : Type} (a : A) (f : A -> io B) (w : world) :
  iobind (lift (Ret a)) f w = f a w.
Proof. unfold iobind, lift. now destruct (f a w) as [[t w2] r]. Qed.

Lemma one_call_calls (r : request) (trace : list event) :
  one_call r trace -> calls trace = [r].
Proof.
  intros [(e & msg & ->)|(ls & ->)]; simpl; [reflexivity|].
  now rewrite calls_prints.
Qed.

Lemma parse_dm_returns (text : string) :
  _parse_dm_intent text = Ret None \/
  exists w message,
    _parse_dm_intent text = Ret (Some (Some w, message)) /\
    w <> EmptyString /\ all_chars Re.is_word w = true /\
    all_chars not_upper w = true.
Proof.
  destruct (dm_scan_returns text (strip (lower text)) dm_patterns dm_patterns_shaped)
    as [H|(w & m & H & Hw & Hc & Hp)]; [auto|].
  right. exists w, m. repeat split; auto. apply Hp, text_lower_not_upper.
Qed.

Lemma parse_global_returns (text : string) :
  _parse_global_chat_intent text = Ret None \/
  exists message,
    _parse_global_chat_intent text = Ret (Some message) /\ truthy message = true.
Proof.
  apply global_scan_returns; [apply global_patterns_shaped | apply length_text_lower].
Qed.


(** [_handle_chat_intent] carries out the intent the routing order
    gives, and reports the line unhandled for a gameplay action. *)
Lemma handle_chat_intent_run (client : Client.gateway) (action : string) (w : world) :
  exists i, spec_classify action = Some i /\
    match i with
    | GameplayAction raw_text =>
        raw_text = action /\ _handle_chat_intent client action w = ([], w, Ret false)
    | _ =>
        exists trace,
          _handle_chat_intent client action w = (trace, w, Ret true) /\
          one_call (request_of i) trace
    end.
Proof.
  unfold spec_classify, _handle_chat_intent.
  destruct (parse_dm_returns action) as [->|(rcp & m & -> & _)];
    rewrite iobind_lift_ret.
  - destruct (_parse_inbox_intent action).
    + exists InboxCheck. split; [reflexivity|].
      destruct (handles_then _ _ true w (handles_show_messages client))
        as (trace & E & _ & Hs). eauto.
    + destruct (parse_global_returns action) as [->|(m & -> & Hm)];
        rewrite iobind_lift_ret.
      * exists (GameplayAction action). simpl. auto.
      * exists (GlobalBroadcast m). split; [reflexivity|].
        cbn [truthy_opt or_default]. rewrite Hm.
        destruct (handles_then _ _ true w (handles_send_global client m))
          as (trace & E & _ & Hs). eauto.
  - exists (DirectMessage (Some rcp) m). split; [reflexivity|].
    destruct (handles_then _ _ true w (handles_send_dm client (Some rcp) m))
      as (trace & E & _ & Hs). eauto.
Qed.

Lemma no_alias (x : string) (xs : list string) :
  startswith "/" x = false ->
  forallb (startswith "/") xs = true -> one_of x xs = false.
Proof.
  intros Hx. unfold one_of. induction xs as [|y ys IH]; intros H; [reflexivity|].
  cbn [forallb] in H. apply andb_prop in H as [Hy Hys].
  cbn [existsb]. rewrite (IH Hys), orb_false_r.
  destruct (String.eqb_spec x y) as [->|]; [congruence | reflexivity].
Qed.

(** A line that is not empty and, once lowered and stripped, does not
    start with a slash goes to the chat router and then to gameplay. *)
Lemma loop_body_routes (client : Client.gateway) (action : string) :
  truthy action = true ->
  startswith "/" (strip (lower action)) = false ->
  loop_body client action =
  iobind (_handle_chat_intent client action)
         (fun handled =>
            if handled then ret Continue
            else iobind (_do_action client action) (fun _ => ret Continue)).
Proof.
  intros Ht Hs. unfold loop_body. rewrite Ht. simpl negb. cbv iota.
  rewrite !(no_alias _ _ Hs) by reflexivity. now rewrite Hs.
Qed.

Lemma routed_round (client : Client.gateway) (action : string) (w : world) :
  truthy action = true ->
  startswith "/" (strip (lower action)) = false ->
  exists i trace,
    spec_classify action = Some i /\
    loop_body client action w = (trace, w, Ret Continue) /\
    one_call (request_of i) trace.
Proof.
  intros Ht Hs. rewrite (loop_body_routes client action Ht Hs).
  destruct (handle_chat_intent_run client action w) as (i & Hi & H).
  exists i. unfold iobind at 1.
  destruct i as [rcp b| |b|raw];
    try (destruct H as (trace & -> & Hone); exists trace; simpl;
         rewrite app_nil_r; auto).
  destruct H as [-> ->].
  destruct (handles_then _ _ Continue w (handles_do_action client action))
    as (trace & E & _ & Hone).
  exists trace. rewrite E. auto.
Qed.

End Loop.

(** ** The slash-command lexer *)

Section Lexer.
Import PyStr Config IO Router Game Observe Shape.

Lemma truthy_of_slash (action : string) :
  startswith "/" (strip (lower action)) = true -> truthy action = true.
Proof. destruct action; [discriminate | reflexivity]. Qed.

(** The chain of alias tests of the loop is a lookup in the table. *)
Lemma loop_body_slash (client : Client.gateway) (action : string) :
  startswith "/" (strip (lower action)) = true ->
  loop_body client action = spec_dispatch client action (spec_lex action).
Proof.
  intros Hs. unfold loop_body. rewrite (truthy_of_slash _ Hs).
  cbn [negb]. cbv iota. unfold spec_lex. rewrite Hs.
  generalize (strip (lower action)) as x. intros x.
  unfold one_of, aliases.
  cbn [existsb lookup_alias].
  repeat match goal with
         | |- context [String.eqb x ?a] =>
             destruct (String.eqb x a); cbn [orb spec_dispatch]; try reflexivity
         end.
Qed.

(** What the command a slash line names makes of the round. *)
Lemma spec_dispatch_run (client : Client.gateway) (action : string)
      (c : option command) (w : world) :
  exists trace,
    spec_dispatch client action c w
    = (trace, w, Ret (match c with Some Quit => Break | _ => Continue end)) /\
    match c with
    | Some Quit => trace = [Out (Success "Farewell, adventurer!")]
    | Some Look => one_call RLook trace
    | Some Inventory => one_call RInventory trace
    | Some Rest => one_call RRest trace
    | Some Messages => one_call RGetPendingMessages trace
    | Some Chat => one_call (RGetGlobalChat 10) trace
    | Some HelpCommand => trace = [Out Help]
    | None => trace = [Out (Error ("Unknown command: " ++ action))]
    end.
Proof.
  destruct c as [[]|]; cbn [spec_dispatch];
    try (eexists; split; reflexivity).
  - destruct (handles_then _ _ Continue w (handles_do_look client))
      as (t & E & _ & H); eauto.
  - destruct (handles_then _ _ Continue w (handles_do_inventory client))
      as (t & E & _ & H); eauto.
  - destruct (handles_then _ _ Continue w (handles_do_rest client))
      as (t & E & _ & H); eauto.
  - destruct (handles_then _ _ Continue w (handles_show_messages client))
      as (t & E & _ & H); eauto.
  - destruct (handles_then _ _ Continue w (handles_show_chat client))
      as (t & E & _ & H); eauto.
Qed.

End Lexer.

(** ** What the console makes of a text *)

Section MarkupFacts.
Import PyStr IO Markup.

Lemma scan_app (a b : string) :
  forall p st stack,
    scan (a ++ b) p st stack
    = match scan a p st stack with
      | Ret (st', stack') => scan b (p + String.length a) st' stack'
      | Raise e => Raise e
      end.
Proof.
  induction a as [|c a IH]; intros p st stack; cbn [append scan String.length].
  - now rewrite Nat.add_0_r.
  - destruct (step c p st stack) as [[st' stack']|e]; [|reflexivity].
    rewrite IH. now rewrite Nat.add_succ_r.
Qed.

Lemma plain_app (a b : string) : plain (a ++ b) = plain a && plain b.
Proof.
  unfold plain. induction a as [|c a IH]; cbn [append all_chars]; [reflexivity|].
  now rewrite IH, andb_assoc.
Qed.

(** A text with no opening bracket holds no tag. *)
Lemma scan_plain (s : string) :
  plain s = true ->
  forall p k stack, exists k', scan s p (Text k) stack = Ret (Text k', stack).
Proof.
  unfold plain. induction s as [|c s IH]; intros H p k stack; cbn [scan].
  - eauto.
  - cbn [all_chars] in H. apply andb_prop in H as [Hc Hs].
    cbn [step]. apply negb_true_iff in Hc. rewrite Hc.
    destruct (Ascii.eqb c backslash); apply (IH Hs).
Qed.

Lemma plain_digits (d : Decimal.uint) : plain (NilEmpty.string_of_uint d) = true.
Proof. induction d; cbn; auto. Qed.

Lemma plain_str_nat (n : nat) : plain (str_nat n) = true.
Proof. apply plain_digits. Qed.

Lemma render_plain (s : string) : plain s = true -> render s = None.
Proof.
  intros H. unfold render. now destruct (scan_plain s H 0 0 []) as [k' ->].
Qed.

Lemma closes_green (q b : nat) (stack : list string) :
  scan "[/green]" q (Text b) ("green" :: stack)
  = if Nat.even b then Ret (Text 0, stack) else Ret (Text 0, "green" :: stack).
Proof. cbv -[Nat.even]. destruct (Nat.even b); reflexivity. Qed.

Lemma closes_yellow (q b : nat) (stack : list string) :
  scan "[/yellow]" q (Text b) ("yellow" :: stack)
  = if Nat.even b then Ret (Text 0, stack) else Ret (Text 0, "yellow" :: stack).
Proof. cbv -[Nat.even]. destruct (Nat.even b); reflexivity. Qed.

Lemma closes_bold (q b : nat) (stack : list string) :
  scan "[/bold]: " q (Text b) ("bold" :: stack)
  = if Nat.even b then Ret (Text 0, stack) else Ret (Text 0, "bold" :: stack).
Proof. cbv -[Nat.even]. destruct (Nat.even b); reflexivity. Qed.

Lemma closes_cyan (q b : nat) (stack : list string) :
  scan ".[/cyan] " q (Text b) ("cyan" :: stack) = Ret (Text 0, stack).
Proof. reflexivity. Qed.

Ltac skip_plain H :=
  match type of H with
  | plain ?s = true =>
      match goal with
      | |- context [scan s ?p (Text ?k) ?stk] =>
          let k' := fresh "k" in
          destruct (scan_plain s H p k stk) as [k' ->]
      end
  end.

Lemma render_error (message : string) :
  plain message = true -> render ("[red]Error:[/red] " ++ message) = None.
Proof.
  intros H. unfold render. rewrite scan_app.
  change (scan "[red]Error:[/red] " 0 (Text 0) []) with (Ret (Text 0, @nil string)).
  cbv iota beta. skip_plain H. reflexivity.
Qed.

Lemma render_success (message : string) :
  plain message = true -> render ("[green]" ++ message ++ "[/green]") = None.
Proof.
  intros H. unfold render. rewrite scan_app.
  change (scan "[green]" 0 (Text 0) []) with (Ret (Text 0, ["green"])).
  cbv iota beta. rewrite scan_app. skip_plain H.
  rewrite closes_green. now destruct (Nat.even k).
Qed.

Lemma render_numbered (i : nat) (action : string) :
  plain action = true ->
  render ("  [cyan]" ++ str_nat i ++ ".[/cyan] " ++ action) = None.
Proof.
  intros H. unfold render. rewrite scan_app.
  change (scan "  [cyan]" 0 (Text 0) []) with (Ret (Text 0, ["cyan"])).
  cbv iota beta. rewrite scan_app.
  pose proof (plain_str_nat i) as Hi. skip_plain Hi.
  rewrite scan_app, closes_cyan. skip_plain H. reflexivity.
Qed.

Lemma render_incentive (incentive : string) :
  plain incentive = true ->
  render (Rendered.nl ++ "[yellow]" ++ incentive ++ "[/yellow]") = None.
Proof.
  intros H. unfold render.
  change (Rendered.nl ++ "[yellow]" ++ incentive ++ "[/yellow]")
    with ((Rendered.nl ++ "[yellow]") ++ incentive ++ "[/yellow]").
  rewrite scan_app.
  change (scan (Rendered.nl ++ "[yellow]") 0 (Text 0) [])
    with (Ret (Text 0, ["yellow"])).
  cbv iota beta. rewrite scan_app. skip_plain H.
  rewrite closes_yellow. now destruct (Nat.even k).
Qed.

Lemma render_spoken (sender content rest : string) :
  plain sender = true -> plain content = true -> plain rest = true ->
  render ("[bold]" ++ sender ++ "[/bold]: " ++ content ++ rest) = None.
Proof.
  intros Hs Hc Hr. unfold render. rewrite scan_app.
  change (scan "[bold]" 0 (Text 0) []) with (Ret (Text 0, ["bold"])).
  cbv iota beta. rewrite scan_app. skip_plain Hs.
  rewrite scan_app, closes_bold.
  assert (H : plain (content ++ rest) = true) by (rewrite plain_app, Hc, Hr; reflexivity).
  destruct (Nat.even k); skip_plain H; reflexivity.
Qed.

Lemma render_sender_and_content (l : line) :
  Shown.plain_line l = true -> render (Rendered.sender_and_content l) = None.
Proof.
  destruct l; try reflexivity; cbn [Shown.plain_line Rendered.sender_and_content];
    intros H; apply andb_prop in H as [Hs Hc].
  - now apply render_spoken.
  - rewrite <- (append_nil_r content). now apply render_spoken.
Qed.


Lemma console_print_renders (markup : string) (l : line) (w : world) :
  render markup = None -> console_print markup l w = ([Out l], w, Ret tt).
Proof. intros H. unfold console_print. now rewrite H. Qed.

End MarkupFacts.

(** ** Runs that make no call *)

Section Quiet.
Import PyStr Config IO Router Game Observe Shape Markup Shown.

Lemma quiet_ret {A : Type} (a : A) : quiet (ret a).
Proof. intros w. exists [], (Ret a). reflexivity. Qed.

Lemma quiet_print (l : line) : quiet (print l).
Proof. intros w. exists [l], (Ret tt). reflexivity. Qed.

Lemma quiet_console_print (markup : string) (l : line) : quiet (console_print markup l).
Proof.
  intros w. unfold console_print. destruct (render markup) as [e|].
  - exists [], (Raise e). reflexivity.
  - exists [l], (Ret tt). reflexivity.
Qed.

Lemma quiet_bind {A B : Type} (m : io A) (f : A -> io B) :
  quiet m -> (forall a, quiet (f a)) -> quiet (iobind m f).
Proof.
  intros Hm Hf w. unfold iobind. destruct (Hm w) as (ls & res & ->).
  destruct res as [a|e]; [|eauto].
  destruct (Hf a w) as (ls' & res' & ->). exists (ls ++ ls')%list, res'.
  unfold prints. now rewrite map_app.
Qed.

Lemma quiet_print_numbered (actions : list string) :
  forall i, quiet (Rendered.print_numbered i actions).
Proof.
  induction actions as [|a l IH]; intros i; cbn [Rendered.print_numbered].
  - apply quiet_ret.
  - apply quiet_bind; [apply quiet_console_print | intros _; apply IH].
Qed.

Lemma quiet_print_suggestions (actions : list string) :
  quiet (Rendered.print_suggestions actions).
Proof.
  destruct actions as [|a l]; [apply quiet_ret|].
  apply quiet_bind; [apply quiet_print | intros _; apply quiet_print_numbered].
Qed.

Lemma quiet_print_each {A : Type} (render : A -> line) (xs : list A) :
  quiet (Rendered.print_each render xs).
Proof.
  induction xs as [|x xs IH]; cbn [Rendered.print_each]; [apply quiet_ret|].
  apply quiet_bind; [apply quiet_console_print | intros _; exact IH].
Qed.

Ltac quiet_auto :=
  first [ apply quiet_ret | apply quiet_print | apply quiet_console_print
        | apply quiet_print_suggestions | apply quiet_print_each
        | apply quiet_print_numbered
        | (apply quiet_bind; [quiet_auto | intros ?; quiet_auto]) ].

(** The call, then a report of its failure or what [k] prints. *)
Lemma reports_call_then {A : Type} (r : request) (resp : py A)
      (k : A -> io unit) (prefix : string) :
  plain prefix = true ->
  (forall a, quiet (k a)) ->
  reports (iobind (attempt (call r resp))
                  (fun x => match x with
                            | Raise e => Rendered.print_error (prefix ++ str_exn e)
                            | Ret a => k a
                            end)) r prefix tt.
Proof.
  intros Hp Hk w. unfold reported, iobind, attempt, call.
  destruct resp as [a|e]; cbv iota beta.
  - destruct (Hk a w) as (ls & res & ->). exists None, ls, res.
    split; [reflexivity|]. split; [now intros [] _ | discriminate].
  - assert (Hm : plain (str_exn e) = true -> plain (prefix ++ str_exn e) = true)
      by (intros Hpl; rewrite plain_app, Hp, Hpl; reflexivity).
    unfold Rendered.print_error, console_print.
    destruct (render ("[red]Error:[/red] " ++ prefix ++ str_exn e)) as [e0|] eqn:R.
    + exists (Some e), [], (Raise e0). split; [reflexivity|].
      split; [discriminate|]. intros e' He' Hpl. injection He' as <-.
      rewrite (render_error _ (Hm Hpl)) in R. discriminate.
    + exists (Some e), [Error (prefix ++ str_exn e)], (Ret tt).
      split; [reflexivity|]. split; [now intros [] _|].
      intros e' He' _. now injection He' as <-.
Qed.

Lemma reports_try {A : Type} (r : request) (resp : py A)
      (k : A -> io unit) (prefix : string) :
  plain prefix = true ->
  (forall a, quiet (k a)) ->
  reports (try_except (iobind (call r resp) k)
                      (fun e => Rendered.print_error (prefix ++ str_exn e)))
          r prefix tt.
Proof.
  intros Hp Hk w. unfold reported, try_except, attempt. unfold iobind at 1 2. unfold call.
  destruct resp as [a|e]; cbv iota beta.
  - destruct (Hk a w) as (ls & res & ->). destruct res as [[]|e].
    + exists None, ls, (Ret tt). cbn. rewrite app_nil_r.
      split; [reflexivity|]. split; [now intros [] _ | discriminate].
    + destruct (quiet_console_print ("[red]Error:[/red] " ++ prefix ++ str_exn e)
                                    (Error (prefix ++ str_exn e)) w)
        as (ls' & res' & E).
      unfold Rendered.print_error. rewrite E.
      exists None, (ls ++ ls')%list, res'. cbn. unfold prints. rewrite map_app.
      split; [reflexivity|]. split; [now intros [] _ | discriminate].
  - assert (Hm : plain (str_exn e) = true -> plain (prefix ++ str_exn e) = true)
      by (intros Hpl; rewrite plain_app, Hp, Hpl; reflexivity).
    unfold Rendered.print_error, console_print.
    destruct (render ("[red]Error:[/red] " ++ prefix ++ str_exn e)) as [e0|] eqn:R.
    + exists (Some e), [], (Raise e0). split; [reflexivity|].
      split; [discriminate|]. intros e' He' Hpl. injection He' as <-.
      rewrite (render_error _ (Hm Hpl)) in R. discriminate.
    + exists (Some e), [Error (prefix ++ str_exn e)], (Ret tt).
      split; [reflexivity|]. split; [now intros [] _|].
      intros e' He' _. now injection He' as <-.
Qed.

Lemma reports_then {A : Type} {h : io unit} {r : request} {prefix : string} (a : A) :
  reports h r prefix tt -> reports (iobind h (fun _ => ret a)) r prefix a.
Proof.
  intros H w. destruct (H w) as (raised & ls & res & E & _ & Hf).
  unfold reported, iobind. rewrite E. destruct res as [[]|e].
  - exists raised, ls, (Ret a). cbn. rewrite app_nil_r.
    split; [reflexivity|]. split; [now intros x [= ->]|].
    intros e He Hpl. destruct (Hf e He Hpl) as [-> _]. auto.
  - exists raised, ls, (Raise e). split; [reflexivity|].
    split; [discriminate|].
    intros e' He' Hpl. destruct (Hf e' He' Hpl) as [_ Hr]. discriminate.
Qed.

Lemma reports_do_action (client : Client.gateway) (action : string) :
  reports (Rendered._do_action client action) (RDoAction action) "Action failed: " tt.
Proof.
  apply reports_call_then; [reflexivity|]. intros result.
  destruct (truthy_opt (Client.error result)); [apply quiet_console_print|].
  destruct (Client.requires_account result); quiet_auto.
Qed.

Lemma reports_do_look (client : Client.gateway) :
  reports (Rendered._do_look client) RLook "Failed: " tt.
Proof. apply reports_call_then; [reflexivity|]. intros result. quiet_auto. Qed.

Lemma reports_do_inventory (client : Client.gateway) :
  reports (Rendered._do_inventory client) RInventory "Failed: " tt.
Proof.
  apply reports_call_then; [reflexivity|]. intros result. apply quiet_console_print.
Qed.

Lemma reports_do_rest (client : Client.gateway) :
  reports (Rendered._do_rest client) RRest "Failed: " tt.
Proof.
  apply reports_call_then; [reflexivity|]. intros result. apply quiet_console_print.
Qed.

Lemma reports_show_messages (client : Client.gateway) :
  reports (Rendered._show_messages client) RGetPendingMessages
          "Failed to load messages: " tt.
Proof.
  apply reports_try; [reflexivity|]. intros messages.
  destruct messages as [|m ms]; [apply quiet_print|].
  apply quiet_bind; [apply quiet_print | intros _].
  apply quiet_bind; [apply quiet_print_each | intros _].
  apply quiet_bind; [|intros _; apply quiet_print].
  destruct (10 <? List.length (m :: ms))%nat; [apply quiet_print | apply quiet_ret].
Qed.

Lemma reports_show_chat (client : Client.gateway) :
  reports (Rendered._show_chat client) (RGetGlobalChat 10) "Failed to load chat: " tt.
Proof.
  apply reports_try; [reflexivity|]. intros messages.
  destruct messages as [|m ms]; [apply quiet_print | quiet_auto].
Qed.

Lemma reports_send_dm (client : Client.gateway) (recipient : option string)
      (message : string) :
  reports
    (try_except
       (iobind (call (RSendDm recipient message)
                     (Client.send_dm client recipient message))
               (fun result =>
                  if Client.success result
                  then Rendered.print_success ("Message sent to " ++ str_opt recipient)
                  else Rendered.print_error (or_default (Client.ack_error result)
                                                        "Failed to send message")))
       (fun e => Rendered.print_error ("Failed to send: " ++ str_exn e)))
    (RSendDm recipient message) "Failed to send: " tt.
Proof.
  apply reports_try; [reflexivity|]. intros result.
  destruct (Client.success result); apply quiet_console_print.
Qed.

Lemma reports_send_global (client : Client.gateway) (message : string) :
  reports
    (try_except
       (iobind (call (RSendGlobalChat message)
                     (Client.send_global_chat client message))
               (fun result =>
                  if Client.success result
                  then Rendered.print_success "Sent to global chat"
                  else Rendered.print_error (or_default (Client.ack_error result)
                                                        "Failed to send")))
       (fun e => Rendered.print_error ("Failed to send: " ++ str_exn e)))
    (RSendGlobalChat message) "Failed to send: " tt.
Proof.
  apply reports_try; [reflexivity|]. intros result.
  destruct (Client.success result); apply quiet_console_print.
Qed.

Lemma In_prints (r : request) (raised : option exn) (ls : list line) :
  ~ In (Call r raised) (prints ls).
Proof. induction ls as [|l ls IH]; cbn; [tauto|]. intros [H|H]; [discriminate | auto]. Qed.

End Quiet.

(** ** The loop on the console *)

Section RenderedLoop.
Import PyStr Config IO Router Game Observe Shape Markup Shown.

Lemma reported_calls {A : Type} {res : list event * world * py A} {w : world}
      {r : request} {prefix : string} {a : A} :
  reported res w r prefix a -> calls (fst (fst res)) = [r].
Proof.
  intros (raised & ls & out & -> & _). cbn. now rewrite calls_prints.
Qed.

Lemma reported_failure {A : Type} {res : list event * world * py A} {w : world}
      {r : request} {prefix : string} {a : A} {r' : request} {e : exn} :
  reported res w r prefix a ->
  In (Call r' (Some e)) (fst (fst res)) ->
  plain (str_exn e) = true ->
  res = ([Call r (Some e); Out (Error (prefix ++ str_exn e))], w, Ret a) /\ r' = r.
Proof.
  intros (raised & ls & out & -> & _ & Hf) Hin Hpl. cbn [fst] in Hin.
  destruct Hin as [Hin|Hin]; [|now apply In_prints in Hin].
  injection Hin as -> ->. destruct (Hf e eq_refl Hpl) as [-> ->]. auto.
Qed.

(** The chat router on the console carries out the intent the
    routing order gives. *)
Lemma rendered_chat_intent (client : Client.gateway) (action : string) (w : world) :
  exists i, spec_classify action = Some i /\
    match i with
    | GameplayAction raw_text =>
        raw_text = action /\
        Rendered._handle_chat_intent client action w = ([], w, Ret false)
    | DirectMessage _ _ | GlobalBroadcast _ =>
        reported (Rendered._handle_chat_intent client action w) w
                 (request_of i) "Failed to send: " true
    | InboxCheck =>
        reported (Rendered._handle_chat_intent client action w) w
                 (request_of i) "Failed to load messages: " true
    end.
Proof.
  unfold spec_classify, Rendered._handle_chat_intent.
  destruct (parse_dm_returns action) as [->|(rcp & m & -> & _)];
    rewrite iobind_lift_ret.
  - destruct (_parse_inbox_intent action).
    + exists InboxCheck. split; [reflexivity|].
      apply (reports_then true (reports_show_messages client)).
    + destruct (parse_global_returns action) as [->|(m & -> & Hm)];
        rewrite iobind_lift_ret.
      * exists (GameplayAction action). simpl. auto.
      * exists (GlobalBroadcast m). split; [reflexivity|].
        cbn [truthy_opt or_default]. rewrite Hm.
        apply (reports_then true (reports_send_global client m)).
  - exists (DirectMessage (Some rcp) m). split; [reflexivity|].
    apply (reports_then true (reports_send_dm client (Some rcp) m)).
Qed.

Lemma rendered_routes (client : Client.gateway) (action : string) :
  truthy action = true ->
  startswith "/" (strip (lower action)) = false ->
  Rendered.loop_body client action =
  iobind (Rendered._handle_chat_intent client action)
         (fun handled =>
            if handled then ret Continue
            else iobind (Rendered._do_action client action) (fun _ => ret Continue)).
Proof.
  intros Ht Hs. unfold Rendered.loop_body. rewrite Ht. simpl negb. cbv iota.
  rewrite !(no_alias _ _ Hs) by reflexivity. now rewrite Hs.
Qed.

(** A round for a line that is no slash line: the call of the intent
    the routing order gives, and a report when it fails. *)
Lemma rendered_round (client : Client.gateway) (action : string) (w : world) :
  truthy action = true ->
  startswith "/" (strip (lower action)) = false ->
  exists i prefix,
    spec_classify action = Some i /\
    In prefix failure_prefixes /\
    reported (Rendered.loop_body client action w) w (request_of i) prefix Continue.
Proof.
  intros Ht Hs. rewrite (rendered_routes client action Ht Hs).
  destruct (rendered_chat_intent client action w) as (i & Hi & H).
  exists i. unfold iobind at 1.
  assert (Hgo : forall prefix,
             reported (Rendered._handle_chat_intent client action w) w
                      (request_of i) prefix true ->
             reported
               (let (p, r) := Rendered._handle_chat_intent client action w in
                let (t, w1) := p in
                match r with
                | Ret a =>
                    let (p0, r0) :=
                      (if a then ret Continue
                       else iobind (Rendered._do_action client action)
                                   (fun _ => ret Continue)) w1 in
                    let (t', w2) := p0 in ((t ++ t')%list, w2, r0)
                | Raise e => (t, w1, Raise e)
                end) w (request_of i) prefix Continue).
  { intros prefix (raised & ls & out & -> & Hx & Hf).
    destruct out as [b|e].
    - rewrite (Hx b eq_refl). cbn. rewrite app_nil_r.
      exists raised, ls, (Ret Continue). split; [reflexivity|].
      split; [now intros x [= ->]|]. intros e He Hpl.
      now destruct (Hf e He Hpl) as [-> _].
    - exists raised, ls, (Raise e). split; [reflexivity|]. split; [discriminate|].
      intros e' He' Hpl. now destruct (Hf e' He' Hpl) as [_ ?]. }
  destruct i as [rcp b| |b|raw].
  - exists "Failed to send: ". split; [exact Hi|]. split; [cbn; tauto|]. now apply Hgo.
  - exists "Failed to load messages: ". split; [exact Hi|]. split; [cbn; tauto|].
    now apply Hgo.
  - exists "Failed to send: ". split; [exact Hi|]. split; [cbn; tauto|]. now apply Hgo.
  - destruct H as [-> ->]. exists "Action failed: ".
    split; [exact Hi|]. split; [cbn; tauto|].
    pose proof (reports_then Continue (reports_do_action client action) w) as R.
    destruct (iobind (Rendered._do_action client action) (fun _ => ret Continue) w)
      as [[t' w2] r].
    exact R.
Qed.

(** The chain of alias tests is a lookup in the table. *)
Lemma rendered_slash (client : Client.gateway) (action : string) :
  startswith "/" (strip (lower action)) = true ->
  Rendered.loop_body client action = dispatch client action (spec_lex action).
Proof.
  intros Hs. unfold Rendered.loop_body. rewrite (truthy_of_slash _ Hs).
  cbn [negb]. cbv iota. unfold spec_lex. rewrite Hs.
  generalize (strip (lower action)) as x. intros x.
  unfold one_of, aliases.
  cbn [existsb lookup_alias].
  repeat match goal with
         | |- context [String.eqb x ?a] =>
             destruct (String.eqb x a); cbn [orb dispatch]; try reflexivity
         end.
Qed.

(** What the command a slash line names makes of the round. *)
Lemma dispatch_run (client : Client.gateway) (action : string)
      (c : option command) (w : world) :
  match c with
  | Some Quit =>
      dispatch client action c w
      = ([Out (Success "Farewell, adventurer!")], w, Ret Break)
  | Some HelpCommand => dispatch client action c w = ([Out Help], w, Ret Continue)
  | Some Look => reported (dispatch client action c w) w RLook "Failed: " Continue
  | Some Inventory =>
      reported (dispatch client action c w) w RInventory "Failed: " Continue
  | Some Rest => reported (dispatch client action c w) w RRest "Failed: " Continue
  | Some Messages =>
      reported (dispatch client action c w) w RGetPendingMessages
               "Failed to load messages: " Continue
  | Some Chat =>
      reported (dispatch client action c w) w (RGetGlobalChat 10)
               "Failed to load chat: " Continue
  | None =>
      exists ls out,
        dispatch client action c w = (prints ls, w, out) /\
        (forall c', out = Ret c' -> c' = Continue) /\
        (plain action = true ->
         ls = [Error ("Unknown command: " ++ action)] /\ out = Ret Continue)
  end.
Proof.
  destruct c as [[]|]; cbn [dispatch]; try reflexivity.
  - apply (reports_then Continue (reports_do_look client)).
  - apply (reports_then Continue (reports_do_inventory client)).
  - apply (reports_then Continue (reports_do_rest client)).
  - apply (reports_then Continue (reports_show_messages client)).
  - apply (reports_then Continue (reports_show_chat client)).
  - unfold iobind, Rendered.print_error, console_print.
    destruct (render ("[red]Error:[/red] " ++ "Unknown command: " ++ action))
      as [e|] eqn:R.
    + exists [], (Raise e). split; [reflexivity|]. split; [discriminate|].
      intros Hpl. rewrite render_error in R; [discriminate|].
      now rewrite plain_app, Hpl.
    + exists [Error ("Unknown command: " ++ action)], (Ret Continue).
      split; [reflexivity|]. split; [now intros c' [= <-] | auto].
Qed.

End RenderedLoop.

(** ** The claims about the router and the loop *)

Section LoopClaims.
Import PyStr Config IO Router Game Observe Shape Fixtures Markup Shown Tagged.

(** Every round of the loop returns, with the store and the clock as
    they were, after at most one call. *)
Lemma loop_body_shape (client : Client.gateway) (action : string) (w : world) :
  exists trace c,
    loop_body client action w = (trace, w, Ret c) /\
    ((exists ls, trace = prints ls) \/ (c = Continue /\ exists r, one_call r trace)).
Proof.
  destruct (truthy action) eqn:Ht.
  - destruct (startswith "/" (strip (lower action))) eqn:Hs.
    + rewrite (loop_body_slash client action Hs).
      destruct (spec_dispatch_run client action (spec_lex action) w) as (t & E & H).
      exists t. eexists. split; [exact E|].
      destruct (spec_lex action) as [[]|]; subst;
        try (left; eexists (_ :: nil); reflexivity); right; eauto.
    + destruct (routed_round client action w Ht Hs) as (i & t & _ & E & H).
      exists t, Continue. eauto.
  - destruct action; [|discriminate]. exists [], Continue.
    split; [reflexivity | left; exists []; reflexivity].
Qed.


(** C2: a line of 7-bit text that is not empty and, lowered and
    stripped, does not start with a slash is given exactly one
    intent, in the order direct message, inbox, global chat,
    gameplay, and the round makes exactly the call of that intent; a
    line that matches a direct-message pattern is a direct message
    whether or not it holds an inbox phrase, and a line that holds an
    inbox phrase and matches no direct-message pattern is an inbox
    check; on a line with no blank in front, the slash test of the
    loop is the test of the first character typed. *)
Theorem routing_order :
  (forall (client : Client.gateway) (action : string) (w : world),
      isascii action = true ->
      truthy action = true ->
      startswith "/" (strip (lower action)) = false ->
      (exists i,
          spec_classify action = Some i /\
          calls (trace_of (loop_body client action) w) = [request_of i]) /\
      (forall recipient body,
          _parse_dm_intent action = Ret (Some (recipient, body)) ->
          calls (trace_of (loop_body client action) w) = [RSendDm recipient body]) /\
      (_parse_dm_intent action = Ret None ->
       _parse_inbox_intent action = true ->
       calls (trace_of (loop_body client action) w) = [RGetPendingMessages])) /\
  (forall (client : Client.gateway) (w : world),
      _parse_inbox_intent "message Bob who messaged me first" = true /\
      calls (trace_of (loop_body client "message Bob who messaged me first") w)
      = [RSendDm (Some "bob") "who messaged me first"]) /\
  (forall (client : Client.gateway) (w : world),
      _parse_dm_intent "who messaged me" = Ret None /\
      calls (trace_of (loop_body client "who messaged me") w)
      = [RGetPendingMessages]) /\
  (forall action : string,
      isascii action = true ->
      lstrip action = action ->
      startswith "/" (strip (lower action)) = startswith "/" action).
Proof.
  split; [|split; [|split; [|intros action _; apply slash_test_on_prompt_lines]];
           intros client w; (split; [vm_compute; reflexivity|])].
  - intros client action w _ Ht Hs.
    destruct (routed_round client action w Ht Hs) as (i & t & Hi & E & H).
    unfold trace_of. rewrite E. cbn [fst].
    pose proof (one_call_calls _ _ H) as Hc.
    split; [exists i; auto|]. unfold spec_classify in Hi. split.
    + intros recipient body Hdm. rewrite Hdm in Hi. now injection Hi as <-.
    + intros Hdm Hin. rewrite Hdm, Hin in Hi. now injection Hi as <-.
  - destruct (routed_round client "message Bob who messaged me first" w
                           eq_refl eq_refl) as (i & t & Hi & E & H).
    vm_compute in Hi. injection Hi as <-.
    unfold trace_of. rewrite E. now apply one_call_calls.
  - destruct (routed_round client "who messaged me" w eq_refl eq_refl)
      as (i & t & Hi & E & H).
    vm_compute in Hi. injection Hi as <-.
    unfold trace_of. rewrite E. now apply one_call_calls.
Qed.

Lemma routing_order_witness :
  calls (trace_of (loop_body offline "who messaged me") w0) = [RGetPendingMessages].
Proof.
  assert (Ha : isascii "who messaged me" = true) by reflexivity.
  assert (Ht : truthy "who messaged me" = true) by reflexivity.
  assert (Hs : startswith "/" (strip (lower "who messaged me")) = false)
    by reflexivity.
  assert (Hdm : _parse_dm_intent "who messaged me" = Ret None) by reflexivity.
  assert (Hin : _parse_inbox_intent "who messaged me" = true) by reflexivity.
  exact (proj2 (proj2 (proj1 routing_order offline "who messaged me" w0 Ha Ht Hs))
               Hdm Hin).
Defined.

(** C4: a line of 7-bit text that is not empty, does not start with
    a slash (the test being made, as in the loop, on the lowered and
    stripped line) and matches no direct-message pattern, no inbox
    phrase and no global-chat pattern is a gameplay action, and the
    one call of its round is the generic action call, with the line
    exactly as it was typed. *)
Theorem gameplay_fallback :
  forall (client : Client.gateway) (action : string) (w : world),
    isascii action = true ->
    truthy action = true ->
    startswith "/" (strip (lower action)) = false ->
    _parse_dm_intent action = Ret None ->
    _parse_inbox_intent action = false ->
    _parse_global_chat_intent action = Ret None ->
    spec_classify action = Some (GameplayAction action) /\
    calls (trace_of (loop_body client action) w) = [RDoAction action].
Proof.
  intros client action w _ Ht Hs Hdm Hin Hgl.
  destruct (routed_round client action w Ht Hs) as (i & t & Hi & E & H).
  unfold spec_classify in *. rewrite Hdm, Hin, Hgl in *.
  injection Hi as <-. unfold trace_of. rewrite E. cbn [fst].
  split; [reflexivity | now apply one_call_calls].
Qed.

Lemma gameplay_fallback_witness :
  spec_classify "attack the goblin" = Some (GameplayAction "attack the goblin") /\
  calls (trace_of (loop_body offline "attack the goblin") w0)
  = [RDoAction "attack the goblin"].
Proof.
  apply (gameplay_fallback offline "attack the goblin" w0); reflexivity.
Defined.

(** C1 (the code departs from it): "tell everyone Hello World" matches
    the second global-chat pattern, whose body is "Hello World", but
    the direct-message patterns are tried first and the second of them
    reads "everyone" as a recipient: the round sends a direct message
    to "everyone" and makes no global-chat call.  The body itself is
    cut at the first place its text occurs in the lowered line:
    "global a" is broadcast as "al a". *)
Theorem tell_everyone_is_a_dm :
  forall (client : Client.gateway) (w : world),
    _parse_global_chat_intent "tell everyone Hello World" = Ret (Some "Hello World") /\
    _parse_dm_intent "tell everyone Hello World"
    = Ret (Some (Some "everyone", "Hello World")) /\
    calls (trace_of (loop_body client "tell everyone Hello World") w)
    = [RSendDm (Some "everyone") "Hello World"] /\
    calls (trace_of (loop_body client "global a") w) = [RSendGlobalChat "al a"].
Proof.
  intros client w. split; [vm_compute; reflexivity|].
  split; [vm_compute; reflexivity|]. split.
  - destruct (routed_round client "tell everyone Hello World" w eq_refl eq_refl)
      as (i & t & Hi & E & H).
    vm_compute in Hi. injection Hi as <-.
    unfold trace_of. rewrite E. now apply one_call_calls.
  - destruct (routed_round client "global a" w eq_refl eq_refl)
      as (i & t & Hi & E & H).
    vm_compute in Hi. injection Hi as <-.
    unfold trace_of. rewrite E. now apply one_call_calls.
Qed.

(** C3 (the code departs from it): whenever a direct-message pattern
    matches, the recipient is the captured word, a non-empty run of
    word characters with no capital, and "Message Kira I Found The
    Treasure" gives "kira" and "I Found The Treasure"; but the body is
    cut where its text first occurs in the lowered line, which need not
    be where the body starts: "message Kira a" is sent to "kira" as
    "age Kira a", the first "a" of the line being the one of
    "message". *)
Theorem dm_body_cut_at_first_occurrence :
  (forall text : string,
      _parse_dm_intent text = Ret None \/
      exists w message,
        _parse_dm_intent text = Ret (Some (Some w, message)) /\
        w <> EmptyString /\ all_chars Re.is_word w = true /\
        all_chars not_upper w = true) /\
  _parse_dm_intent "Message Kira I Found The Treasure"
  = Ret (Some (Some "kira", "I Found The Treasure")) /\
  (forall (client : Client.gateway) (w : world),
      _parse_dm_intent "message Kira a" = Ret (Some (Some "kira", "age Kira a")) /\
      find "message kira a" "a" = 4%Z /\
      calls (trace_of (loop_body client "message Kira a") w)
      = [RSendDm (Some "kira") "age Kira a"]).
Proof.
  split; [exact parse_dm_returns|]. split; [vm_compute; reflexivity|].
  intros client w. repeat split; try (vm_compute; reflexivity).
  destruct (routed_round client "message Kira a" w eq_refl eq_refl)
    as (i & t & Hi & E & H).
  vm_compute in Hi. injection Hi as <-.
  unfold trace_of. rewrite E. now apply one_call_calls.
Qed.

Lemma rendered_rounds_continue (client : Client.gateway) (action : string)
      (script : list (prompt_result * Client.gateway)) (w : world)
      (trace : list event) :
  Rendered.loop_body client action w = (trace, w, Ret Continue) ->
  Rendered.game_rounds ((Line action, client) :: script) w
  = then_run trace (Rendered.game_rounds script w).
Proof.
  intros E. cbn [Rendered.game_rounds]. unfold iobind. rewrite E. reflexivity.
Qed.

(** C5 (the code departs from it): the typed line "/[/x]" names no
    command, and the error line for it is printed through the
    console, which reads what was typed as markup: the closing tag
    has nothing to close, the round raises [MarkupError], nothing is
    printed, and the loop ends there, whatever is typed next.  The
    line "/dance", which names no command either, gets its error line
    and the loop goes on. *)
Theorem unknown_command_is_read_as_markup :
  forall (client : Client.gateway) (w : world)
         (script : list (prompt_result * Client.gateway)),
    spec_lex "/[/x]" = None /\
    Rendered.loop_body client "/[/x]" w
    = ([], w,
       Raise (MarkupError
                "closing tag '[/x]' at position 36 doesn't match any open tag")) /\
    Rendered.game_rounds ((Line "/[/x]", client) :: script) w
    = ([], w,
       Raise (MarkupError
                "closing tag '[/x]' at position 36 doesn't match any open tag")) /\
    Rendered.game_rounds ((Line "/dance", client) :: script) w
    = then_run [Out (Error "Unknown command: /dance")]
               (Rendered.game_rounds script w).
Proof.
  intros client w script. repeat split.
Qed.

(** C7 (the code departs from it): when the look call of "/look"
    fails with a status error whose text quotes the reason phrase
    "[/x]", the exception is caught, but the error line made of its
    text is read as markup by the console: the round raises
    [MarkupError], no error line is printed, and the loop ends there,
    whatever is typed next.  When the call fails with "connection
    refused", the round prints its one error line and the loop goes
    on. *)
Theorem failure_text_is_read_as_markup :
  forall (w : world) (script : list (prompt_result * Client.gateway)),
    Rendered.loop_body garbled "/look" w
    = ([Call RLook (Some stray)], w,
       Raise (MarkupError
                "closing tag '[/x]' at position 44 doesn't match any open tag")) /\
    Rendered.game_rounds ((Line "/look", garbled) :: script) w
    = ([Call RLook (Some stray)], w,
       Raise (MarkupError
                "closing tag '[/x]' at position 44 doesn't match any open tag")) /\
    Rendered.game_rounds ((Line "/look", offline) :: script) w
    = then_run [Call RLook (Some down); Out (Error "Failed: connection refused")]
               (Rendered.game_rounds script w).
Proof.
  intros w script. repeat split.
Qed.

Lemma filter_rendered (messages : list Client.dm) :
  filter is_message_line (map render_dm messages) = map render_dm messages /\
  filter is_and_more (map render_dm messages) = [].
Proof.
  induction messages as [|m ms [IH1 IH2]]; [auto|].
  cbn [map filter render_dm is_message_line is_and_more]. now rewrite IH1, IH2.
Qed.

Lemma says_console_print (markup : string) (l : line) :
  render markup = None -> says (console_print markup l) [l] tt.
Proof. intros H w. now apply console_print_renders. Qed.

(** Lines whose words hold no opening bracket are all printed. *)
Lemma says_rendered_each {A : Type} (render : A -> line) (xs : list A) :
  forallb plain_line (map render xs) = true ->
  says (Rendered.print_each render xs) (map render xs) tt.
Proof.
  induction xs as [|x xs IH]; cbn [map forallb Rendered.print_each]; intros H.
  - apply says_ret.
  - apply andb_prop in H as [Hx Hxs].
    apply (says_bind _ _ _ _ _ _
                     (says_console_print _ _ (render_sender_and_content _ Hx))
                     (IH Hxs)).
Qed.

(** Whatever the words, the lines printed are the first few. *)
Lemma rendered_each_prefix {A : Type} (render : A -> line) (xs : list A) (w : world) :
  exists n out,
    Rendered.print_each render xs w = (prints (map render (firstn n xs)), w, out).
Proof.
  induction xs as [|x xs (n & out & IH)]; cbn [Rendered.print_each].
  - exists 0, (Ret tt). reflexivity.
  - unfold iobind, console_print.
    destruct (Markup.render (Rendered.sender_and_content (render x))) as [e|].
    + exists 0, (Raise e). reflexivity.
    + rewrite IH. exists (S n), out. reflexivity.
Qed.

Lemma rendered_show_messages_run (client : Client.gateway)
      (messages : list Client.dm) (w : world) :
  Client.get_pending_messages client = Ret messages ->
  forallb plain_line (map render_dm (firstn 10 messages)) = true ->
  Rendered._show_messages client w
  = (Call RGetPendingMessages None :: prints (inbox_lines messages), w, Ret tt).
Proof.
  intros H Hpl. unfold Rendered._show_messages, try_except, attempt.
  unfold iobind at 1 2. unfold call. rewrite H.
  assert (Hs : says match messages with
                    | [] => print (Plain "No unread messages. Your inbox is empty.")
                    | _ =>
                        iobind (print (MessagesHeader (List.length messages)))
                          (fun _ => iobind (Rendered.print_each render_dm
                                                                (firstn 10 messages))
                             (fun _ => iobind
                                (if (10 <? List.length messages)%nat
                                 then print (AndMore (List.length messages - 10))
                                 else ret tt)
                                (fun _ => print ReplyHint)))
                    end (inbox_lines messages) tt).
  { destruct messages as [|m ms]; [apply says_print|].
    unfold inbox_lines.
    apply (says_bind _ _ _ _ _ _ (says_print _)).
    apply (says_bind _ _ _ _ _ _ (says_rendered_each _ _ Hpl)).
    destruct (10 <? List.length (m :: ms))%nat.
    - apply (says_bind _ _ _ _ _ _ (says_print _) (says_print _)).
    - apply (says_bind _ _ _ _ _ _ (says_ret tt) (says_print _)). }
  rewrite (Hs w). cbn. now rewrite app_nil_r.
Qed.

(** Whatever the words of the messages, the message lines shown are
    those of the first few messages, ten at most. *)
Lemma rendered_show_messages_prefix (client : Client.gateway)
      (messages : list Client.dm) (w : world) :
  Client.get_pending_messages client = Ret messages ->
  exists n,
    n <= 10 /\
    filter is_message_line (outputs (trace_of (Rendered._show_messages client) w))
    = map render_dm (firstn n messages).
Proof.
  intros H. unfold trace_of, Rendered._show_messages, try_except, attempt.
  unfold iobind, call, print. rewrite H.
  destruct messages as [|m ms]; [exists 0; split; [lia | reflexivity]|].
  cbv beta iota.
  destruct (rendered_each_prefix render_dm (firstn 10 (m :: ms)) w)
    as (n & out & ->).
  exists (Nat.min n 10). split; [lia|]. rewrite <- firstn_firstn.
  assert (Hf : forall tail,
             filter is_message_line tail = [] ->
             filter is_message_line
                    (MessagesHeader (List.length (m :: ms))
                     :: map render_dm (firstn n (firstn 10 (m :: ms))) ++ tail)%list
             = map render_dm (firstn n (firstn 10 (m :: ms)))).
  { intros tail Ht. cbn [filter is_message_line]. rewrite filter_app, Ht, app_nil_r.
    apply filter_rendered. }
  destruct out as [[]|e].
  - destruct (10 <? List.length (m :: ms))%nat; unfold ret; cbv beta iota;
      cbn [fst snd app outputs];
      rewrite ?app_nil_r, ?outputs_app, ?outputs_prints; cbn [outputs];
      apply Hf; reflexivity.
  - cbv beta iota. unfold Rendered.print_error, console_print.
    destruct (Markup.render _); cbv beta iota; cbn [fst snd app outputs];
      rewrite ?app_nil_r, ?outputs_app, ?outputs_prints; cbn [outputs];
      first [ apply Hf; reflexivity
            | pose proof (Hf [] eq_refl) as Hf0; rewrite app_nil_r in Hf0; exact Hf0 ].
Qed.

(** C10 (the code departs from it): of eleven messages fetched, the
    first of which is the text "[/x]", none is shown and no line
    tells how many are left: the console reads the message as markup,
    the closing tag has nothing to close, and the report of that
    failure, which quotes the tag, fails the same way, so that
    [_show_messages] raises [MarkupError] after the header line, and
    so does the round of the line "/messages".  Of the twelve
    messages of [twelve] the first ten are shown, and one line tells
    that two are left. *)
Theorem a_tag_in_a_message_ends_the_inbox :
  forall w : world,
    Rendered._show_messages (mailbox eleven) w
    = ([Call RGetPendingMessages None; Out (MessagesHeader 11)], w,
       Raise (MarkupError
                "closing tag '[/x]' at position 56 doesn't match any open tag")) /\
    filter is_message_line
           (outputs (trace_of (Rendered._show_messages (mailbox eleven)) w)) = [] /\
    filter is_and_more
           (outputs (trace_of (Rendered._show_messages (mailbox eleven)) w)) = [] /\
    Rendered.loop_body (mailbox eleven) "/messages" w
    = ([Call RGetPendingMessages None; Out (MessagesHeader 11)], w,
       Raise (MarkupError
                "closing tag '[/x]' at position 56 doesn't match any open tag")) /\
    outputs (trace_of (Rendered._show_messages (mailbox twelve)) w)
    = (MessagesHeader 12 :: map render_dm (firstn 10 twelve)
       ++ [AndMore 2; ReplyHint])%list.
Proof. intros w. repeat split. Qed.

End LoopClaims.

(** ** The polling loop of the device-code login *)

Section Polling.
Import PyStr Config IO Game Session Observe Shape.

Variable server : auth_server.
Variables email dc : string.
Variables start expires : Z.






End Polling.

Section PollingClaims.
Import PyStr Config IO Game Session Observe Shape Fixtures.





End PollingClaims.

(** ** The resume decision of [play] *)

Section Frames.
Import PyStr Config IO Game Session Observe Shape.

Lemma keeps_ret {A : Type} (a : A) : keeps (ret a).
Proof. intros w; unfold ret; eauto. Qed.

Lemma keeps_raise {A : Type} (e : exn) : keeps (@raise A e).
Proof. intros w; unfold raise; eauto. Qed.

Lemma keeps_print (l : line) : keeps (print l).
Proof. intros w; unfold print; eauto. Qed.

Lemma keeps_call {A : Type} (r : request) (resp : py A) : keeps (call r resp).
Proof. intros w; unfold call; eauto. Qed.

Lemma keeps_read {A : Type} (f : store -> A) : keeps (read f).
Proof. intros w; unfold read; eauto. Qed.

Lemma keeps_bind {A B : Type} (m : io A) (f : A -> io B) :
  keeps m -> (forall a, keeps (f a)) -> keeps (iobind m f).
Proof.
  intros Hm Hf w. unfold iobind. destruct (Hm w) as (t & [a|e] & ->); [|eauto].
  destruct (Hf a w) as (t' & r' & ->). eauto.
Qed.

Lemma keeps_attempt {A : Type} (m : io A) : keeps m -> keeps (attempt m).
Proof. intros Hm w. unfold attempt. destruct (Hm w) as (t & r & ->). eauto. Qed.

Ltac keeps_auto :=
  repeat first
         [ apply keeps_ret | apply keeps_raise | apply keeps_print
         | apply keeps_call | apply keeps_read | apply keeps_attempt
         | (apply keeps_bind; [|intros ?])
         | assumption
         | match goal with
           | |- keeps (if ?c then _ else _) => destruct c
           | |- keeps (match ?x with _ => _ end) => destruct x
           end ].

Lemma keeps_print_opt (v : option string) : keeps (print_opt v).
Proof. unfold print_opt. keeps_auto. Qed.

Lemma keeps_show_realms (rs : list realm) : forall idx, keeps (show_realms idx rs).
Proof.
  induction rs as [|r rs IH]; intros idx; cbn [show_realms]; [apply keeps_ret|].
  apply keeps_bind; [apply keeps_print|intros _].
  apply keeps_bind; [apply keeps_print_opt|intros _]. apply IH.
Qed.

Lemma keeps_show_groups (groups : list land_group) :
  forall idx, keeps (show_groups idx groups).
Proof.
  induction groups as [|g gs IH]; intros idx; cbn [show_groups]; [apply keeps_ret|].
  destruct (is_locked g); [apply IH|].
  apply keeps_bind; [apply keeps_print|intros _].
  apply keeps_bind; [apply keeps_show_realms|intros idx'].
  apply keeps_bind; [apply keeps_print|intros _].
  apply keeps_bind; [apply IH|intros more]. apply keeps_ret.
Qed.

Lemma keeps_select_realm (server : lobby) (ans : answers) :
  keeps (_select_realm server ans).
Proof.
  unfold _select_realm.
  apply keeps_bind; [keeps_auto|intros [groups|e]]; [|keeps_auto].
  apply keeps_bind; [apply keeps_print|intros _].
  apply keeps_bind; [apply keeps_show_groups|intros all_realms].
  unfold print_error. keeps_auto.
Qed.

Lemma keeps_show_characters (cs : list character) :
  forall i, keeps (show_characters i cs).
Proof.
  induction cs as [|c cs IH]; intros i; cbn [show_characters]; [apply keeps_ret|].
  repeat (apply keeps_bind; [first [apply keeps_print | apply keeps_print_opt]|intros _]).
  apply IH.
Qed.

Lemma keeps_select_character (server : lobby) (ans : answers) (world_id : string)
      (camp : campfire) :
  keeps (_select_character server ans world_id camp).
Proof.
  unfold _select_character.
  apply keeps_bind; [apply keeps_print|intros _].
  apply keeps_bind; [apply keeps_show_characters|intros _].
  unfold print_error. keeps_auto.
Qed.

Lemma keeps_loop_body (client : Client.gateway) (action : string) :
  keeps (loop_body client action).
Proof.
  intros w. destruct (loop_body_shape client action w) as (t & c & E & _). eauto.
Qed.

Lemma keeps_game_rounds (script : list (prompt_result * Client.gateway)) :
  keeps (game_rounds script).
Proof.
  induction script as [|[[action|] client] script IH]; cbn [game_rounds];
    try apply keeps_print.
  apply keeps_bind; [apply keeps_loop_body|intros [|]]; [exact IH | apply keeps_ret].
Qed.

Lemma keeps_game_loop (client : Client.gateway)
      (script : list (prompt_result * Client.gateway)) :
  keeps (_game_loop client script).
Proof.
  unfold _game_loop, try_except.
  apply keeps_bind; [apply keeps_print|intros _].
  apply keeps_bind; [|intros _; apply keeps_game_rounds].
  keeps_auto.
Qed.

Lemma get_client_run (fresh : string) (w : world) :
  exists c, get_client fresh w
            = ([], World (with_identity fresh (disk w)) (clock w), Ret c).
Proof.
  unfold with_identity, has_identity, get_client, iobind, read, ret, write.
  destruct w as [d c]. cbn [disk clock].
  destruct (truthy_opt (session_token d));
    destruct (truthy_opt (api_key d));
    destruct (truthy_opt (guest_id d));
    cbn; eauto.
Qed.

End Frames.

Section PlayClaims.
Import PyStr Config IO Game Session Observe Shape Fixtures.

Variable server : lobby.

Lemma framed_then_run (w : world) (t : list event)
      (res : list event * world * py unit) :
  framed server w res -> framed server w (then_run t res).
Proof.
  destruct res as [[t' w'] r]. unfold framed. cbn [then_run fst snd].
  intros [Hc [Hd|(realm & entity & result & Hs & Hin & Hd)]]; split; auto.
  right. exists realm, entity, result. repeat split; auto.
  apply in_or_app. now right.
Qed.

Lemma framed_keeps (m : io unit) (w : world) : keeps m -> framed server w (m w).
Proof. intros H. destruct (H w) as (t & r & ->). unfold framed. cbn. auto. Qed.

Lemma bind_keeps_run {A : Type} (m : io A) (f : A -> io unit) (w : world) :
  keeps m ->
  (forall a, framed server w (f a w)) ->
  framed server w (iobind m f w).
Proof.
  intros Hm Hf. unfold iobind. destruct (Hm w) as (t & [a|e] & ->).
  - specialize (Hf a). destruct (f a w) as [[t' w'] r].
    now apply (framed_then_run w t (t', w', r)).
  - unfold framed. cbn. auto.
Qed.

Lemma trace_bind_prefix {A B : Type} (m : io A) (f : A -> io B) (w : world) :
  exists rest, trace_of (iobind m f) w = (trace_of m w ++ rest)%list.
Proof.
  unfold trace_of, iobind. destruct (m w) as [[t w1] [a|e]].
  - destruct (f a w1) as [[t' w2] r]. cbn. eauto.
  - exists []. cbn. now rewrite app_nil_r.
Qed.

Lemma start_new_framed (ans : answers) (client : Client.gateway)
      (script : list (prompt_result * Client.gateway))
      (realm : option string) (w : world) :
  framed server w (start_new server ans client script realm w).
Proof.
  unfold start_new.
  apply bind_keeps_run.
  { destruct (truthy_opt realm); [apply keeps_ret | apply keeps_select_realm]. }
  intros chosen. destruct (negb (truthy_opt chosen)); [apply framed_keeps, keeps_ret|].
  apply bind_keeps_run; [apply keeps_attempt, keeps_call|].
  intros [camp|e];
    [|apply framed_keeps, keeps_bind;
      [apply keeps_print | intros _; apply keeps_raise]].
  apply bind_keeps_run; [apply keeps_print|intros _].
  apply bind_keeps_run; [apply keeps_print_opt|intros _].
  apply bind_keeps_run; [apply keeps_print|intros _].
  apply bind_keeps_run; [apply keeps_print|intros _].
  apply bind_keeps_run; [apply keeps_select_character|intros entity].
  destruct (negb (truthy_opt entity)); [apply framed_keeps, keeps_ret|].
  set (realm' := or_default chosen EmptyString).
  set (entity_id := or_default entity EmptyString).
  unfold iobind at 1. unfold attempt, call.
  destruct (start_session server realm' entity_id) as [result|e] eqn:Hs.
  - assert (Hrest : keeps
              (iobind (print Blank)
                 (fun _ =>
                    iobind (print_success (or_default (start_message result)
                                                      "Your adventure begins..."))
                      (fun _ =>
                         iobind (if truthy_opt (opening_narrative result)
                                 then iobind (print Blank)
                                        (fun _ => print_narrative
                                                    (or_default (opening_narrative result)
                                                                EmptyString) "neutral")
                                 else ret tt)
                           (fun _ => _game_loop client script))))).
    { apply keeps_bind; [apply keeps_print|intros _].
      apply keeps_bind; [apply keeps_print|intros _].
      apply keeps_bind; [|intros _; apply keeps_game_loop].
      destruct (truthy_opt (opening_narrative result)); [|apply keeps_ret].
      apply keeps_bind; [apply keeps_print | intros _; apply keeps_print]. }
    unfold iobind at 1. unfold write at 1.
    destruct (Hrest (World (set_current_session (stored_session result) (disk w))
                           (clock w))) as (t & r & ->).
    unfold framed. cbn [fst snd disk clock]. split; [reflexivity|].
    right. exists realm', entity_id, result.
    repeat split; auto. cbn. auto.
  - assert (Hk : keeps (iobind (print_error ("Failed to start session: " ++ str_exn e))
                               (fun _ => @raise unit (Exit 1)))).
    { apply keeps_bind; [apply keeps_print | intros _; apply keeps_raise]. }
    destruct (Hk w) as (t & r & ->). unfold framed. cbn. auto.
Qed.

(** C8: with a current session stored, no realm asked for and the
    resume prompt answered "n", [play] goes on to the selection of a
    realm; the stored current session stays as it was unless a
    start-session call succeeded, in which case it is overwritten by
    the session that call returned; the API URL, the API key, the
    session token and the user are never written, and neither is the
    guest identity, but for the one [get_client] makes up, before the
    prompt, for a store that holds no token, key or guest identity. *)
Theorem declined_resume_keeps_the_session :
  forall (fresh : string) (ans : answers) (client : Client.gateway)
         (script : list (prompt_result * Client.gateway)) (w : world),
    has_session (current_session (disk w)) = true ->
    resume ans = "n" ->
    let run := play fresh server ans client script None in
    (exists rest, calls (trace_of run w) = RListWorldsGrouped :: rest) /\
    api_url (disk_after run w) = api_url (disk w) /\
    api_key (disk_after run w) = api_key (disk w) /\
    session_token (disk_after run w) = session_token (disk w) /\
    stored_user (disk_after run w) = stored_user (disk w) /\
    guest_id (disk_after run w)
    = (if has_identity (disk w) then guest_id (disk w) else Some ("cli_" ++ fresh)) /\
    (current_session (disk_after run w) = current_session (disk w) \/
     exists realm entity result,
       start_session server realm entity = Ret result /\
       In (Call (RStartSession realm entity) None) (trace_of run w) /\
       current_session (disk_after run w) = Some (stored_session result)).
Proof.
  intros fresh ans client script w Hcur Hn run.
  set (w1 := World (with_identity fresh (disk w)) (clock w)).
  assert (Hcs : current_session (disk w1) = current_session (disk w)).
  { unfold w1, with_identity. cbn [disk]. now destruct (has_identity (disk w)). }
  assert (E : run w = start_new server ans client script None w1).
  { subst run. unfold play. unfold iobind at 1.
    destruct (get_client_run fresh w) as (c & ->). fold w1.
    unfold iobind at 1. unfold read at 1. rewrite Hcs, Hcur, Hn.
    cbn [truthy_opt negb andb String.eqb Ascii.eqb Bool.eqb].
    now destruct (start_new server ans client script None w1) as [[t w'] r]. }
  unfold trace_of, disk_after. rewrite E. split.
  - unfold start_new. cbn [truthy_opt].
    match goal with
    | |- context [fst (fst (iobind ?m ?f w1))] =>
        change (fst (fst (iobind m f w1))) with (trace_of (iobind m f) w1);
        destruct (trace_bind_prefix m f w1) as (rest1 & ->)
    end.
    unfold _select_realm.
    match goal with
    | |- context [trace_of (iobind ?m ?f) w1] =>
        destruct (trace_bind_prefix m f w1) as (rest2 & ->)
    end.
    unfold trace_of, attempt, call. cbn [fst].
    rewrite <- app_assoc. cbn [app calls]. eauto.
  - assert (Hw1 : api_url (disk w1) = api_url (disk w) /\
                   api_key (disk w1) = api_key (disk w) /\
                   session_token (disk w1) = session_token (disk w) /\
                   stored_user (disk w1) = stored_user (disk w) /\
                   guest_id (disk w1)
                   = (if has_identity (disk w) then guest_id (disk w)
                      else Some ("cli_" ++ fresh))).
    { unfold w1, with_identity. cbn [disk].
      destruct (has_identity (disk w)); repeat split. }
    destruct Hw1 as (H1 & H2 & H3 & H4 & H5).
    destruct (start_new_framed ans client script None w1)
      as [_ [Hd|(realm & entity & result & Hs & Hin & Hd)]];
      rewrite Hd;
      cbn [set_current_session api_url api_key session_token stored_user
           guest_id current_session];
      repeat split; auto.
    right. exists realm, entity, result. auto.
Qed.

(** Whatever [play] does, it leaves a store that holds an identity:
    a current session is never stored without one. *)
Lemma play_leaves_identity (fresh : string) (ans : answers)
      (client : Client.gateway) (script : list (prompt_result * Client.gateway))
      (realm : option string) (w : world) :
  has_identity (disk_after (play fresh server ans client script realm) w) = true.
Proof.
  unfold disk_after, play. unfold iobind at 1.
  destruct (get_client_run fresh w) as (c & ->).
  set (w1 := World (with_identity fresh (disk w)) (clock w)).
  assert (Hid : has_identity (disk w1) = true).
  { unfold w1, with_identity. cbn [disk].
    destruct (has_identity (disk w)) eqn:E; [exact E|].
    unfold has_identity. cbn. now rewrite !orb_true_r. }
  unfold iobind at 1. unfold read at 1.
  assert (Hf : forall m : io unit, framed server w1 (m w1) ->
               has_identity (disk (snd (fst (m w1)))) = true).
  { intros m [_ [->|(r & e & res & _ & _ & ->)]]; exact Hid. }
  destruct (has_session (current_session (disk w1)) && negb (truthy_opt realm)).
  - destruct (resume ans =? "y").
    + specialize (Hf (_game_loop client script)
                     (framed_keeps _ w1 (keeps_game_loop client script))).
      now destruct (_game_loop client script w1) as [[t w2] r].
    + specialize (Hf _ (start_new_framed ans client script realm w1)).
      now destruct (start_new server ans client script realm w1) as [[t w2] r].
  - specialize (Hf _ (start_new_framed ans client script realm w1)).
    now destruct (start_new server ans client script realm w1) as [[t w2] r].
Qed.

End PlayClaims.

Section PlayWitness.
Import PyStr Config IO Game Session Observe Shape Fixtures.

Lemma declined_resume_keeps_the_session_witness :
  let run := play "f00d" emberfall declines offline [] None in
  (exists rest, calls (trace_of run (World returning 0))
                = RListWorldsGrouped :: rest) /\
  api_url (disk_after run (World returning 0)) = api_url returning /\
  api_key (disk_after run (World returning 0)) = api_key returning /\
  session_token (disk_after run (World returning 0)) = session_token returning /\
  stored_user (disk_after run (World returning 0)) = stored_user returning /\
  guest_id (disk_after run (World returning 0))
  = (if has_identity returning then guest_id returning else Some ("cli_" ++ "f00d")) /\
  (current_session (disk_after run (World returning 0)) = current_session returning \/
   exists realm entity result,
     start_session emberfall realm entity = Ret result /\
     In (Call (RStartSession realm entity) None)
        (trace_of run (World returning 0)) /\
     current_session (disk_after run (World returning 0))
     = Some (stored_session result)).
Proof.
  apply (declined_resume_keeps_the_session emberfall "f00d" declines offline []
           (World returning 0)); reflexivity.
Defined.

End PlayWitness.

(** * Further properties of the code *)

(** ** More facts about the [str] methods *)

Section MoreStrFacts.
Import PyStr Re Reading.

Lemma startswith_split (p s : string) :
  startswith p s = true -> s = p ++ drop (String.length p) s.
Proof.
  revert s; induction p as [|a p IH]; intros s H; simpl in *; [now destruct s|].
  destruct s as [|b s]; [discriminate|].
  apply andb_prop in H as [Hab H]. apply Ascii.eqb_eq in Hab. subst b.
  simpl. f_equal. now apply IH.
Qed.

Lemma find_from_here (sub s : string) (k : nat) :
  find_from sub s k = Some k -> startswith sub s = true.
Proof.
  intros H. destruct (startswith sub s) eqn:E; [reflexivity|].
  destruct s as [|a s]; unfold find_from in H; fold find_from in H; rewrite E in H;
    [discriminate|].
  apply find_from_bound in H. lia.
Qed.

Lemma find_from_sound (sub s : string) :
  forall k j, find_from sub s k = Some j -> exists u v, s = u ++ sub ++ v.
Proof.
  induction s as [|a s IH]; intros k j H; unfold find_from in H; fold find_from in H.
  - destruct (startswith sub EmptyString) eqn:E; [|discriminate].
    apply startswith_split in E. exists EmptyString. eexists. exact E.
  - destruct (startswith sub (String a s)) eqn:E.
    + apply startswith_split in E. exists EmptyString. eexists. exact E.
    + apply IH in H as (u & v & ->). exists (String a u), v. reflexivity.
Qed.

Lemma contains_occurs (sub u v : string) : contains sub (u ++ sub ++ v) = true.
Proof.
  unfold contains. destruct (find_from_occurs sub u v 0) as (i & -> & _). reflexivity.
Qed.

Lemma contains_sound (sub s : string) :
  contains sub s = true -> exists u v, s = u ++ sub ++ v.
Proof.
  unfold contains. destruct (find_from sub s 0) eqn:E; [|discriminate].
  intros _. now apply find_from_sound in E.
Qed.

(** [a in b] and [b in s] give [a in s]. *)
Lemma contains_trans (a b s : string) :
  contains a b = true -> contains b s = true -> contains a s = true.
Proof.
  intros Hab Hbs.
  apply contains_sound in Hab as (u & v & ->).
  apply contains_sound in Hbs as (u' & v' & ->).
  replace (u' ++ (u ++ a ++ v) ++ v') with ((u' ++ u) ++ a ++ (v ++ v'))
    by now rewrite !append_assoc.
  apply contains_occurs.
Qed.

Lemma lower_char_idem (c : ascii) : lower_char (lower_char c) = lower_char c.
Proof. destruct c as [[] [] [] [] [] [] [] []]; reflexivity. Qed.

Lemma lower_idem (s : string) : lower (lower s) = lower s.
Proof.
  induction s as [|a s IH]; [reflexivity|]. cbn [lower].
  now rewrite lower_char_idem, IH.
Qed.

Lemma lower_char_newline (c : ascii) :
  in_class CAny (lower_char c) = in_class CAny c.
Proof. destruct c as [[] [] [] [] [] [] [] []]; reflexivity. Qed.

Lemma lower_one_line (s : string) :
  all_chars (in_class CAny) s = true -> all_chars (in_class CAny) (lower s) = true.
Proof.
  induction s as [|a s IH]; [reflexivity|]. cbn [lower all_chars]. intros H.
  apply andb_prop in H as [Ha H]. now rewrite lower_char_newline, Ha, IH.
Qed.

Lemma all_chars_app (p : ascii -> bool) (u v : string) :
  all_chars p (u ++ v) = all_chars p u && all_chars p v.
Proof.
  induction u as [|a u IH]; [reflexivity|]. simpl. now rewrite IH, andb_assoc.
Qed.

Lemma space_is_no_word (c : ascii) : isspace c = true -> is_word c = false.
Proof. destruct c as [[] [] [] [] [] [] [] []]; (reflexivity || discriminate). Qed.

Lemma word_is_no_space (c : ascii) : is_word c = true -> isspace c = false.
Proof. destruct c as [[] [] [] [] [] [] [] []]; (reflexivity || discriminate). Qed.

(** A run of a class ends where the text stops being of the class:
    there is one way to split a text into a run and what stops it. *)
Lemma run_unique (p : ascii -> bool) (u1 : string) :
  forall u2 r1 r2,
    all_chars p u1 = true -> all_chars p u2 = true ->
    stops p r1 -> stops p r2 ->
    u1 ++ r1 = u2 ++ r2 -> u1 = u2 /\ r1 = r2.
Proof.
  induction u1 as [|a u1 IH]; intros [|b u2] r1 r2 H1 H2 S1 S2 E; simpl in *.
  - auto.
  - subst r1. simpl in S1. apply andb_prop in H2 as [Hb _]. congruence.
  - subst r2. simpl in S2. apply andb_prop in H1 as [Ha _]. congruence.
  - injection E as -> E.
    apply andb_prop in H1 as [_ H1]. apply andb_prop in H2 as [_ H2].
    destruct (IH _ _ _ H1 H2 S1 S2 E) as [-> ->]. auto.
Qed.

Lemma stops_run (p q : ascii -> bool) (u r : string) :
  (forall c, q c = true -> p c = false) ->
  u <> EmptyString -> all_chars q u = true -> stops p (u ++ r).
Proof.
  intros Hpq Hu Hq. destruct u as [|c u]; [congruence|]. simpl in *.
  apply andb_prop in Hq as [Hc _]. auto.
Qed.

End MoreStrFacts.

(** ** The matcher finds a reading when there is one *)

Section MatcherComplete.
Import PyStr Re ReSpec.
Variable R : Type.

Lemma star_k_complete (k : cclass) (w : string) :
  forall (s : string) (i : nat) (cont : string -> nat -> option R) (res : R),
    all_chars (in_class k) w = true ->
    cont s (i + String.length w) = Some res ->
    exists res', star_k k (w ++ s) i cont = Some res'.
Proof.
  induction w as [|a w IH]; intros s i cont res Hw Hc; simpl in *.
  - rewrite Nat.add_0_r in Hc. destruct s as [|b s]; simpl; [eauto|].
    destruct (in_class k b); [|eauto].
    destruct (star_k k s (S i) cont); eauto.
  - apply andb_prop in Hw as [Ha Hw]. rewrite Ha.
    rewrite Nat.add_succ_r in Hc.
    destruct (IH s (S i) cont res Hw Hc) as [r' ->]. eauto.
Qed.

Lemma lit_k_append (w s : string) (i : nat) (cont : string -> nat -> option R) :
  lit_k w (w ++ s) i cont = cont s (i + String.length w).
Proof.
  revert i; induction w as [|a w IH]; intros i; simpl.
  - now rewrite Nat.add_0_r.
  - rewrite Ascii.eqb_refl, IH. now rewrite Nat.add_succ_r.
Qed.

Theorem rmatch_complete (r : regex) (st st' : mstate) :
  Matches r st st' ->
  forall (cont : mstate -> option R) (res : R),
    cont st' = Some res -> exists res', rmatch r st cont = Some res'.
Proof.
  induction 1 as [st Hp|st He|w s i c|k a s i c Ha|k w s i c Hne Hw|k w s i c Hw
                  |r st st' HM IH|r st|r1 r2 st st' HM IH|r1 r2 st st' HM IH
                  |r1 r2 st st1 st2 HM1 IH1 HM2 IH2|n r st st' HM IH];
    intros cont res Hc; simpl.
  - rewrite Hp. simpl. eauto.
  - destruct He as [-> | ->]; [eauto|]. rewrite Ascii.eqb_refl. eauto.
  - rewrite lit_k_append. eauto.
  - rewrite Ha. eauto.
  - destruct w as [|a w]; [congruence|]. simpl in *.
    apply andb_prop in Hw as [Ha Hw]. rewrite Ha.
    rewrite Nat.add_succ_r in Hc.
    apply (star_k_complete k w s (S i) _ res Hw Hc).
  - apply (star_k_complete k w s i _ res Hw Hc).
  - destruct (IH cont res Hc) as [r' ->]. eauto.
  - destruct (rmatch r st cont); eauto.
  - destruct (IH cont res Hc) as [r' ->]. eauto.
  - destruct (rmatch r1 st cont); [eauto|]. apply (IH cont res Hc).
  - destruct (IH2 cont res Hc) as [r' Hr']. apply (IH1 _ r' Hr').
  - apply (IH _ res Hc).
Qed.

End MatcherComplete.

(** ** What the parsers hand over *)

Section ParsedText.
Import PyStr Re ReSpec Router Observe Reading.

(** The text cut out of the line for a body [g] that the lowered line
    holds. *)
Lemma cut_is_sent (text g u v : string) :
  strip (lower text) = u ++ g ++ v -> g <> EmptyString ->
  sent_text text
            (if (0 <? find (strip (lower text)) g)%Z
             then slice_from text (find (strip (lower text)) g) else g).
Proof.
  intros Hs Hg. pose proof (length_text_lower text) as Hlen.
  destruct (find_occurs _ _ _ _ Hs) as [H0 Hb].
  assert (Hgl : 0 < String.length g) by (destruct g; simpl; [congruence | lia]).
  destruct (0 <? find (strip (lower text)) g)%Z eqn:Hpos.
  - apply Z.ltb_lt in Hpos. unfold slice_from.
    destruct (find (strip (lower text)) g <? 0)%Z eqn:Hneg; [lia|].
    split.
    + assert (Hl : 0 < String.length (drop (Z.to_nat (find (strip (lower text)) g)) text))
        by (rewrite length_drop; lia).
      destruct (drop (Z.to_nat (find (strip (lower text)) g)) text);
        simpl in *; [lia | reflexivity].
    + left. exists (Z.to_nat (find (strip (lower text)) g)). split; [lia | reflexivity].
  - apply Z.ltb_ge in Hpos. split; [destruct g; [congruence | reflexivity]|].
    right. unfold find in *.
    destruct (find_from g (strip (lower text)) 0) as [i|] eqn:E; [|lia].
    assert (i = 0) by lia. subst i. now apply find_from_here in E.
Qed.

Lemma dm_scan_sends (text : string) (patterns : list regex) :
  Forall dm_shaped patterns ->
  forall recipient message,
    dm_scan text (strip (lower text)) patterns = Ret (Some (recipient, message)) ->
    sent_text text message.
Proof.
  induction 1 as [|p ps Hp Hps IH]; intros recipient message H; simpl in H;
    [discriminate|].
  destruct (re_match p (strip (lower text))) as [m|] eqn:E; [|eauto].
  destruct (dm_shaped_groups _ _ _ Hp E)
    as (w & g & u & v & Hg1 & _ & _ & _ & Hg2 & Hg & Hs).
  rewrite Hg2 in H. injection H as _ <-. now apply cut_is_sent with u v.
Qed.

Lemma global_scan_sends (text : string) (patterns : list regex) :
  Forall global_shaped patterns ->
  forall message,
    global_scan text (strip (lower text)) patterns = Ret (Some message) ->
    sent_text text message.
Proof.
  induction 1 as [|p ps Hp Hps IH]; intros message H; simpl in H; [discriminate|].
  destruct (re_match p (strip (lower text))) as [m|] eqn:E; [|eauto].
  destruct (global_shaped_groups _ _ _ Hp E) as (g & u & v & Hg1 & Hg & Hs).
  rewrite Hg1 in H. injection H as <-. now apply cut_is_sent with u v.
Qed.

(** X1: whatever a chat parser hands over as the message is some
    text, never the empty string, and it is either a proper end of the
    line as it was typed (what follows its first k characters, k > 0)
    or the start of the lowered, stripped line. *)
Theorem parsed_message_is_cut_from_the_line :
  forall text : string,
    (forall recipient message,
        _parse_dm_intent text = Ret (Some (recipient, message)) ->
        sent_text text message) /\
    (forall message,
        _parse_global_chat_intent text = Ret (Some message) ->
        sent_text text message).
Proof.
  intros text. split.
  - apply dm_scan_sends, dm_patterns_shaped.
  - apply global_scan_sends, global_patterns_shaped.
Qed.

Lemma parsed_message_is_cut_from_the_line_witness :
  sent_text "Message Kira I Found The Treasure" "I Found The Treasure" /\
  sent_text "DM DM DM" "dm".
Proof.
  split.
  - apply (proj1 (parsed_message_is_cut_from_the_line
                    "Message Kira I Found The Treasure") (Some "kira")).
    reflexivity.
  - apply (proj1 (parsed_message_is_cut_from_the_line "DM DM DM") (Some "dm")).
    reflexivity.
Defined.

End ParsedText.

(** ** Capitals do not change the route *)

Section Capitals.
Import PyStr Re ReSpec Router Observe Reading.

Lemma dm_scan_route (text1 text2 text_lower : string) (patterns : list regex) :
  match dm_scan text1 text_lower patterns, dm_scan text2 text_lower patterns with
  | Ret (Some (r1, _)), Ret (Some (r2, _)) => r1 = r2
  | Ret None, Ret None => True
  | Raise e1, Raise e2 => e1 = e2
  | _, _ => False
  end.
Proof.
  induction patterns as [|p ps IH]; simpl; [exact I|].
  destruct (re_match p text_lower) as [m|]; [|exact IH].
  destruct (group m 2); reflexivity.
Qed.

Lemma global_scan_route (text1 text2 text_lower : string) (patterns : list regex) :
  match global_scan text1 text_lower patterns,
        global_scan text2 text_lower patterns with
  | Ret (Some _), Ret (Some _) => True
  | Ret None, Ret None => True
  | Raise e1, Raise e2 => e1 = e2
  | _, _ => False
  end.
Proof.
  induction patterns as [|p ps IH]; simpl; [exact I|].
  destruct (re_match p text_lower) as [m|]; [|exact IH].
  destruct (group m 1); reflexivity.
Qed.

(** X2: two lines that are the same once lowered are given the same
    route: the same kind of intent and, for a direct message, the same
    recipient; capitals only ever show in the text that is sent. *)
Theorem capitals_do_not_change_the_route :
  forall text1 text2 : string,
    lower text1 = lower text2 ->
    option_map without_body (spec_classify text1)
    = option_map without_body (spec_classify text2).
Proof.
  intros text1 text2 H. unfold spec_classify, _parse_dm_intent, _parse_inbox_intent,
    _parse_global_chat_intent. rewrite <- H.
  pose proof (dm_scan_route text1 text2 (strip (lower text1)) dm_patterns) as Hd.
  pose proof (global_scan_route text1 text2 (strip (lower text1)) global_patterns)
    as Hg.
  destruct (dm_scan text1 (strip (lower text1)) dm_patterns) as [[[r1 m1]|]|e1];
    destruct (dm_scan text2 (strip (lower text1)) dm_patterns) as [[[r2 m2]|]|e2];
    try contradiction; try reflexivity.
  - subst r2. reflexivity.
  - destruct (existsb _ inbox_phrases); [reflexivity|].
    destruct (global_scan text1 (strip (lower text1)) global_patterns)
      as [[g1|]|e1];
      destruct (global_scan text2 (strip (lower text1)) global_patterns)
        as [[g2|]|e2];
      try contradiction; reflexivity.
Qed.

Lemma capitals_do_not_change_the_route_witness :
  option_map without_body (spec_classify "Tell Kira MEET me")
  = option_map without_body (spec_classify "tell kira meet ME").
Proof.
  apply (capitals_do_not_change_the_route "Tell Kira MEET me" "tell kira meet ME").
  reflexivity.
Defined.

End Capitals.

(** ** The inbox phrases *)

Section InboxPhrases.
Import PyStr Re Router Observe Reading.

(** X3: seven of the fourteen inbox phrases decide the test: each of
    the other seven holds "messages" or "inbox", so a line holds one of
    the fourteen exactly when it holds one of "inbox", "messages",
    "mail", "dms", "who messaged me", "who wrote me" and "unread". *)
Theorem seven_inbox_phrases_decide :
  forall text : string,
    _parse_inbox_intent text
    = existsb (fun phrase => contains phrase (strip (lower text))) inbox_core.
Proof.
  intros text. unfold _parse_inbox_intent.
  generalize (strip (lower text)) as s. intros s.
  apply eq_true_iff_eq. rewrite !existsb_exists. split.
  - intros (p & Hin & Hp).
    assert (Hcore : exists q, In q inbox_core /\ contains q p = true).
    { unfold inbox_phrases in Hin. cbn [In] in Hin.
      repeat (destruct Hin as [<-|Hin];
              [first [ exists "inbox"; split; [cbn; tauto | reflexivity]
                     | exists "messages"; split; [cbn; tauto | reflexivity]
                     | exists "mail"; split; [cbn; tauto | reflexivity]
                     | exists "dms"; split; [cbn; tauto | reflexivity]
                     | exists "who messaged me"; split; [cbn; tauto | reflexivity]
                     | exists "who wrote me"; split; [cbn; tauto | reflexivity]
                     | exists "unread"; split; [cbn; tauto | reflexivity] ]|]).
      contradiction. }
    destruct Hcore as (q & Hq & Hqp). exists q. split; [exact Hq|].
    now apply contains_trans with p.
  - intros (q & Hin & Hq). exists q. split; [|exact Hq].
    unfold inbox_core in Hin. unfold inbox_phrases. cbn [In] in *. tauto.
Qed.

End InboxPhrases.

(** ** Lines that one pattern takes from another *)

Section Shadows.
Import PyStr Re ReSpec Router Config IO Game Observe Shape Reading.

Lemma Matches_reads (r : regex) (st st' : mstate) :
  Matches r st st' -> exists x, rest st = x ++ rest st'.
Proof.
  induction 1 as [st Hp|st He|w s i c|k a s i c Ha|k w s i c Hne Hw|k w s i c Hw
                  |r st st' HM IH|r st|r1 r2 st st' HM IH|r1 r2 st st' HM IH
                  |r1 r2 st st1 st2 HM1 IH1 HM2 IH2|n r st st' HM IH];
    simpl; try (exists EmptyString; reflexivity); eauto.
  - exists (String a EmptyString). reflexivity.
  - destruct IH1 as [x ->]. destruct IH2 as [y ->]. exists (x ++ y).
    now rewrite append_assoc.
Qed.

Lemma Chain_reads (l : list regex) (st st' : mstate) :
  Chain l st st' -> exists x, rest st = x ++ rest st'.
Proof.
  induction 1 as [st|r rs st st1 st2 HM HC IH]; [exists EmptyString; reflexivity|].
  apply Matches_reads in HM as [x ->]. destruct IH as [y ->]. exists (x ++ y).
  now rewrite append_assoc.
Qed.

(** The readings behind the two groups of a direct-message pattern. *)
Lemma dm_reads (pre mid : list regex) (p : regex) (s : string) (m : mobj) :
  forallb group_free pre = true -> forallb group_free mid = true ->
  spine p = (pre ++ Grp 1 (Plus CWord) :: mid ++ [Grp 2 (Plus CAny); Eol])%list ->
  re_match p s = Some m ->
  exists st1 st2 st3 st4 w g,
    Chain pre (MState s 0 []) st1 /\ rest st1 = w ++ rest st2 /\
    Chain mid st2 st3 /\ rest st3 = g ++ rest st4 /\
    (rest st4 = EmptyString \/ rest st4 = String newline EmptyString) /\
    w <> EmptyString /\ all_chars is_word w = true /\
    g <> EmptyString /\ all_chars (in_class CAny) g = true /\
    group m 1 = Some w /\ group m 2 = Some g.
Proof.
  intros Hpre Hmid Hsp H.
  apply re_match_reads in H as (stf & HC & Hm). rewrite Hsp in HC.
  apply Chain_app in HC as (st1 & H1 & HC).
  apply Chain_cons_inv in HC as (st2 & Hg1 & HC).
  apply Chain_app in HC as (st3 & H3 & HC).
  apply Chain_cons_inv in HC as (st4 & Hg2 & HC).
  apply Chain_end in HC as [-> Hend].
  destruct (Chain_group_free s _ _ _ H1 Hpre) as [Hc1 Hp1].
  specialize (Hp1 (at_pos_start s)).
  destruct (group_plus_reads _ _ _ _ _ Hg1 Hp1)
    as (w & Hw & Hcw & Hcap1 & Hsl1 & Hr1 & Hp2).
  destruct (Chain_group_free s _ _ _ H3 Hmid) as [Hc3 Hp3]. specialize (Hp3 Hp2).
  destruct (group_plus_reads _ _ _ _ _ Hg2 Hp3)
    as (g & Hgne & Hcg & Hcap2 & Hsl2 & Hr2 & _).
  exists st1, st2, st3, st4, w, g. subst m. unfold group. simpl.
  rewrite Hcap2, Hc3, Hcap1. simpl. rewrite Hsl1, Hsl2.
  repeat split; auto.
Qed.

Lemma Matches_lit_inv (w : string) (st st' : mstate) :
  Matches (Lit w) st st' ->
  rest st = w ++ rest st' /\ caps st' = caps st /\ pos st' = pos st + String.length w.
Proof. intros H. inversion H; subst. simpl. auto. Qed.

Lemma Matches_plus_inv (k : cclass) (st st' : mstate) :
  Matches (Plus k) st st' ->
  exists w, w <> EmptyString /\ all_chars (in_class k) w = true /\
            rest st = w ++ rest st'.
Proof. intros H. inversion H; subst. simpl. eauto. Qed.

Lemma Matches_bol_inv (st st' : mstate) : Matches Bol st st' -> st' = st.
Proof. intros H. now inversion H. Qed.

Lemma Chain_nil_inv (st st' : mstate) : Chain [] st st' -> st' = st.
Proof. intros H. now inversion H. Qed.

(** A reading of an alternation of words reads one of them. *)
Lemma Matches_words_inv (ws : list string) :
  forall (w : string) (st st' : mstate),
    Matches (words w ws) st st' ->
    exists v, In v (w :: ws) /\ rest st = v ++ rest st'.
Proof.
  induction ws as [|w' ws IH]; intros w st st' H; cbn [words] in H.
  - apply Matches_lit_inv in H as [H _]. exists w. simpl. auto.
  - inversion H as [| | | | | | | |r1 r2 st0 st1 HM|r1 r2 st0 st1 HM| |]; subst.
    + apply Matches_lit_inv in HM as [HM _]. exists w. simpl. auto.
    + apply IH in HM as (v & Hin & Hv). exists v. split; [now right | exact Hv].
Qed.

Lemma Matches_words_intro (ws : list string) :
  forall (w v s : string) (i : nat) (c : list (nat * (nat * nat))),
    In v (w :: ws) ->
    Matches (words w ws) (MState (v ++ s) i c) (MState s (i + String.length v) c).
Proof.
  induction ws as [|w' ws IH]; intros w v s i c Hin; cbn [words].
  - destruct Hin as [<-|[]]. constructor.
  - destruct Hin as [<-|Hin]; [apply MAltL; constructor | apply MAltR, IH, Hin].
Qed.

Lemma dm_scan_skip (text text_lower : string) (p : regex) (ps : list regex) :
  re_match p text_lower = None ->
  dm_scan text text_lower (p :: ps) = dm_scan text text_lower ps.
Proof. intros H. cbn [dm_scan]. now rewrite H. Qed.

Lemma stripped_is_truthy (text u : string) :
  strip (lower text) = u -> u <> EmptyString -> truthy text = true.
Proof. intros H Hu. destruct text; [now subst u | reflexivity]. Qed.

(** X4: a line that, lowered and stripped, reads [tell], blanks, a
    word, blanks and some more text with no line break in it is a
    direct message to that word, whatever the word is: so for
    "everyone", "all" and "everybody", which the second global-chat
    pattern was written for; the round sends the direct message and
    nothing else. *)
Theorem tell_and_a_word_is_a_direct_message :
  forall (client : Client.gateway) (text sp1 w sp2 b : string) (wd : world),
    strip (lower text) = "tell" ++ sp1 ++ w ++ sp2 ++ b ->
    sp1 <> EmptyString -> all_chars isspace sp1 = true ->
    w <> EmptyString -> all_chars is_word w = true ->
    sp2 <> EmptyString -> all_chars isspace sp2 = true ->
    b <> EmptyString -> all_chars (in_class CAny) b = true ->
    exists message,
      _parse_dm_intent text = Ret (Some (Some w, message)) /\
      calls (trace_of (loop_body client text) wd) = [RSendDm (Some w) message].
Proof.
  intros client text sp1 w sp2 b wd Hs Hsp1 Hc1 Hw Hcw Hsp2 Hc2 Hb Hcb.
  set (p2 := nth 1 dm_patterns Bol).
  assert (Hnone : re_match (nth 0 dm_patterns Bol) (strip (lower text)) = None)
    by (rewrite Hs; reflexivity).
  assert (Hsome : exists m, re_match p2 (strip (lower text)) = Some m).
  { unfold re_match. rewrite Hs.
    eapply rmatch_complete; [|reflexivity].
    unfold p2. cbn [nth dm_patterns].
    apply MSeq with (MState ("tell" ++ sp1 ++ w ++ sp2 ++ b) 0 []);
      [now constructor|].
    eapply MSeq; [apply MLit|].
    eapply MSeq; [apply (MPlus CSpace); assumption|].
    eapply MSeq; [apply MGrp, (MPlus CWord); assumption|].
    eapply MSeq; [apply (MPlus CSpace); assumption|].
    eapply MSeq; [apply MOptNo|].
    eapply MSeq; [apply MGrp|].
    - rewrite <- (append_nil_r b) at 1. apply (MPlus CAny); assumption.
    - constructor. simpl. auto. }
  destruct Hsome as [m Hm].
  destruct (dm_reads [Bol; Lit "tell"; ws1] [ws1; Opt (Seq (Lit "that") ws1)]
                     p2 _ m eq_refl eq_refl eq_refl Hm)
    as (st1 & st2 & st3 & st4 & w' & g & Hpre & Hr1 & Hmid & _ & _
        & Hw' & Hcw' & _ & _ & Hg1 & Hg2).
  assert (Hww : w' = w).
  { apply Chain_cons_inv in Hpre as (sa & Ha & Hpre). apply Matches_bol_inv in Ha.
    subst sa.
    apply Chain_cons_inv in Hpre as (sb & Hb' & Hpre).
    apply Matches_lit_inv in Hb' as (Hb' & _).
    apply Chain_cons_inv in Hpre as (sc & Hc' & Hpre).
    apply Matches_plus_inv in Hc' as (sp & Hspne & Hspc & Hc').
    apply Chain_nil_inv in Hpre. subst st1.
    apply Chain_cons_inv in Hmid as (sd & Hd & _).
    apply Matches_plus_inv in Hd as (sq & Hsqne & Hsqc & Hd).
    cbn [rest] in Hb'. rewrite Hs, Hc', Hr1, Hd in Hb'.
    cbn in Hb'. injection Hb' as Hb'.
    destruct (run_unique isspace sp1 sp (w ++ sp2 ++ b) (w' ++ sq ++ rest sd))
      as [_ E]; auto.
    - apply stops_run with is_word; auto using word_is_no_space.
    - apply stops_run with is_word; auto using word_is_no_space.
    - destruct (run_unique is_word w w' (sp2 ++ b) (sq ++ rest sd)) as [E' _]; auto.
      + apply stops_run with isspace; auto using space_is_no_word.
      + apply stops_run with isspace; auto using space_is_no_word. }
  subst w'.
  assert (Hdm : exists message, _parse_dm_intent text = Ret (Some (Some w, message))).
  { unfold _parse_dm_intent.
    change dm_patterns
      with (nth 0 dm_patterns Bol :: p2 :: skipn 2 dm_patterns).
    rewrite (dm_scan_skip _ _ _ _ Hnone). cbn [dm_scan]. rewrite Hm, Hg1, Hg2.
    eauto. }
  destruct Hdm as [message Hdm]. exists message. split; [exact Hdm|].
  assert (Ht : truthy text = true)
    by (apply (stripped_is_truthy _ _ Hs); discriminate).
  assert (Hsl : startswith "/" (strip (lower text)) = false)
    by (rewrite Hs; reflexivity).
  destruct (routed_round client text wd Ht Hsl) as (i & t & Hi & E & H).
  unfold spec_classify in Hi. rewrite Hdm in Hi. injection Hi as <-.
  unfold trace_of. rewrite E. now apply one_call_calls.
Qed.

Lemma tell_and_a_word_is_a_direct_message_witness :
  exists message,
    _parse_dm_intent "Tell everybody  the gate is open"
    = Ret (Some (Some "everybody", message)) /\
    calls (trace_of (loop_body Fixtures.offline "Tell everybody  the gate is open")
                    Fixtures.w0)
    = [RSendDm (Some "everybody") message].
Proof.
  apply (tell_and_a_word_is_a_direct_message
           Fixtures.offline "Tell everybody  the gate is open"
           " " "everybody" "  " "the gate is open" Fixtures.w0);
    first [reflexivity | discriminate].
Defined.

Lemma one_line_rest (x y : string) :
  all_chars (in_class CAny) (x ++ y) = true ->
  y = EmptyString \/ y = String newline EmptyString -> y = EmptyString.
Proof.
  intros H [->| ->]; [reflexivity|].
  rewrite all_chars_app in H. apply andb_prop in H as [_ H]. discriminate.
Qed.

(** On a line with no line break, what the fourth direct-message
    pattern reads, the first reads too. *)
Lemma fourth_needs_first (s : string) :
  all_chars (in_class CAny) s = true ->
  re_match (nth 3 dm_patterns Bol) s <> None ->
  re_match (nth 0 dm_patterns Bol) s <> None.
Proof.
  intros Hline H4.
  destruct (re_match (nth 3 dm_patterns Bol) s) as [m|] eqn:Hm; [clear H4|congruence].
  destruct (dm_reads
              [Bol; words "message" ["dm"; "pm"]; ws1]
              [ws1; Opt (Seq (Lit "and") ws1);
               Alt (Lit "say") (Seq (Lit "tell") (Seq ws1 (Lit "them"))); ws1]
              (nth 3 dm_patterns Bol) s m eq_refl eq_refl eq_refl Hm)
    as (st1 & st2 & st3 & st4 & w & g & Hpre & Hr1 & Hmid & Hr3 & Hend
        & Hw & Hcw & Hg & Hcg & _ & _).
  apply Chain_cons_inv in Hpre as (sa & Ha & Hpre). apply Matches_bol_inv in Ha.
  subst sa.
  apply Chain_cons_inv in Hpre as (sb & Hv & Hpre).
  apply Matches_words_inv in Hv as (v & Hin & Hv).
  apply Chain_cons_inv in Hpre as (sc & Hsp & Hpre).
  apply Matches_plus_inv in Hsp as (sp & Hspne & Hspc & Hsp).
  apply Chain_nil_inv in Hpre. subst st1.
  apply Chain_cons_inv in Hmid as (sd & Hsq & Hmid).
  apply Matches_plus_inv in Hsq as (sq & Hsqne & Hsqc & Hsq).
  apply Chain_reads in Hmid as (x & Hx).
  cbn [rest] in Hv. rewrite Hsp, Hr1, Hsq, Hx, Hr3 in Hv.
  assert (He : rest st4 = EmptyString).
  { apply (one_line_rest (v ++ sp ++ w ++ sq ++ x ++ g)); [|exact Hend].
    rewrite <- Hline, Hv. f_equal. now rewrite !append_assoc. }
  rewrite He, append_nil_r in Hv.
  assert (Hbody : all_chars (in_class CAny) (x ++ g) = true).
  { rewrite Hv, !all_chars_app in Hline.
    repeat (apply andb_prop in Hline as [? Hline]).
    rewrite all_chars_app. now apply andb_true_intro. }
  assert (Hbne : x ++ g <> EmptyString).
  { destruct x; [exact Hg | discriminate]. }
  assert (Hv1 : In v ["dm"; "message"; "msg"; "whisper"; "pm"])
    by (cbn [In] in *; tauto).
  assert (HM : exists st', Matches (nth 0 dm_patterns Bol) (MState s 0 []) st').
  { rewrite Hv. eexists. cbn [nth dm_patterns].
    eapply MSeq; [now constructor|].
    eapply MSeq; [apply (Matches_words_intro _ "dm" v); exact Hv1|].
    eapply MSeq; [apply (MPlus CSpace); assumption|].
    eapply MSeq; [apply MGrp, (MPlus CWord); assumption|].
    eapply MSeq; [apply (MPlus CSpace); assumption|].
    eapply MSeq; [apply MGrp|].
    - rewrite <- (append_nil_r (x ++ g)) at 1. apply (MPlus CAny); assumption.
    - constructor. simpl. auto. }
  destruct HM as [st' HM]. unfold re_match.
  destruct (rmatch_complete _ _ _ _ HM (fun st => Some (MObj s (caps st))) _ eq_refl)
    as [res ->].
  discriminate.
Qed.

(** X5: on a line with no line break in it the fourth
    direct-message pattern, the one written for "message <name> and
    say <text>" and "dm <name> tell them <text>", never decides: every
    line it reads is read by the first pattern before it, so that the
    parser without it gives the same answer, and the words "and say"
    or "tell them" stay in the message. *)
Theorem fourth_dm_pattern_never_decides :
  forall text : string,
    all_chars (in_class CAny) text = true ->
    _parse_dm_intent text = dm_scan text (strip (lower text)) dm_patterns_but_fourth.
Proof.
  intros text Hline.
  assert (Hl : all_chars (in_class CAny) (strip (lower text)) = true)
    by now apply all_chars_rstrip, all_chars_lstrip, lower_one_line.
  pose proof (fourth_needs_first _ Hl) as H41.
  unfold _parse_dm_intent.
  change dm_patterns
    with (nth 0 dm_patterns Bol :: nth 1 dm_patterns Bol :: nth 2 dm_patterns Bol
          :: nth 3 dm_patterns Bol :: skipn 4 dm_patterns).
  change dm_patterns_but_fourth
    with (nth 0 dm_patterns Bol :: nth 1 dm_patterns Bol :: nth 2 dm_patterns Bol
          :: skipn 4 dm_patterns).
  cbn [dm_scan].
  destruct (re_match (nth 0 dm_patterns Bol) (strip (lower text))) eqn:E0;
    [reflexivity|].
  destruct (re_match (nth 1 dm_patterns Bol) (strip (lower text))); [reflexivity|].
  destruct (re_match (nth 2 dm_patterns Bol) (strip (lower text))); [reflexivity|].
  destruct (re_match (nth 3 dm_patterns Bol) (strip (lower text))) eqn:E3;
    [|reflexivity].
  exfalso. apply H41; [discriminate | reflexivity].
Qed.

Lemma fourth_dm_pattern_never_decides_witness :
  _parse_dm_intent "pm Zed and tell them Hi"
  = dm_scan "pm Zed and tell them Hi" (strip (lower "pm Zed and tell them Hi"))
            dm_patterns_but_fourth.
Proof.
  apply (fourth_dm_pattern_never_decides "pm Zed and tell them Hi"). reflexivity.
Defined.

End Shadows.

(** ** The game loop as a whole *)

Section WholeLoop.
Import PyStr Config IO Router Game Observe Shape Reading.

Lemma calls_app (t1 t2 : list event) : calls (t1 ++ t2)%list = (calls t1 ++ calls t2)%list.
Proof.
  induction t1 as [|[r x|l|d] t1 IH]; simpl; [reflexivity| |exact IH|exact IH].
  now rewrite IH.
Qed.

(** The calls of one round: none, or one of those of the loop. *)
Lemma loop_body_calls (client : Client.gateway) (action : string) (w : world) :
  exists trace c,
    loop_body client action w = (trace, w, Ret c) /\
    (calls trace = [] \/ exists r, calls trace = [r] /\ loop_request r = true).
Proof.
  destruct (truthy action) eqn:Ht.
  - destruct (startswith "/" (strip (lower action))) eqn:Hs.
    + rewrite (loop_body_slash client action Hs).
      destruct (spec_dispatch_run client action (spec_lex action) w) as (t & E & H).
      exists t. eexists. split; [exact E|].
      destruct (spec_lex action) as [[]|]; subst;
        first [ left; reflexivity
              | right; eexists; (split; [apply one_call_calls; exact H | reflexivity]) ].
    + destruct (routed_round client action w Ht Hs) as (i & t & _ & E & H).
      exists t, Continue. split; [exact E|]. right. exists (request_of i).
      split; [now apply one_call_calls | now destruct i].
  - destruct action; [|discriminate]. exists [], Continue. auto.
Qed.

Lemma game_rounds_calls (script : list (prompt_result * Client.gateway)) (w : world) :
  exists trace,
    game_rounds script w = (trace, w, Ret tt) /\
    List.length (calls trace) <= List.length script /\
    forallb loop_request (calls trace) = true.
Proof.
  induction script as [|[[action|] client] script IH]; cbn [game_rounds];
    try (exists [Out Blank]; repeat split; cbn; lia).
  destruct (loop_body_calls client action w) as (t & c & E & H).
  unfold iobind. rewrite E. destruct c.
  - destruct IH as (t' & -> & Hlen & Hall). exists (t ++ t')%list.
    split; [reflexivity|]. rewrite calls_app, length_app, forallb_app, Hall.
    destruct H as [->|(r & -> & Hr)]; cbn [List.length forallb]; [split; [lia|auto]|].
    rewrite Hr. split; [lia | reflexivity].
  - exists (t ++ [])%list. split; [reflexivity|]. rewrite app_nil_r.
    destruct H as [->|(r & -> & Hr)]; cbn [List.length forallb];
      [split; [lia|auto]|].
    rewrite Hr. split; [lia | reflexivity].
Qed.

(** The game loop ends, leaves the store and the clock alone, and
    makes none but its own calls. *)
Lemma game_loop_run (client : Client.gateway)
      (script : list (prompt_result * Client.gateway)) (w : world) :
  exists trace,
    _game_loop client script w = (trace, w, Ret tt) /\
    forallb loop_request (calls trace) = true.
Proof.
  destruct (game_rounds_calls script w) as (t & E & _ & Hall).
  unfold _game_loop, try_except, iobind, attempt, call, print.
  destruct (Client.get_unread_count client) as [unread|e]; cbn.
  - destruct (0 <? unread)%Z; cbn; rewrite E; eexists; (split; [reflexivity|]);
      cbn; now rewrite Hall.
  - rewrite E. eexists. split; [reflexivity|]. cbn. now rewrite Hall.
Qed.

Lemma game_rounds_cons (x : prompt_result * Client.gateway)
      (s1 s2 : list (prompt_result * Client.gateway)) :
  (forall w, game_rounds s1 w = game_rounds s2 w) ->
  forall w, game_rounds (x :: s1) w = game_rounds (x :: s2) w.
Proof.
  intros H w. destruct x as [[action|] client]; cbn [game_rounds]; [|reflexivity].
  unfold iobind. destruct (loop_body client action w) as [[t w1] [[|]|e]];
    try reflexivity.
  now rewrite H.
Qed.

Lemma game_rounds_app (pre s1 s2 : list (prompt_result * Client.gateway)) :
  (forall w, game_rounds s1 w = game_rounds s2 w) ->
  forall w, game_rounds (pre ++ s1) w = game_rounds (pre ++ s2) w.
Proof.
  intros H. induction pre as [|x pre IH]; [exact H|].
  cbn [app]. now apply game_rounds_cons.
Qed.

Lemma quit_round (client : Client.gateway) (action : string) (w : world) :
  one_of (strip (lower action)) ["/quit"; "/exit"; "/q"] = true ->
  loop_body client action w = ([Out (Success "Farewell, adventurer!")], w, Ret Break).
Proof.
  intros H. unfold loop_body.
  assert (Ht : truthy action = true) by (destruct action; [discriminate | reflexivity]).
  rewrite Ht, H. reflexivity.
Qed.

(** X7: the loop reads no further than the line that ends it: what
    is typed after a line of the quit family, or after an interrupt or
    the end of the input, changes nothing of the run; and an empty
    line, wherever it is typed, changes nothing either. *)
Theorem nothing_is_read_after_the_loop_ends :
  forall (pre post : list (prompt_result * Client.gateway))
         (stop : prompt_result) (client : Client.gateway) (w : world),
    (ends_loop stop = true ->
     game_rounds (pre ++ (stop, client) :: post) w
     = game_rounds (pre ++ [(stop, client)]) w) /\
    game_rounds (pre ++ (Line EmptyString, client) :: post) w
    = game_rounds (pre ++ post) w.
Proof.
  intros pre post stop client w. split.
  - intros Hstop. apply game_rounds_app. clear w. intros w.
    destruct stop as [action|]; cbn [game_rounds]; [|reflexivity].
    unfold iobind. now rewrite (quit_round client action w Hstop).
  - apply game_rounds_app. clear w. intros w. cbn [game_rounds].
    unfold iobind, loop_body. cbn.
    now destruct (game_rounds post w) as [[t w'] r].
Qed.

Lemma nothing_is_read_after_the_loop_ends_witness :
  game_rounds ([(Line "look around", Fixtures.offline)]
               ++ (Line " /Exit", Fixtures.offline)
               :: [(Line "tell kira hi", Fixtures.offline)]) Fixtures.w0
  = game_rounds ([(Line "look around", Fixtures.offline)]
                 ++ [(Line " /Exit", Fixtures.offline)]) Fixtures.w0.
Proof.
  apply (proj1 (nothing_is_read_after_the_loop_ends
                  [(Line "look around", Fixtures.offline)]
                  [(Line "tell kira hi", Fixtures.offline)]
                  (Line " /Exit") Fixtures.offline Fixtures.w0)).
  reflexivity.
Defined.

End WholeLoop.

(** ** The client [get_client] builds *)

Section Clients.
Import PyStr Config IO Game Session Observe Shape.

Lemma truthy_cli (fresh : string) : truthy ("cli_" ++ fresh) = true.
Proof. reflexivity. Qed.

(** X8: [get_client] makes up a guest identity at most once: run on
    the store it leaves, with whatever fresh identifier, it writes
    nothing and builds the client from the same credentials as the
    first time. *)
Theorem get_client_settles :
  forall (fresh fresh' : string) (w : world),
    exists c,
      get_client fresh w
      = ([], World (with_identity fresh (disk w)) (clock w), Ret c) /\
      get_client fresh' (World (with_identity fresh (disk w)) (clock w))
      = ([], World (with_identity fresh (disk w)) (clock w), Ret c).
Proof.
  intros fresh fresh' [d t].
  unfold with_identity, has_identity, get_client, iobind, read, ret, write.
  cbn [disk clock].
  destruct (truthy_opt (session_token d)) eqn:Ht;
    destruct (truthy_opt (api_key d)) eqn:Hk;
    destruct (truthy_opt (guest_id d)) eqn:Hg;
    cbn [orb negb andb set_guest_id disk clock session_token api_key guest_id
         stored_user app];
    rewrite ?Ht, ?Hk, ?Hg; cbn [orb negb andb app truthy_opt];
    rewrite ?truthy_cli; cbn [orb negb andb app]; eauto.
Qed.

Lemma connect_run (fresh : string) (w : world) :
  exists c,
    get_client fresh w = ([], World (with_identity fresh (disk w)) (clock w), Ret c) /\
    Http.connect fresh w
    = ([], World (with_identity fresh (disk w)) (clock w),
       Ret (Http.__init__ (api_url (disk w)) (cred_api_key c) (cred_guest_id c))).
Proof.
  destruct (get_client_run fresh w) as (c & E). exists c. split; [exact E|].
  unfold Http.connect. unfold iobind at 1. unfold read at 1.
  unfold iobind. rewrite E. reflexivity.
Qed.

(** X9: when a session token is stored, the client is built without
    looking at what the token is: two stores that differ in the token
    alone give the same client, which carries no API key, even when one
    is stored, and so sends no X-API-Key header; what names the player
    is the user id, or the guest identity when no user id is stored; and
    nothing is written. *)
Theorem session_token_is_only_tested :
  forall (fresh : string) (d : store) (tok1 tok2 : string) (t : Z),
    truthy tok1 = true -> truthy tok2 = true ->
    exists c,
      Http.connect fresh (World (set_session_token tok1 d) t)
      = ([], World (set_session_token tok1 d) t, Ret c) /\
      Http.connect fresh (World (set_session_token tok2 d) t)
      = ([], World (set_session_token tok2 d) t, Ret c) /\
      Http.api_key c = None /\
      Http.guest_id c
      = (match stored_user d with
         | Some u => if truthy (user_id u) then Some (user_id u) else guest_id d
         | None => guest_id d
         end) /\
      (forall value, ~ In ("X-API-Key", value) (Http._get_headers c)).
Proof.
  intros fresh [url key g tk u cs] tok1 tok2 t H1 H2.
  unfold Http.connect, get_client, iobind, read, ret.
  cbn [disk clock set_session_token session_token api_key guest_id stored_user
       api_url truthy_opt].
  rewrite H1, H2. cbn [app]. eexists. repeat split.
  - cbn [Http.__init__ Http.guest_id cred_guest_id].
    destruct u as [u|]; reflexivity.
  - intros value. unfold Http._get_headers, Http.__init__.
    cbn [Http.api_key Http.guest_id cred_api_key cred_guest_id truthy_opt app].
    intros [H|[H|H]]; try discriminate.
    destruct (truthy_opt _); [destruct H as [H|[]]; discriminate | destruct H].
Qed.

Lemma session_token_is_only_tested_witness :
  exists c,
    Http.connect "f00d" (World (set_session_token "tok-1" Fixtures.returning) 0)
    = ([], World (set_session_token "tok-1" Fixtures.returning) 0, Ret c) /\
    Http.connect "f00d" (World (set_session_token "tok-2" Fixtures.returning) 0)
    = ([], World (set_session_token "tok-2" Fixtures.returning) 0, Ret c) /\
    Http.api_key c = None /\
    Http.guest_id c
    = (match stored_user Fixtures.returning with
       | Some u => if truthy (user_id u) then Some (user_id u)
                   else guest_id Fixtures.returning
       | None => guest_id Fixtures.returning
       end) /\
    (forall value, ~ In ("X-API-Key", value) (Http._get_headers c)).
Proof.
  apply (session_token_is_only_tested "f00d" Fixtures.returning "tok-1" "tok-2" 0);
    reflexivity.
Defined.

(** X10: the chat calls always name a player: the key they send is
    never empty; it is the guest identity of the client, the one its
    Cookie header carries, when there is one; and for a store that
    holds an API key and neither a session token nor a guest identity,
    for which [get_client] makes up no guest identity, it is the fixed
    key "cli_user" and no Cookie header is sent. *)
Theorem chat_calls_name_a_player :
  forall (fresh : string) (w : world),
    exists c,
      Http.connect fresh w
      = ([], World (with_identity fresh (disk w)) (clock w), Ret c) /\
      truthy (Http.player_key c) = true /\
      (forall recipient content,
          In ("sender_key", Http.VStr (Http.player_key c))
             (Http.params (Http.on_the_wire c (RSendDm recipient content)))) /\
      (forall message,
          In ("player_key", Http.VStr (Http.player_key c))
             (Http.params (Http.on_the_wire c (RSendGlobalChat message)))) /\
      Http.path (Http.on_the_wire c RGetPendingMessages)
      = "/dm/pending/" ++ Http.player_key c /\
      Http.path (Http.on_the_wire c RGetUnreadCount)
      = "/dm/unread/" ++ Http.player_key c /\
      (if truthy_opt (Http.guest_id c)
       then In ("Cookie", "textlands_guest=" ++ Http.player_key c)
               (Http._get_headers c)
       else Http.player_key c = "cli_user" /\
            forall value, ~ In ("Cookie", value) (Http._get_headers c)) /\
      (truthy_opt (session_token (disk w)) = false ->
       truthy_opt (api_key (disk w)) = true ->
       truthy_opt (guest_id (disk w)) = false ->
       Http.player_key c = "cli_user").
Proof.
  intros fresh w. destruct (connect_run fresh w) as (c & Hc & ->).
  eexists. split; [reflexivity|].
  set (k := Http.__init__ (api_url (disk w)) (cred_api_key c) (cred_guest_id c)).
  assert (Hk : truthy (Http.player_key k) = true).
  { unfold Http.player_key, Http.or_else.
    destruct (truthy_opt (Http.guest_id k)) eqn:E; [|reflexivity].
    destruct (Http.guest_id k); [exact E | discriminate]. }
  split; [exact Hk|].
  split; [intros; cbn; auto|]. split; [intros; cbn; auto|].
  split; [reflexivity|]. split; [reflexivity|]. split.
  - unfold Http._get_headers, Http.player_key, Http.or_else.
    destruct (truthy_opt (Http.guest_id k)) eqn:E.
    + destruct (Http.guest_id k); [|discriminate].
      apply in_or_app. right. apply in_or_app. right. left. reflexivity.
    + split; [reflexivity|]. intros value H.
      apply in_app_or in H as [H|H];
        [destruct H as [H|[H|[]]]; discriminate|].
      apply in_app_or in H as [H|[]].
      destruct (truthy_opt (Http.api_key k)); [|destruct H].
      destruct H as [H|[]]. discriminate.
  - intros Ht Hkey Hg. revert Hc.
    unfold get_client, iobind, read, ret, write. rewrite Ht, Hkey. cbn.
    intros Hc. injection Hc as _ <-.
    unfold k, Http.player_key, Http.or_else, Http.__init__.
    cbn [Http.guest_id cred_guest_id]. now rewrite Hg.
Qed.

Lemma chat_calls_name_a_player_witness :
  Http.player_key
    (Http.__init__ "https://api.textlands.com/" (Some "key-1") None) = "cli_user".
Proof.
  destruct (chat_calls_name_a_player
              "f00d" (World (set_api_key "key-1" Fixtures.first_run) 0))
    as (c & E & _ & _ & _ & _ & _ & _ & H).
  injection E as <-. apply H; reflexivity.
Defined.

Lemma rstrip_slash_slash (u : string) :
  Http.rstrip_slash (u ++ "/") = Http.rstrip_slash u.
Proof.
  induction u as [|a u IH]; [reflexivity|].
  cbn [append Http.rstrip_slash]. now rewrite IH.
Qed.

Lemma rstrip_slash_end (s : string) :
  forall r, Http.rstrip_slash s <> r ++ "/".
Proof.
  induction s as [|c s IH]; intros r H; cbn [Http.rstrip_slash] in H.
  - destruct r; discriminate.
  - destruct (Http.rstrip_slash s) as [|b t] eqn:E.
    + destruct (Ascii.eqb_spec c "/"%char) as [->|Hc].
      * destruct r; discriminate.
      * destruct r as [|a [|a' r]]; cbn in H; try discriminate.
        injection H as ->. congruence.
    + destruct r as [|a r]; cbn in H; [discriminate|].
      injection H as _ H. now apply (IH r).
Qed.

Lemma rstrip_slash_cut (s : string) :
  exists t, s = Http.rstrip_slash s ++ t /\
            all_chars (fun c => Ascii.eqb c "/") t = true.
Proof.
  induction s as [|c s (t & Hs & Ht)]; [exists EmptyString; auto|].
  cbn [Http.rstrip_slash].
  destruct (Http.rstrip_slash s) as [|b r] eqn:E.
  - destruct (Ascii.eqb_spec c "/"%char) as [->|Hc].
    + exists (String "/" t). cbn in *. split; [now rewrite Hs at 1 | exact Ht].
    + exists t. cbn in *. split; [now rewrite Hs at 1 | exact Ht].
  - exists t. cbn in *. split; [now rewrite Hs at 1 | exact Ht].
Qed.

(** X24: the client is built on the API URL without its trailing
    slashes: a URL and the same URL followed by a slash give the same
    client; the base URL kept never ends with a slash; and nothing but
    slashes at the end is taken off. *)
Theorem trailing_slashes_are_dropped :
  forall (url : string) (key guest : option string),
    Http.__init__ (url ++ "/") key guest = Http.__init__ url key guest /\
    (forall r, Http.base_url (Http.__init__ url key guest) <> r ++ "/") /\
    exists t, url = Http.base_url (Http.__init__ url key guest) ++ t /\
              all_chars (fun c => Ascii.eqb c "/") t = true.
Proof.
  intros url key guest. unfold Http.__init__. cbn [Http.base_url].
  split; [now rewrite rstrip_slash_slash|].
  split; [apply rstrip_slash_end | apply rstrip_slash_cut].
Qed.

End Clients.

(** ** Logging in *)

Section Logins.
Import PyStr Config IO Game Session Observe Shape.



Lemma contains_at_truthy (s : string) : contains "@" s = true -> truthy s = true.
Proof. destruct s; [discriminate | reflexivity]. Qed.

(** The magic-link login for an address that holds an "@", by what
    the request and then the polling loop give. *)
Lemma login_by_email (fuel : nat) (server : auth_server) (fresh prompted : string)
      (email api_key : option string) (w : world) :
  truthy_opt api_key = false ->
  let address := if truthy_opt email then or_default email EmptyString else prompted in
  contains "@" address = true ->
  login fuel server fresh prompted email api_key w
  = match request_cli_auth server address with
    | Raise e =>
        ([Call (RRequestCliAuth address) (Some e);
          Out (Error ("Login failed: " ++ str_exn e))],
         World (with_identity fresh (disk w)) (clock w), Raise (Exit 1))
    | Ret auth =>
        match poll_loop fuel server address (device_code auth) (clock w)
                        (expires_in auth)
                        (World (with_identity fresh (disk w)) (clock w)) with
        | (t, w2, Ret x) =>
            (Call (RRequestCliAuth address) None
             :: Out (Plain ("Check your email! We sent a login link to " ++ address))
             :: Out (Plain ("Or visit: " ++ verification_url auth))
             :: Out (Plain ("Code: " ++ user_code auth)) :: t, w2, Ret x)
        | (t, w2, Raise e) =>
            (Call (RRequestCliAuth address) None
             :: Out (Plain ("Check your email! We sent a login link to " ++ address))
             :: Out (Plain ("Or visit: " ++ verification_url auth))
             :: Out (Plain ("Code: " ++ user_code auth))
             :: (t ++ [Out (Error ("Login failed: " ++ str_exn e))])%list,
             w2, Raise (Exit 1))
        end
    end.
Proof.
  intros Hk address Ha. unfold login. rewrite Hk. fold address.
  rewrite Ha, (contains_at_truthy _ Ha). cbn [negb orb].
  unfold iobind at 1. destruct (get_client_run fresh w) as (c & ->).
  unfold device_flow, try_except, attempt.
  unfold iobind at 1 2. unfold call at 1.
  destruct (request_cli_auth server address) as [auth|e]; [|reflexivity].
  unfold iobind at 1. unfold print at 1.
  unfold iobind at 1. unfold print at 1.
  unfold iobind at 1. unfold print at 1.
  unfold iobind at 1. unfold time at 1. cbn [clock].
  destruct (poll_loop fuel server address (device_code auth) (clock w)
                      (expires_in auth)
                      (World (with_identity fresh (disk w)) (clock w)))
    as [[t w2] [x|e]]; cbn; rewrite ?app_nil_r; reflexivity.
Qed.

(** X12: without a key, [login] sends the magic-link request
    exactly when the address given, or typed at the prompt when none
    is given, holds an "@": an address without one, the empty one
    included, is refused with one error line and exit code 1 before
    anything is called or written, the guest identity included; an
    address with one is sent as it is in the first call made. *)
Theorem magic_link_needs_an_at_sign :
  forall (fuel : nat) (server : auth_server) (fresh prompted : string)
         (email api_key : option string) (w : world),
    truthy_opt api_key = false ->
    let address := if truthy_opt email then or_default email EmptyString else prompted in
    let run := login fuel server fresh prompted email api_key in
    (contains "@" address = false ->
     run w = ([Out (Error "Valid email is required")], w, Raise (Exit 1))) /\
    (contains "@" address = true ->
     exists rest, calls (trace_of run w) = RRequestCliAuth address :: rest).
Proof.
  intros fuel server fresh prompted email api_key w Hk address run. split.
  - intros Ha. subst run. unfold login. rewrite Hk. fold address. rewrite Ha.
    rewrite orb_true_r. reflexivity.
  - intros Ha. subst run. unfold trace_of.
    rewrite (login_by_email fuel server fresh prompted email api_key w Hk Ha).
    fold address.
    destruct (request_cli_auth server address) as [auth|e]; [|cbn; eauto].
    destruct (poll_loop _ _ _ _ _ _ _) as [[t w2] [x|e]]; cbn; eauto.
Qed.

Lemma magic_link_needs_an_at_sign_witness :
  login 3 (Fixtures.never_grants 10) "f00d" "kira.example.org" None None Fixtures.w0
  = ([Out (Error "Valid email is required")], Fixtures.w0, Raise (Exit 1)).
Proof.
  refine (proj1 (magic_link_needs_an_at_sign
                   3 (Fixtures.never_grants 10) "f00d" "kira.example.org" None None
                   Fixtures.w0 _) _); reflexivity.
Defined.

End Logins.

(** ** The polling loop against any server *)

Section AnyServer.
Import PyStr Config IO Game Session Observe Shape.

Variable server : auth_server.
Variables email dc : string.
Variables start expires : Z.

Ltac poll_step E Hlt :=
  cbn [poll_loop] in E; unfold iobind at 1 in E; unfold time at 1 in E;
  rewrite Hlt in E; unfold iobind at 1 in E; unfold sleep at 1 in E;
  unfold iobind at 1 in E; unfold poll at 1 in E; unfold call in E;
  cbn [clock disk] in E.

Lemma poll_stop (fuel : nat) (w : world) :
  (clock w - start <? expires)%Z = false \/ fuel = 0%nat ->
  exists ls r, poll_loop fuel server email dc start expires w = (prints ls, w, r) /\
               r <> Ret (Some tt).
Proof.
  intros H. destruct (clock w - start <? expires)%Z eqn:Hlt.
  - destruct H as [H| ->]; [discriminate|]. cbn [poll_loop].
    unfold iobind, time. rewrite Hlt. exists [], (Ret None).
    split; [reflexivity | discriminate].
  - exists [Error "Authorization timed out. Try again."], (Raise (Exit 1)).
    split; [|discriminate].
    destruct fuel; cbn [poll_loop]; unfold iobind at 1; unfold time at 1;
      rewrite Hlt; reflexivity.
Qed.

(** Every poll comes after a sleep of two seconds, and a round only
    starts while the time allowed has not run out. *)
Lemma poll_loop_bound (fuel : nat) :
  forall (w : world) (res : list event * world * py (option unit)),
    poll_loop fuel server email dc start expires w = res ->
    (clock (snd (fst res))
     = clock w + 2 * Z.of_nat (List.length (calls (fst (fst res)))))%Z /\
    ((0 < List.length (calls (fst (fst res))))%nat ->
     (clock w - start + 2 * (Z.of_nat (List.length (calls (fst (fst res)))) - 1)
      < expires)%Z) /\
    Forall (eq (RPollCliToken dc)) (calls (fst (fst res))).
Proof.
  induction fuel as [|fuel IH]; intros w res E.
  - destruct (poll_stop 0 w) as (ls & r & E' & _); [now right|].
    rewrite E' in E. subst res.
    cbn [fst snd]. rewrite calls_prints. cbn. repeat split; (lia || constructor).
  - destruct (clock w - start <? expires)%Z eqn:Hlt.
    + assert (Hlt' : (clock w - start < expires)%Z) by now apply Z.ltb_lt.
      poll_step E Hlt.
      destruct (poll_cli_token server dc (clock w + 2)) as [tr|e];
        [|subst res; cbn; repeat split; try lia; repeat constructor].
      destruct (status tr =? "authorized").
      * destruct tr as [st [tok|] [uid|] [mail|] [name|]]; subst res; cbn;
          repeat split; try lia; repeat constructor.
      * destruct (status tr =? "expired");
          [subst res; cbn; repeat split; try lia; repeat constructor|].
        specialize (IH (World (disk w) (clock w + 2)) _ eq_refl).
        destruct (poll_loop fuel server email dc start expires
                            (World (disk w) (clock w + 2))) as [[t w'] r].
        subst res.
        cbn [fst snd clock disk calls List.length app] in *.
        destruct IH as (Hc & Hb & Hall).
        repeat split; [lia | intros _; lia | now constructor].
    + destruct (poll_stop (S fuel) w) as (ls & r & E' & _); [now left|].
      rewrite E' in E. subst res.
      cbn [fst snd]. rewrite calls_prints. cbn. repeat split; (lia || constructor).
Qed.

(** What the loop may have written when it ends. *)
Lemma poll_loop_writes (fuel : nat) :
  forall (w : world) (res : list event * world * py (option unit)),
    poll_loop fuel server email dc start expires w = res ->
    (disk (snd (fst res)) = disk w /\ snd res <> Ret (Some tt)) \/
    (exists t tr tok,
        poll_cli_token server dc t = Ret tr /\
        (status tr =? "authorized") = true /\
        tok_session_token tr = Some tok /\
        ((exists uid mail name,
             tok_user_id tr = Some uid /\ tok_email tr = Some mail /\
             tok_display_name tr = Some name /\
             snd res = Ret (Some tt) /\
             disk (snd (fst res)) = authenticated tok uid mail name (disk w)) \/
         ((tok_user_id tr = None \/ tok_email tr = None \/ tok_display_name tr = None) /\
          (exists key, snd res = Raise (KeyError key)) /\
          disk (snd (fst res)) = set_session_token tok (disk w)))).
Proof.
  induction fuel as [|fuel IH]; intros w res E.
  - destruct (poll_stop 0 w) as (ls & r & E' & Hr); [now right|].
    rewrite E' in E. subst res. left. auto.
  - destruct (clock w - start <? expires)%Z eqn:Hlt.
    + poll_step E Hlt.
      destruct (poll_cli_token server dc (clock w + 2)) as [tr|e] eqn:Hp;
        [|subst res; left; cbn; split; [reflexivity | discriminate]].
      destruct (status tr =? "authorized") eqn:Ha.
      * destruct tr as [st [tok|] [uid|] [mail|] [name|]]; subst res;
          try (left; cbn; split; [reflexivity | discriminate]);
          right; exists (clock w + 2)%Z; eexists; exists tok;
            (split; [exact Hp|]); (split; [exact Ha|]); (split; [reflexivity|]);
            first [ left; exists uid, mail, name; cbn; repeat split; reflexivity
                  | right; cbn; split; [auto|]; split; [eauto | reflexivity] ].
      * destruct (status tr =? "expired");
          [subst res; left; cbn; split; [reflexivity | discriminate]|].
        specialize (IH (World (disk w) (clock w + 2)) _ eq_refl).
        destruct (poll_loop fuel server email dc start expires
                            (World (disk w) (clock w + 2))) as [[t w'] r].
        subst res. exact IH.
    + destruct (poll_stop (S fuel) w) as (ls & r & E' & Hr); [now left|].
      rewrite E' in E. subst res. left. auto.
Qed.

End AnyServer.

(** ** What a login leaves behind *)

Section LoginOutcomes.
Import PyStr Config IO Game Session Observe Shape.

(** X13: whatever the server answers, the polling loop asks for
    nothing but the token of its device code, and it polls at most
    once for every two seconds of [expires_in], rounded up: a round
    starts only while the time allowed has not run out and sleeps two
    seconds before its poll, so that the n-th poll comes no earlier
    than 2n seconds after the start; it polls not at all when
    [expires_in] is zero or less. *)
Theorem polls_are_bounded :
  forall (fuel : nat) (server : auth_server) (email dc : string) (expires : Z)
         (w : world),
    let run := poll_loop fuel server email dc (clock w) expires in
    let polls := Z.of_nat (List.length (calls (trace_of run w))) in
    Forall (eq (RPollCliToken dc)) (calls (trace_of run w)) /\
    (2 * polls < Z.max 0 expires + 2)%Z /\
    ((expires <= 0)%Z -> calls (trace_of run w) = []).
Proof.
  intros fuel server email dc expires w run polls. subst run polls.
  unfold trace_of.
  destruct (poll_loop_bound server email dc (clock w) expires fuel w _ eq_refl)
    as (_ & Hb & Hall).
  split; [exact Hall|].
  destruct (calls (fst (fst (poll_loop fuel server email dc (clock w) expires w))))
    as [|r rs]; cbn [List.length] in *; [split; [lia | reflexivity]|].
  assert (H : (0 < S (List.length rs))%nat) by lia. specialize (Hb H).
  split; [lia|]. intros He. lia.
Qed.

Lemma login_refused (fuel : nat) (server : auth_server) (fresh prompted : string)
      (email api_key : option string) (w : world) :
  truthy_opt api_key = false ->
  contains "@" (if truthy_opt email then or_default email EmptyString else prompted)
  = false ->
  login fuel server fresh prompted email api_key w
  = ([Out (Error "Valid email is required")], w, Raise (Exit 1)).
Proof.
  intros Hk Ha. unfold login. rewrite Hk, Ha, orb_true_r. reflexivity.
Qed.

(** The store a login without a key leaves, by how it ends. *)
Lemma email_login_writes (fuel : nat) (server : auth_server) (fresh prompted : string)
      (email api_key : option string) (w : world) :
  truthy_opt api_key = false ->
  let address := if truthy_opt email then or_default email EmptyString else prompted in
  let run := login fuel server fresh prompted email api_key in
  let d1 := if contains "@" address then with_identity fresh (disk w) else disk w in
  (disk_after run w = d1 /\ result_of run w <> Ret (Some tt)) \/
  (exists auth t tr tok,
      poll_cli_token server (device_code auth) t = Ret tr /\
      (status tr =? "authorized") = true /\
      ((exists uid mail name,
           result_of run w = Ret (Some tt) /\
           disk_after run w = authenticated tok uid mail name d1) \/
       (result_of run w = Raise (Exit 1) /\
        disk_after run w = set_session_token tok d1))).
Proof.
  intros Hk address run d1. subst run d1. unfold disk_after, result_of.
  destruct (contains "@" address) eqn:Ha.
  - rewrite (login_by_email fuel server fresh prompted email api_key w Hk Ha).
    fold address.
    destruct (request_cli_auth server address) as [auth|e];
      [|left; cbn; split; [reflexivity | discriminate]].
    destruct (poll_loop_writes server address (device_code auth) (clock w)
                               (expires_in auth) fuel
                               (World (with_identity fresh (disk w)) (clock w))
                               _ eq_refl)
      as [[Hd Hr]|(t & tr & tok & Hp & Hs & _
                   & [(uid & mail & name & _ & _ & _ & Hr & Hd)
                     |(_ & (key & Hr) & Hd)])];
      destruct (poll_loop fuel server address (device_code auth) (clock w)
                          (expires_in auth)
                          (World (with_identity fresh (disk w)) (clock w)))
        as [[t' w2] [x|e]]; cbn [fst snd disk] in *; try discriminate.
    + left. split; [exact Hd | exact Hr].
    + left. split; [exact Hd | discriminate].
    + right. exists auth, t, tr, tok. repeat split; auto.
      left. exists uid, mail, name. auto.
    + right. exists auth, t, tr, tok. repeat split; auto.
  - rewrite (login_refused fuel server fresh prompted email api_key w Hk Ha).
    left. cbn. split; [reflexivity | discriminate].
Qed.

(** X14: a login without a key never writes the API URL, the API
    key or the current session, whatever the server does; and as long
    as no poll is answered "authorized" it stores no session token and
    no user either, and does not end as a login: the store is left as
    it was, but for the guest identity [get_client] makes up once the
    address is accepted. *)
Theorem nothing_is_stored_without_an_authorization :
  forall (fuel : nat) (server : auth_server) (fresh prompted : string)
         (email api_key : option string) (w : world),
    truthy_opt api_key = false ->
    let address := if truthy_opt email then or_default email EmptyString else prompted in
    let run := login fuel server fresh prompted email api_key in
    (api_url (disk_after run w) = api_url (disk w) /\
     Config.api_key (disk_after run w) = Config.api_key (disk w) /\
     current_session (disk_after run w) = current_session (disk w)) /\
    ((forall dc t tr, poll_cli_token server dc t = Ret tr ->
                      (status tr =? "authorized") = false) ->
     result_of run w <> Ret (Some tt) /\
     disk_after run w
     = (if contains "@" address then with_identity fresh (disk w) else disk w)).
Proof.
  intros fuel server fresh prompted email api_key w Hk address run.
  pose proof (email_login_writes fuel server fresh prompted email api_key w Hk) as H.
  cbv zeta in H. fold address in H. fold run in H.
  assert (Hd1 : forall d1,
             d1 = (if contains "@" address then with_identity fresh (disk w)
                   else disk w) ->
             api_url d1 = api_url (disk w) /\
             Config.api_key d1 = Config.api_key (disk w) /\
             current_session d1 = current_session (disk w)).
  { intros d1 ->. unfold with_identity.
    destruct (contains "@" address); [|auto].
    destruct (has_identity (disk w)); auto. }
  split.
  - destruct H as [[-> _]|(auth & t & tr & tok & _ & _
                           & [(uid & mail & name & _ & ->)|(_ & ->)])];
      cbn [authenticated set_guest_id set_user_info set_session_token
           api_url Config.api_key current_session];
      now apply Hd1.
  - intros Hno.
    destruct H as [[Hd Hr]|(auth & t & tr & tok & Hp & Hs & _)]; [auto|].
    rewrite (Hno _ _ _ Hp) in Hs. discriminate.
Qed.

Lemma nothing_is_stored_without_an_authorization_witness :
  let run := login 5 (Fixtures.never_grants 10) "f00d" EmptyString
                   (Some "kira@example.org") None in
  result_of run Fixtures.w0 <> Ret (Some tt) /\
  disk_after run Fixtures.w0
  = (if contains "@" "kira@example.org"
     then with_identity "f00d" (disk Fixtures.w0) else disk Fixtures.w0).
Proof.
  refine (proj2 (nothing_is_stored_without_an_authorization
                   5 (Fixtures.never_grants 10) "f00d" EmptyString
                   (Some "kira@example.org") None Fixtures.w0 _) _).
  - reflexivity.
  - intros dc t tr H. cbn in H. injection H as <-. reflexivity.
Defined.



(** A login without a key that succeeds has stored what a poll
    answered "authorized" carried. *)
Lemma login_granted (fuel : nat) (server : auth_server) (fresh prompted : string)
      (email api_key : option string) (w : world) :
  truthy_opt api_key = false ->
  let address := if truthy_opt email then or_default email EmptyString else prompted in
  let run := login fuel server fresh prompted email api_key in
  result_of run w = Ret (Some tt) ->
  exists auth t tr tok uid mail name,
    request_cli_auth server address = Ret auth /\
    poll_cli_token server (device_code auth) t = Ret tr /\
    (status tr =? "authorized") = true /\
    tok_session_token tr = Some tok /\ tok_user_id tr = Some uid /\
    tok_email tr = Some mail /\ tok_display_name tr = Some name /\
    disk_after run w
    = authenticated tok uid mail name (with_identity fresh (disk w)).
Proof.
  intros Hk address run. subst run. unfold disk_after, result_of.
  destruct (contains "@" address) eqn:Ha.
  - rewrite (login_by_email fuel server fresh prompted email api_key w Hk Ha).
    fold address.
    destruct (request_cli_auth server address) as [auth|e]; [|discriminate].
    destruct (poll_loop_writes server address (device_code auth) (clock w)
                               (expires_in auth) fuel
                               (World (with_identity fresh (disk w)) (clock w))
                               _ eq_refl)
      as [[Hd Hr]|(t & tr & tok & Hp & Hs & Htok
                   & [(uid & mail & name & Hu & Hm & Hn & Hr & Hd)
                     |(_ & (key & Hr) & Hd)])];
      destruct (poll_loop fuel server address (device_code auth) (clock w)
                          (expires_in auth)
                          (World (with_identity fresh (disk w)) (clock w)))
        as [[t' w2] [x|e]]; cbn [fst snd disk] in *; try discriminate.
    + intros Hok. destruct x as [[]|]; [now contradiction Hr | discriminate].
    + intros _. exists auth, t, tr, tok, uid, mail, name. repeat split; auto.
  - rewrite (login_refused fuel server fresh prompted email api_key w Hk Ha).
    discriminate.
Qed.

(** X16: [logout] keeps the guest identity, and a successful login
    has set it to the user id: when a login without a key succeeds,
    some poll was answered "authorized" with a user id, that user id
    is the id of the user stored and the guest identity stored; after
    a logout the store holds no session token, no user and no API
    key, and still that user id as its guest identity; the client
    built next, when the user id is not empty, carries it in its
    Cookie header, with nothing written and no guest identity made
    up. *)
Theorem logout_keeps_the_user_id_as_guest :
  forall (fuel : nat) (server : auth_server) (fresh fresh' prompted : string)
         (email api_key : option string) (w : world),
    truthy_opt api_key = false ->
    let signin := login fuel server fresh prompted email api_key in
    let run := iobind signin (fun _ => logout) in
    result_of signin w = Ret (Some tt) ->
    exists auth t tr uid mail name,
      request_cli_auth server
        (if truthy_opt email then or_default email EmptyString else prompted)
      = Ret auth /\
      poll_cli_token server (device_code auth) t = Ret tr /\
      (status tr =? "authorized") = true /\
      tok_user_id tr = Some uid /\
      stored_user (disk_after signin w) = Some (UserInfo uid mail name) /\
      guest_id (disk_after signin w) = Some uid /\
      result_of run w = Ret tt /\
      session_token (disk_after run w) = None /\
      stored_user (disk_after run w) = None /\
      Config.api_key (disk_after run w) = None /\
      guest_id (disk_after run w) = Some uid /\
      (truthy uid = true ->
       exists c,
         Http.connect fresh' (snd (fst (run w))) = ([], snd (fst (run w)), Ret c) /\
         Http.api_key c = None /\ Http.guest_id c = Some uid /\
         In ("Cookie", "textlands_guest=" ++ uid) (Http._get_headers c)).
Proof.
  intros fuel server fresh fresh' prompted email api_key w Hk signin run Hok.
  subst signin.
  destruct (login_granted fuel server fresh prompted email api_key w Hk Hok)
    as (auth & t & tr & tok & uid & mail & name & Hq & Hp & Hs & _ & Hu & _ & _ & Hd).
  exists auth, t, tr, uid, mail, name.
  split; [exact Hq|]. split; [exact Hp|]. split; [exact Hs|]. split; [exact Hu|].
  unfold result_of, disk_after in *.
  assert (E : run w
              = ((fst (fst (login fuel server fresh prompted email api_key w))
                  ++ [Out (Success "Logged out")])%list,
                 World (clear_current_session
                          (clear_user_info
                             (clear_session_token
                                (clear_api_key
                                   (disk (snd (fst (login fuel server fresh prompted
                                                          email api_key w))))))))
                       (clock (snd (fst (login fuel server fresh prompted
                                               email api_key w)))),
                 Ret tt)).
  { subst run. unfold iobind at 1.
    destruct (login fuel server fresh prompted email api_key w) as [[t1 w1] r1].
    cbn [fst snd] in *. subst r1. reflexivity. }
  rewrite E. cbn [fst snd disk clock]. rewrite Hd.
  generalize (with_identity fresh (disk w)) as d1.
  generalize (clock (snd (fst (login fuel server fresh prompted email api_key w))))
    as c1.
  intros c1 d1. repeat split. intros Hne.
  unfold Http.connect, get_client, iobind, read, ret.
  cbn [disk clock authenticated set_guest_id set_user_info set_session_token
       clear_current_session clear_user_info clear_session_token clear_api_key
       session_token Config.api_key guest_id stored_user api_url truthy_opt
       negb andb app].
  rewrite Hne. cbn [negb andb app].
  eexists. split; [reflexivity|]. split; [reflexivity|]. split; [reflexivity|].
  unfold Http._get_headers, Http.__init__.
  cbn [Http.api_key Http.guest_id cred_api_key cred_guest_id truthy_opt or_default].
  rewrite Hne. cbn. auto.
Qed.

Lemma logout_keeps_the_user_id_as_guest_witness :
  exists uid,
    guest_id (disk_after
                (iobind (login 5 (Fixtures.grants_at 10 6) "f00d" EmptyString
                               (Some "kira@example.org") None)
                        (fun _ => logout)) Fixtures.w0) = Some uid /\
    uid = "user-7".
Proof.
  assert (Hk : truthy_opt (@None string) = false) by reflexivity.
  assert (Hok : result_of (login 5 (Fixtures.grants_at 10 6) "f00d" EmptyString
                                 (Some "kira@example.org") None) Fixtures.w0
                = Ret (Some tt)) by reflexivity.
  destruct (logout_keeps_the_user_id_as_guest
              5 (Fixtures.grants_at 10 6) "f00d" "beef" EmptyString
              (Some "kira@example.org") None Fixtures.w0 Hk Hok)
    as (auth & t & tr & uid & mail & name
        & _ & _ & _ & _ & _ & Hg & _ & _ & _ & _ & H & _).
  exists uid. split; [exact H|].
  cbv in Hg. now injection Hg as <-.
Defined.

End LoginOutcomes.

(** ** Choosing a realm and a character *)

Section Choosing.
Import PyStr Config IO Game Session Observe Shape Reading.

Lemma says_print_opt (v : option string) :
  exists ls, says (print_opt v) ls tt /\ filter is_numbered ls = [].
Proof.
  unfold print_opt. destruct (truthy_opt v).
  - exists [Plain (or_default v EmptyString)]. split; [apply says_print | reflexivity].
  - exists []. split; [apply says_ret | reflexivity].
Qed.

Lemma says_then {A B : Type} (m : io A) (f : A -> io B) (ls1 ls2 : list line)
      (a : A) (b : B) :
  says m ls1 a -> says (f a) ls2 b -> says (iobind m f) (ls1 ++ ls2)%list b.
Proof.
  intros H1 H2 w. unfold iobind. rewrite H1, H2. now rewrite prints_app.
Qed.

Lemma numbered_app (xs ys : list string) :
  forall i, numbered i (xs ++ ys) = (numbered i xs ++ numbered (i + List.length xs) ys)%list.
Proof.
  induction xs as [|x xs IH]; intros i; cbn [app numbered List.length].
  - now rewrite Nat.add_0_r.
  - rewrite IH. now rewrite Nat.add_succ_r.
Qed.


Lemma show_realms_says (rs : list realm) :
  forall idx, exists ls,
      says (show_realms idx rs) ls (idx + List.length rs) /\
      filter is_numbered ls = numbered idx (map realm_title rs).
Proof.
  induction rs as [|r rs IH]; intros idx; cbn [show_realms].
  - exists []. split; [|reflexivity]. rewrite Nat.add_0_r. apply says_ret.
  - destruct (says_print_opt (tagline r)) as (l1 & H1 & F1).
    destruct (IH (S idx)) as (l2 & H2 & F2).
    exists ([Numbered idx (realm_title r)] ++ l1 ++ l2)%list. split.
    + apply says_then with tt; [apply says_print|].
      apply says_then with tt; [exact H1|].
      cbn [List.length]. rewrite Nat.add_succ_r. exact H2.
    + cbn [app filter is_numbered map numbered]. now rewrite filter_app, F1, F2.
Qed.

Lemma show_groups_says (groups : list land_group) :
  forall idx, exists ls,
      says (show_groups idx groups) ls (open_realms groups) /\
      filter is_numbered ls = numbered idx (map realm_title (open_realms groups)).
Proof.
  unfold open_realms.
  induction groups as [|g groups IH]; intros idx; cbn [show_groups filter].
  - exists []. split; [apply says_ret | reflexivity].
  - destruct (is_locked g); cbn [negb]; [apply IH|].
    destruct (show_realms_says (realms g) idx) as (l1 & H1 & F1).
    destruct (IH (idx + List.length (realms g))) as (l2 & H2 & F2).
    exists ([Plain (group_display_name g ++ " - " ++ description g)]
            ++ l1 ++ [Blank] ++ l2 ++ [])%list.
    split.
    + apply says_then with tt; [apply says_print|].
      apply says_then with (idx + List.length (realms g)); [exact H1|].
      apply says_then with tt; [apply says_print|].
      apply says_then with (flat_map realms
                              (filter (fun group => negb (is_locked group)) groups));
        [exact H2 | apply says_ret].
    + cbn [flat_map]. rewrite map_app, numbered_app, length_map.
      rewrite !filter_app, F1, F2. cbn [filter is_numbered app].
      now rewrite app_nil_r.
Qed.

(** What [_select_realm] does once the lands are listed. *)
Lemma select_realm_run (server : lobby) (ans : answers) (w : world)
      (groups : list land_group) :
  list_worlds_grouped server = Ret groups ->
  exists ls,
    _select_realm server ans w
    = (Call RListWorldsGrouped None :: prints ls, w,
       Ret (if (1 <=? realm_choice ans)%Z
               && (realm_choice ans <=? Z.of_nat (List.length (open_realms groups)))%Z
            then option_map realm_key
                            (nth_error (open_realms groups)
                                       (Z.to_nat (realm_choice ans - 1)))
            else None)) /\
    filter is_numbered ls = numbered 1 (map realm_title (open_realms groups)).
Proof.
  intros Hl. unfold _select_realm. unfold iobind at 1. unfold attempt, call.
  rewrite Hl.
  destruct (show_groups_says groups 1) as (l1 & H1 & F1).
  set (all := open_realms groups) in *.
  assert (Hsel : exists l2 r,
             says (match all with
                   | [] => iobind (print_error "No realms available")
                                  (fun _ => ret None)
                   | _ =>
                       if (realm_choice ans <? 1)%Z
                          || (Z.of_nat (List.length all) <? realm_choice ans)%Z
                       then iobind (print_error "Invalid choice") (fun _ => ret None)
                       else ret (option_map realm_key
                                            (nth_error all (Z.to_nat (realm_choice ans - 1))))
                   end) l2 r /\
             filter is_numbered l2 = [] /\
             r = (if (1 <=? realm_choice ans)%Z
                     && (realm_choice ans <=? Z.of_nat (List.length all))%Z
                  then option_map realm_key
                                  (nth_error all (Z.to_nat (realm_choice ans - 1)))
                  else None)).
  { destruct (Z.leb_spec 1 (realm_choice ans)) as [H1'|H1'];
      destruct (Z.leb_spec (realm_choice ans) (Z.of_nat (List.length all)))
        as [H2'|H2'];
      destruct (Z.ltb_spec (realm_choice ans) 1);
      destruct (Z.ltb_spec (Z.of_nat (List.length all)) (realm_choice ans));
      try lia; cbn [andb orb];
        destruct all as [|r0 all'] eqn:Eall;
        try (cbn [List.length] in *; lia);
        first [ exists [], (option_map realm_key
                              (nth_error (r0 :: all') (Z.to_nat (realm_choice ans - 1))));
                split; [apply says_ret | split; reflexivity]
              | eexists [_], None;
                split; [apply (says_then _ _ [_] [] tt None);
                        [apply says_print | apply says_ret]
                       | split; reflexivity] ]. }
  destruct Hsel as (l2 & r & H2 & F2 & ->).
  exists ([Plain "Choose a realm:"] ++ l1 ++ l2)%list. split.
  - assert (Hs : says (iobind (print (Plain "Choose a realm:"))
                         (fun _ => iobind (show_groups 1 groups)
                                     (fun all_realms =>
                                        match all_realms with
                                        | [] => iobind (print_error "No realms available")
                                                       (fun _ => ret None)
                                        | _ =>
                                            if (realm_choice ans <? 1)%Z
                                               || (Z.of_nat (List.length all_realms)
                                                   <? realm_choice ans)%Z
                                            then iobind (print_error "Invalid choice")
                                                        (fun _ => ret None)
                                            else ret (option_map realm_key
                                                        (nth_error all_realms
                                                           (Z.to_nat (realm_choice ans - 1))))
                                        end)))
                      ([Plain "Choose a realm:"] ++ l1 ++ l2)%list
                      (if (1 <=? realm_choice ans)%Z
                          && (realm_choice ans <=? Z.of_nat (List.length all))%Z
                       then option_map realm_key
                                       (nth_error all (Z.to_nat (realm_choice ans - 1)))
                       else None)).
    { apply says_then with tt; [apply says_print|].
      apply says_then with all; [exact H1 | exact H2]. }
    rewrite (Hs w). reflexivity.
  - cbn [app filter is_numbered]. now rewrite filter_app, F1, F2, app_nil_r.
Qed.


Lemma says_run {A B : Type} (m : io A) (f : A -> io B) (ls : list line) (a : A)
      (w : world) :
  says m ls a -> iobind m f w = then_run (prints ls) (f a w).
Proof.
  intros H. unfold iobind. rewrite H. now destruct (f a w) as [[t w'] r].
Qed.

Lemma show_characters_says (cs : list character) :
  forall i, exists ls,
      says (show_characters i cs) ls tt /\
      filter is_numbered ls = numbered i (map char_name cs).
Proof.
  induction cs as [|c cs IH]; intros i; cbn [show_characters].
  - exists []. split; [apply says_ret | reflexivity].
  - destruct (says_print_opt (occupation c)) as (l1 & H1 & F1).
    destruct (says_print_opt (physical_summary c)) as (l2 & H2 & F2).
    destruct (says_print_opt (backstory_hook c)) as (l3 & H3 & F3).
    destruct (IH (S i)) as (l4 & H4 & F4).
    exists ([Numbered i (char_name c)] ++ l1 ++ l2 ++ l3 ++ [Blank] ++ l4)%list.
    split.
    + apply says_then with tt; [apply says_print|].
      apply says_then with tt; [exact H1|].
      apply says_then with tt; [exact H2|].
      apply says_then with tt; [exact H3|].
      apply says_then with tt; [apply says_print | exact H4].
    + rewrite !filter_app, F1, F2, F3, F4. reflexivity.
Qed.

(** The names [_select_character] numbers: the characters of the
    campfire and, where the realm allows it, the making of one. *)
Lemma character_menu (camp : campfire) :
  exists ls,
    says (iobind (print (Plain "Choose your character:"))
            (fun _ => iobind (show_characters 1 (characters camp))
               (fun _ => if can_create_custom camp
                         then iobind (print (Numbered (List.length (characters camp) + 1)
                                                      "Create your own character"))
                                     (fun _ => print Blank)
                         else ret tt)))
         ls tt /\
    filter is_numbered ls
    = numbered 1 (map char_name (characters camp)
                  ++ (if can_create_custom camp
                      then ["Create your own character"] else []))%list.
Proof.
  destruct (show_characters_says (characters camp) 1) as (l1 & H1 & F1).
  destruct (can_create_custom camp).
  - exists ([Plain "Choose your character:"] ++ l1
            ++ [Numbered (List.length (characters camp) + 1)
                         "Create your own character"] ++ [Blank])%list.
    split.
    + apply says_then with tt; [apply says_print|].
      apply says_then with tt; [exact H1|].
      apply says_then with tt; apply says_print.
    + rewrite !filter_app, F1, numbered_app, length_map.
      cbn [filter is_numbered app numbered].
      now rewrite (Nat.add_comm (List.length (characters camp)) 1).
  - exists ([Plain "Choose your character:"] ++ l1 ++ [])%list. split.
    + apply says_then with tt; [apply says_print|].
      apply says_then with tt; [exact H1 | apply says_ret].
    + rewrite !filter_app, F1, !app_nil_r. reflexivity.
Qed.

(** What [_select_character] does, by the answer given. *)
Lemma select_character_run (server : lobby) (ans : answers) (world_id : string)
      (camp : campfire) (w : world) :
  let n := Z.of_nat (List.length (characters camp)) in
  let choice := character_choice ans in
  exists menu,
    filter is_numbered menu
    = numbered 1 (map char_name (characters camp)
                  ++ (if can_create_custom camp
                      then ["Create your own character"] else []))%list /\
    _select_character server ans world_id camp w
    = then_run (prints menu)
        (if can_create_custom camp && (choice =? n + 1)%Z
         then
           if truthy (concept ans)
           then
             match create_custom_character server world_id (concept ans) with
             | Ret ident =>
                 ([Call (RCreateCustomCharacter world_id (concept ans)) None], w,
                  Ret ident)
             | Raise e =>
                 ([Call (RCreateCustomCharacter world_id (concept ans)) (Some e);
                   Out (Error ("Failed to create character: " ++ str_exn e))], w,
                  Ret None)
             end
           else ([], w, Ret None)
         else if (choice <? 1)%Z || (n <? choice)%Z
              then ([Out (Error "Invalid choice")], w, Ret None)
              else ([], w,
                    Ret (option_map char_key
                                    (nth_error (characters camp)
                                               (Z.to_nat (choice - 1)))))).
Proof.
  intros n choice. destruct (character_menu camp) as (menu & Hm & F).
  exists menu. split; [exact F|].
  unfold _select_character.
  assert (Hassoc : forall (T : io (option string)) w,
             iobind (print (Plain "Choose your character:"))
               (fun _ => iobind (show_characters 1 (characters camp))
                  (fun _ => iobind
                              (if can_create_custom camp
                               then iobind (print (Numbered
                                                     (List.length (characters camp) + 1)
                                                     "Create your own character"))
                                           (fun _ => print Blank)
                               else ret tt)
                              (fun _ => T))) w
             = iobind (iobind (print (Plain "Choose your character:"))
                         (fun _ => iobind (show_characters 1 (characters camp))
                            (fun _ => if can_create_custom camp
                                      then iobind (print (Numbered
                                                            (List.length (characters camp) + 1)
                                                            "Create your own character"))
                                                  (fun _ => print Blank)
                                      else ret tt)))
                      (fun _ => T) w).
  { intros T w'. unfold iobind, print.
    destruct (show_characters 1 (characters camp) w') as [[t1 w1] [[]|e]]; [|reflexivity].
    destruct (can_create_custom camp); cbn.
    - destruct (T w1) as [[t2 w2] r2]. now rewrite <- !app_assoc.
    - destruct (T w1) as [[t2 w2] r2]. now rewrite app_nil_r. }
  rewrite Hassoc. rewrite (says_run _ _ menu tt w Hm). f_equal.
  fold n. fold choice.
  destruct (can_create_custom camp && (choice =? n + 1)%Z).
  - destruct (truthy (concept ans)); [|reflexivity].
    unfold iobind, attempt, call.
    destruct (create_custom_character server world_id (concept ans)); reflexivity.
  - destruct ((choice <? 1)%Z || (n <? choice)%Z); reflexivity.
Qed.




End Choosing.

(** ** The calls of [play], in order *)

Section Protocol.
Import PyStr Config IO Game Session Observe Shape Reading.

Lemma calls_bind {A B : Type} (m : io A) (f : A -> io B) (w : world) :
  calls_of (iobind m f w)
  = match m w with
    | (t, w1, Ret a) => (calls t ++ calls_of (f a w1))%list
    | (t, _, Raise _) => calls t
    end.
Proof.
  unfold calls_of, iobind. destruct (m w) as [[t w1] [a|e]]; [|reflexivity].
  destruct (f a w1) as [[t' w2] r]. cbn. apply calls_app.
Qed.

Lemma calls_attempt_call {A B : Type} (r : request) (resp : py A)
      (f : py A -> io B) (w : world) :
  calls_of (iobind (attempt (call r resp)) f w) = r :: calls_of (f resp w).
Proof. rewrite calls_bind. reflexivity. Qed.

Lemma calls_says {A B : Type} (m : io A) (f : A -> io B) (ls : list line) (a : A)
      (w : world) :
  says m ls a -> calls_of (iobind m f w) = calls_of (f a w).
Proof. intros H. now rewrite calls_bind, H, calls_prints. Qed.

Lemma select_realm_total (server : lobby) (ans : answers) (w : world) :
  exists t r, _select_realm server ans w = (t, w, Ret r) /\
              calls t = [RListWorldsGrouped].
Proof.
  destruct (list_worlds_grouped server) as [groups|e] eqn:Hl.
  - destruct (select_realm_run server ans w groups Hl) as (ls & E & _).
    rewrite E. eexists. eexists. split; [reflexivity|].
    cbn [calls]. now rewrite calls_prints.
  - unfold _select_realm, iobind, attempt, call. rewrite Hl. cbn. eauto.
Qed.

Lemma select_character_total (server : lobby) (ans : answers) (world_id : string)
      (camp : campfire) (w : world) :
  exists t r,
    _select_character server ans world_id camp w = (t, w, Ret r) /\
    (calls t = [] \/
     truthy (concept ans) = true /\
     calls t = [RCreateCustomCharacter world_id (concept ans)]).
Proof.
  destruct (select_character_run server ans world_id camp w) as (menu & _ & E).
  cbv zeta in E. rewrite E.
  destruct (can_create_custom camp && _).
  - destruct (truthy (concept ans)) eqn:Hc.
    + destruct (create_custom_character server world_id (concept ans));
        eexists; eexists; (split; [reflexivity|]); right;
        rewrite calls_app, calls_prints; auto.
    + eexists. eexists. split; [reflexivity|]. left.
      now rewrite calls_app, calls_prints.
  - destruct (_ || _); eexists; eexists; (split; [reflexivity|]); left;
      now rewrite calls_app, calls_prints.
Qed.

Lemma truthy_opt_default (v : option string) :
  truthy_opt v = true -> truthy (or_default v EmptyString) = true.
Proof. destruct v; [auto | discriminate]. Qed.

(** The calls of [play] from the selection of a realm on. *)
Lemma start_new_calls (server : lobby) (ans : answers) (client : Client.gateway)
      (script : list (prompt_result * Client.gateway)) (realm : option string)
      (w : world) :
  new_session_calls (calls_of (start_new server ans client script realm w)) /\
  (truthy_opt realm = true ->
   exists rest,
     calls_of (start_new server ans client script realm w)
     = RGetCampfire (or_default realm EmptyString) :: rest).
Proof.
  unfold start_new. rewrite calls_bind.
  assert (Hsel : exists t1 chosen,
             (if truthy_opt realm then ret realm else _select_realm server ans) w
             = (t1, w, Ret chosen) /\
             (truthy_opt realm = true /\ t1 = [] /\ chosen = realm \/
              truthy_opt realm = false /\ calls t1 = [RListWorldsGrouped])).
  { destruct (truthy_opt realm).
    - exists [], realm. split; [reflexivity | auto].
    - destruct (select_realm_total server ans w) as (t1 & r & E & Hc).
      exists t1, r. auto. }
  destruct Hsel as (t1 & chosen & -> & Hsel).
  assert (Hlist : calls t1 = [] \/ calls t1 = [RListWorldsGrouped])
    by (destruct Hsel as [(_ & -> & _)|[_ H]]; auto).
  destruct (truthy_opt chosen) eqn:Hch; cbn [negb].
  2:{ split.
      - exists (calls t1). split; [exact Hlist|]. left.
        unfold calls_of, ret. cbn. now rewrite app_nil_r.
      - intros Hr. destruct Hsel as [(_ & _ & ->)|[H _]]; congruence. }
  set (r := or_default chosen EmptyString).
  assert (Hr : truthy r = true) by now apply truthy_opt_default.
  assert (Hfirst : truthy_opt realm = true ->
                   calls t1 = [] /\ r = or_default realm EmptyString).
  { intros H. destruct Hsel as [(_ & -> & ->)|[H' _]]; [auto | congruence]. }
  rewrite calls_attempt_call.
  destruct (get_campfire server r) as [camp|e].
  2:{ split.
      - exists (calls t1). split; [exact Hlist|]. right. exists r, [].
        split; [exact Hr|]. split; [auto|]. left. reflexivity.
      - intros H. destruct (Hfirst H) as [-> <-]. cbn. eauto. }
  rewrite (calls_says _ _ _ _ _ (says_print _)).
  destruct (says_print_opt (world_tagline camp)) as (l1 & H1 & _).
  rewrite (calls_says _ _ _ _ _ H1).
  rewrite (calls_says _ _ _ _ _ (says_print _)).
  rewrite (calls_says _ _ _ _ _ (says_print _)).
  rewrite calls_bind.
  destruct (select_character_total server ans r camp w) as (t3 & entity & -> & Hcustom).
  assert (Hc3 : calls t3 = [] \/
                exists concept, truthy concept = true /\
                                calls t3 = [RCreateCustomCharacter r concept])
    by (destruct Hcustom as [H|[H1' H2']]; eauto).
  assert (Htail : exists tail,
             calls_of
               ((if negb (truthy_opt entity) then ret tt
                else
                  iobind (attempt (call (RStartSession r (or_default entity EmptyString))
                                        (start_session server r
                                                       (or_default entity EmptyString))))
                    (fun s =>
                       match s with
                       | Raise e =>
                           iobind (print_error ("Failed to start session: " ++ str_exn e))
                                  (fun _ => raise (Exit 1))
                       | Ret result =>
                           iobind (write (set_current_session (stored_session result)))
                             (fun _ => iobind (print Blank)
                                (fun _ => iobind (print_success
                                                    (or_default (start_message result)
                                                                "Your adventure begins..."))
                                   (fun _ => iobind
                                               (if truthy_opt (opening_narrative result)
                                                then iobind (print Blank)
                                                       (fun _ => print_narrative
                                                                   (or_default
                                                                      (opening_narrative result)
                                                                      EmptyString)
                                                                   "neutral")
                                                else ret tt)
                                               (fun _ => _game_loop client script))))
                       end)) w) = tail /\
             (tail = [] \/
              exists e loop, truthy e = true /\ forallb loop_request loop = true /\
                             tail = RStartSession r e :: loop)).
  { destruct (truthy_opt entity) eqn:He; cbn [negb];
      [|eexists; split; [reflexivity | left; reflexivity]].
    eexists. split; [reflexivity|]. right.
    exists (or_default entity EmptyString).
    rewrite calls_attempt_call.
    destruct (start_session server r (or_default entity EmptyString)) as [result|e].
    - rewrite calls_bind. unfold write at 1. cbn [calls app].
      unfold print_success.
      rewrite (calls_says _ _ _ _ _ (says_print _)).
      rewrite (calls_says _ _ _ _ _ (says_print _)).
      assert (Hn : exists ls,
                 says (if truthy_opt (opening_narrative result)
                       then iobind (print Blank)
                              (fun _ => print_narrative
                                          (or_default (opening_narrative result)
                                                      EmptyString) "neutral")
                       else ret tt) ls tt).
      { destruct (truthy_opt (opening_narrative result)).
        - eexists. apply says_then with tt; apply says_print.
        - eexists. apply says_ret. }
      destruct Hn as (ls & Hn). rewrite (calls_says _ _ _ _ _ Hn).
      destruct (game_loop_run client script
                  (World (set_current_session (stored_session result) (disk w))
                         (clock w))) as (tl & El & Hall).
      exists (calls tl). split; [now apply truthy_opt_default|].
      split; [exact Hall|]. unfold calls_of. now rewrite El.
    - exists []. split; [now apply truthy_opt_default|]. split; reflexivity. }
  destruct Htail as (tail & -> & Htail).
  split.
  - exists (calls t1). split; [exact Hlist|]. right. exists r, (calls t3).
    split; [exact Hr|]. split; [exact Hc3|].
    destruct Htail as [->|(e & loop & He & Hl & ->)].
    + left. now rewrite app_nil_r.
    + right. exists e, loop. auto.
  - intros H. destruct (Hfirst H) as [-> <-]. cbn [app]. eauto.
Qed.

(** X19: the calls of [play] come in one order.  When a session
    with a realm is stored, no realm is asked for and the resume
    prompt is answered "y", [play] goes straight to the game loop: it
    makes gameplay and chat calls only and leaves the store as
    [get_client] left it.  Otherwise the calls are, in this order, the
    listing of the realms (unless a realm was asked for, in which
    case the first call is the campfire of that realm), the campfire
    of a realm whose id is not empty, at most one making of a custom
    character in that realm with a description that is not empty,
    the start of a session in that same realm with a character id
    that is not empty, and then the calls of the game loop; the run
    may end after any of them. *)
Theorem play_follows_the_protocol :
  forall (fresh : string) (server : lobby) (ans : answers) (client : Client.gateway)
         (script : list (prompt_result * Client.gateway)) (realm : option string)
         (w : world),
    let run := play fresh server ans client script realm in
    (if has_session (current_session (disk w)) && negb (truthy_opt realm)
        && (resume ans =? "y")
     then forallb loop_request (calls (trace_of run w)) = true /\
          disk_after run w = with_identity fresh (disk w)
     else new_session_calls (calls (trace_of run w))) /\
    (truthy_opt realm = true ->
     exists rest,
       calls (trace_of run w) = RGetCampfire (or_default realm EmptyString) :: rest).
Proof.
  intros fresh server ans client script realm w run. subst run.
  set (w1 := World (with_identity fresh (disk w)) (clock w)).
  assert (Hcs : current_session (disk w1) = current_session (disk w)).
  { unfold w1, with_identity. cbn [disk]. now destruct (has_identity (disk w)). }
  assert (E : play fresh server ans client script realm w
              = (if has_session (current_session (disk w)) && negb (truthy_opt realm)
                    && (resume ans =? "y")
                 then _game_loop client script w1
                 else start_new server ans client script realm w1)).
  { unfold play. unfold iobind at 1.
    destruct (get_client_run fresh w) as (c & ->). fold w1.
    unfold iobind at 1. unfold read at 1. rewrite Hcs.
    destruct (has_session (current_session (disk w)) && negb (truthy_opt realm));
      cbn [andb].
    - destruct (resume ans =? "y").
      + now destruct (_game_loop client script w1) as [[t w'] r].
      + now destruct (start_new server ans client script realm w1) as [[t w'] r].
    - now destruct (start_new server ans client script realm w1) as [[t w'] r]. }
  unfold trace_of, disk_after. rewrite E.
  destruct (start_new_calls server ans client script realm w1) as [Hnew Hfirst].
  unfold calls_of in *.
  destruct (has_session (current_session (disk w)) && negb (truthy_opt realm)
            && (resume ans =? "y")) eqn:Hres.
  - destruct (game_loop_run client script w1) as (tl & -> & Hall).
    split; [auto|]. intros Hr. rewrite Hr in Hres. cbn in Hres.
    rewrite andb_false_r in Hres. discriminate.
  - auto.
Qed.

Lemma play_follows_the_protocol_witness :
  exists rest,
    calls (trace_of (play "f00d" Samples.two_lands Samples.second Fixtures.offline []
                          (Some "r-2")) (World Fixtures.returning 0))
    = RGetCampfire "r-2" :: rest.
Proof.
  apply (proj2 (play_follows_the_protocol
                  "f00d" Samples.two_lands Samples.second Fixtures.offline []
                  (Some "r-2") (World Fixtures.returning 0))).
  reflexivity.
Defined.

Lemma play_run (fresh : string) (server : lobby) (ans : answers)
      (client : Client.gateway) (script : list (prompt_result * Client.gateway))
      (w : world) :
  has_session (current_session (disk w)) = false ->
  play fresh server ans client script None w
  = start_new server ans client script None
              (World (with_identity fresh (disk w)) (clock w)).
Proof.
  intros Hs. unfold play. unfold iobind at 1.
  destruct (get_client_run fresh w) as (c & ->).
  unfold iobind at 1. unfold read at 1.
  assert (Hcs : current_session (with_identity fresh (disk w))
                = current_session (disk w)).
  { unfold with_identity. now destruct (has_identity (disk w)). }
  cbn [disk]. rewrite Hcs, Hs. cbn [andb app].
  now destruct (start_new server ans client script None _) as [[t w'] r].
Qed.

(** X20: [logout] clears the API key, the session token, the user
    and the current session, keeps the API URL and the guest identity,
    prints one line and never fails; a second [logout] changes
    nothing more; and a [play] that follows never offers to resume:
    whatever is answered, it starts with the listing of the realms. *)
Theorem logout_forgets_the_session :
  forall (w : world) (fresh : string) (server : lobby) (ans : answers)
         (client : Client.gateway) (script : list (prompt_result * Client.gateway)),
    let d := Store (api_url (disk w)) None (guest_id (disk w)) None None None in
    logout w = ([Out (Success "Logged out")], World d (clock w), Ret tt) /\
    logout (World d (clock w)) = ([Out (Success "Logged out")], World d (clock w), Ret tt) /\
    exists rest,
      calls (trace_of (play fresh server ans client script None) (World d (clock w)))
      = RListWorldsGrouped :: rest.
Proof.
  intros w fresh server ans client script d.
  split; [reflexivity|]. split; [reflexivity|].
  unfold trace_of. rewrite play_run by reflexivity.
  change (calls (fst (fst ?x))) with (calls_of x).
  unfold start_new. rewrite calls_bind. cbn [truthy_opt].
  destruct (select_realm_total server ans
              (World (with_identity fresh (disk (World d (clock w))))
                     (clock (World d (clock w))))) as (t1 & r & -> & ->).
  cbn [app]. eauto.
Qed.

End Protocol.

(** ** The global chat *)

Section GlobalChat.
Import PyStr Config IO Game Observe Shape Reading.

Lemma filter_chat_lines (messages : list Client.chat_message) :
  filter is_chat_line (map render_chat messages) = map render_chat messages.
Proof.
  induction messages as [|m ms IH]; [reflexivity|].
  cbn [map filter render_chat is_chat_line]. now rewrite IH.
Qed.

End GlobalChat.

(** ** Lines the parsers are bound to take *)

Section Recognised.
Import PyStr Re ReSpec Router Config IO Game Observe Shape Reading.

Lemma verb_unique (v verb x y : string) :
  In v ["dm"; "message"; "msg"; "whisper"; "pm"] ->
  In verb ["dm"; "message"; "msg"; "whisper"; "pm"] ->
  v ++ x = verb ++ y -> x = y.
Proof.
  intros Hv Hverb E. cbn [In] in Hv, Hverb.
  repeat (destruct Hv as [<-|Hv]);
    try contradiction;
    repeat (destruct Hverb as [<-|Hverb]);
    try contradiction; cbn in E; try discriminate; now injection E.
Qed.

(** X22: a line that, lowered and stripped, reads one of [dm],
    [message], [msg], [whisper] and [pm], blanks, a word, blanks and
    some more text with no line break in it is a direct message to
    that word: the round sends it to the word, and makes no other
    call. *)
Theorem a_chat_verb_and_a_word_is_a_direct_message :
  forall (client : Client.gateway) (text verb sp1 w sp2 b : string) (wd : world),
    In verb ["dm"; "message"; "msg"; "whisper"; "pm"] ->
    strip (lower text) = verb ++ sp1 ++ w ++ sp2 ++ b ->
    sp1 <> EmptyString -> all_chars isspace sp1 = true ->
    w <> EmptyString -> all_chars is_word w = true ->
    sp2 <> EmptyString -> all_chars isspace sp2 = true ->
    b <> EmptyString -> all_chars (in_class CAny) b = true ->
    exists message,
      _parse_dm_intent text = Ret (Some (Some w, message)) /\
      calls (trace_of (loop_body client text) wd) = [RSendDm (Some w) message].
Proof.
  intros client text verb sp1 w sp2 b wd Hverb Hs Hsp1 Hc1 Hw Hcw Hsp2 Hc2 Hb Hcb.
  set (p1 := nth 0 dm_patterns Bol).
  assert (Hsome : exists m, re_match p1 (strip (lower text)) = Some m).
  { unfold re_match. rewrite Hs.
    eapply rmatch_complete; [|reflexivity].
    unfold p1. cbn [nth dm_patterns].
    eapply MSeq; [now constructor|].
    eapply MSeq; [apply (Matches_words_intro _ "dm" verb); exact Hverb|].
    eapply MSeq; [apply (MPlus CSpace); assumption|].
    eapply MSeq; [apply MGrp, (MPlus CWord); assumption|].
    eapply MSeq; [apply (MPlus CSpace); assumption|].
    eapply MSeq; [apply MGrp|].
    - rewrite <- (append_nil_r b) at 1. apply (MPlus CAny); assumption.
    - constructor. simpl. auto. }
  destruct Hsome as [m Hm].
  destruct (dm_reads [Bol; words "dm" ["message"; "msg"; "whisper"; "pm"]; ws1] [ws1]
                     p1 _ m eq_refl eq_refl eq_refl Hm)
    as (st1 & st2 & st3 & st4 & w' & g & Hpre & Hr1 & Hmid & _ & _
        & Hw' & Hcw' & _ & _ & Hg1 & Hg2).
  assert (Hww : w' = w).
  { apply Chain_cons_inv in Hpre as (sa & Ha & Hpre). apply Matches_bol_inv in Ha.
    subst sa.
    apply Chain_cons_inv in Hpre as (sb & Hv & Hpre).
    apply Matches_words_inv in Hv as (v & Hin & Hv).
    apply Chain_cons_inv in Hpre as (sc & Hc' & Hpre).
    apply Matches_plus_inv in Hc' as (sp & Hspne & Hspc & Hc').
    apply Chain_nil_inv in Hpre. subst st1.
    apply Chain_cons_inv in Hmid as (sd & Hd & _).
    apply Matches_plus_inv in Hd as (sq & Hsqne & Hsqc & Hd).
    cbn [rest] in Hv. rewrite Hs, Hc', Hr1, Hd in Hv.
    symmetry in Hv. apply (verb_unique _ _ _ _ Hin Hverb) in Hv.
    destruct (run_unique isspace sp sp1 (w' ++ sq ++ rest sd) (w ++ sp2 ++ b))
      as [_ E]; auto.
    - apply stops_run with is_word; auto using word_is_no_space.
    - apply stops_run with is_word; auto using word_is_no_space.
    - destruct (run_unique is_word w' w (sq ++ rest sd) (sp2 ++ b)) as [E' _]; auto.
      + apply stops_run with isspace; auto using space_is_no_word.
      + apply stops_run with isspace; auto using space_is_no_word. }
  subst w'.
  assert (Hdm : exists message, _parse_dm_intent text = Ret (Some (Some w, message))).
  { unfold _parse_dm_intent.
    change dm_patterns with (p1 :: skipn 1 dm_patterns).
    cbn [dm_scan]. rewrite Hm, Hg1, Hg2. eauto. }
  destruct Hdm as [message Hdm]. exists message. split; [exact Hdm|].
  assert (Ht : truthy text = true).
  { apply (stripped_is_truthy _ _ Hs). cbn [In] in Hverb.
    repeat (destruct Hverb as [<-|Hverb]; [discriminate|]). contradiction. }
  assert (Hsl : startswith "/" (strip (lower text)) = false).
  { rewrite Hs. cbn [In] in Hverb.
    repeat (destruct Hverb as [<-|Hverb]; [reflexivity|]). contradiction. }
  destruct (routed_round client text wd Ht Hsl) as (i & t & Hi & E & H).
  unfold spec_classify in Hi. rewrite Hdm in Hi. injection Hi as <-.
  unfold trace_of. rewrite E. now apply one_call_calls.
Qed.

Lemma a_chat_verb_and_a_word_is_a_direct_message_witness :
  exists message,
    _parse_dm_intent "Whisper Kira_7  Meet me at dawn"
    = Ret (Some (Some "kira_7", message)) /\
    calls (trace_of (loop_body Fixtures.offline "Whisper Kira_7  Meet me at dawn")
                    Fixtures.w0)
    = [RSendDm (Some "kira_7") message].
Proof.
  apply (a_chat_verb_and_a_word_is_a_direct_message
           Fixtures.offline "Whisper Kira_7  Meet me at dawn"
           "whisper" " " "kira_7" "  " "meet me at dawn" Fixtures.w0);
    first [reflexivity | discriminate | (cbn; tauto)].
Defined.

Lemma global_scan_takes (text text_lower : string) (p : regex) (ps : list regex)
      (m : mobj) :
  global_shaped p -> re_match p text_lower = Some m ->
  exists message, global_scan text text_lower (p :: ps) = Ret (Some message).
Proof.
  intros Hp Hm. cbn [global_scan]. rewrite Hm.
  destruct (global_shaped_groups _ _ _ Hp Hm) as (g & u & v & -> & _). eauto.
Qed.

(** X23: a line that, lowered and stripped, reads [global], blanks
    and some more text with no line break in it, and that holds no
    inbox phrase, is a global broadcast: no direct-message pattern
    reads it, and the round makes the one global-chat call. *)
Theorem global_and_a_text_is_a_broadcast :
  forall (client : Client.gateway) (text sp b : string) (wd : world),
    strip (lower text) = "global" ++ sp ++ b ->
    sp <> EmptyString -> all_chars isspace sp = true ->
    b <> EmptyString -> all_chars (in_class CAny) b = true ->
    _parse_inbox_intent text = false ->
    exists message,
      _parse_dm_intent text = Ret None /\
      _parse_global_chat_intent text = Ret (Some message) /\
      calls (trace_of (loop_body client text) wd) = [RSendGlobalChat message].
Proof.
  intros client text sp b wd Hs Hsp Hc Hb Hcb Hin.
  assert (Hdm : _parse_dm_intent text = Ret None).
  { unfold _parse_dm_intent. rewrite Hs. reflexivity. }
  assert (Hsome : exists m,
             re_match (nth 0 global_patterns Bol) (strip (lower text)) = Some m).
  { unfold re_match. rewrite Hs.
    eapply rmatch_complete; [|reflexivity].
    cbn [nth global_patterns].
    eapply MSeq; [now constructor|].
    eapply MSeq; [apply MLit|].
    eapply MSeq; [apply (MPlus CSpace); assumption|].
    eapply MSeq; [apply MGrp|].
    - rewrite <- (append_nil_r b) at 1. apply (MPlus CAny); assumption.
    - constructor. simpl. auto. }
  destruct Hsome as [m Hm].
  assert (Hgl : exists message, _parse_global_chat_intent text = Ret (Some message)).
  { unfold _parse_global_chat_intent.
    change global_patterns
      with (nth 0 global_patterns Bol :: skipn 1 global_patterns).
    apply global_scan_takes with m; [|exact Hm].
    exists [Bol; Lit "global"; ws1]. split; reflexivity. }
  destruct Hgl as [message Hgl]. exists message.
  split; [exact Hdm|]. split; [exact Hgl|].
  assert (Ht : truthy text = true)
    by (apply (stripped_is_truthy _ _ Hs); discriminate).
  assert (Hsl : startswith "/" (strip (lower text)) = false)
    by (rewrite Hs; reflexivity).
  destruct (routed_round client text wd Ht Hsl) as (i & t & Hi & E & H).
  unfold spec_classify in Hi. rewrite Hdm, Hin, Hgl in Hi. injection Hi as <-.
  unfold trace_of. rewrite E. now apply one_call_calls.
Qed.

Lemma global_and_a_text_is_a_broadcast_witness :
  exists message,
    _parse_dm_intent "Global  the gate is open" = Ret None /\
    _parse_global_chat_intent "Global  the gate is open" = Ret (Some message) /\
    calls (trace_of (loop_body Fixtures.offline "Global  the gate is open") Fixtures.w0)
    = [RSendGlobalChat message].
Proof.
  apply (global_and_a_text_is_a_broadcast
           Fixtures.offline "Global  the gate is open" "  " "the gate is open"
           Fixtures.w0);
    first [reflexivity | discriminate].
Defined.

End Recognised.

(** ** The game loop on the console *)

Section OnTheConsole.
Import PyStr Config IO Router Game Observe Shape Reading Markup Shown.

Lemma rendered_round_calls (client : Client.gateway) (action : string) (w : world) :
  exists trace out,
    Rendered.loop_body client action w = (trace, w, out) /\
    (calls trace = [] \/ exists r, calls trace = [r] /\ loop_request r = true).
Proof.
  destruct (truthy action) eqn:Ht.
  - destruct (startswith "/" (strip (lower action))) eqn:Hs.
    + rewrite (rendered_slash client action Hs).
      pose proof (dispatch_run client action (spec_lex action) w) as H.
      destruct (spec_lex action) as [[]|].
      all: try (rewrite H; eexists; eexists; split; [reflexivity|]; left; reflexivity).
      all: try (pose proof (reported_calls H) as Hc;
                destruct H as (raised & ls & out & E & _); rewrite E in *;
                eexists; eexists; split; [reflexivity|]; right;
                eexists; split; [exact Hc | reflexivity]).
      destruct H as (ls & out & -> & _). eexists; eexists.
      split; [reflexivity|]. left. apply calls_prints.
    + destruct (rendered_round client action w Ht Hs) as (i & prefix & _ & _ & H).
      pose proof (reported_calls H) as Hc.
      destruct H as (raised & ls & out & E & _). rewrite E in *.
      eexists; eexists. split; [reflexivity|]. right.
      exists (request_of i). split; [exact Hc | now destruct i].
  - destruct action; [|discriminate]. exists [], (Ret Continue). auto.
Qed.

Lemma rendered_rounds_calls (script : list (prompt_result * Client.gateway))
      (w : world) :
  exists trace out,
    Rendered.game_rounds script w = (trace, w, out) /\
    List.length (calls trace) <= List.length script /\
    forallb loop_request (calls trace) = true.
Proof.
  induction script as [|[[action|] client] script IH]; cbn [Rendered.game_rounds];
    try (exists [Out Blank], (Ret tt); repeat split; cbn; lia).
  destruct (rendered_round_calls client action w) as (t & out & E & H).
  assert (Ht : List.length (calls t) <= 1 /\ forallb loop_request (calls t) = true).
  { destruct H as [->|(r & -> & Hr)]; cbn; [split; [lia | reflexivity]|].
    rewrite Hr. split; [lia | reflexivity]. }
  destruct Ht as [Hlen Hall].
  unfold iobind. rewrite E. destruct out as [[|]|e].
  - destruct IH as (t' & out' & -> & Hlen' & Hall'). exists (t ++ t')%list, out'.
    split; [reflexivity|]. rewrite calls_app, length_app, forallb_app, Hall, Hall'.
    cbn [List.length]. split; [lia | reflexivity].
  - exists (t ++ [])%list, (Ret tt). split; [reflexivity|]. rewrite app_nil_r.
    cbn [List.length]. split; [lia | exact Hall].
  - exists t, (Raise e). split; [reflexivity|]. cbn [List.length]. split; [lia | exact Hall].
Qed.

(** X6: however the game loop ends, by the end of the input, a line
    of the quit family or an exception of the console, and whatever
    is typed and whatever the server answers or fails to answer, it
    has left the store and the clock as they were, it has made at
    most one call for each line typed (a round makes one call at
    most), after the unread-count call at its start, and every call
    it has made is one of the gameplay and chat calls, never one of
    the session or authentication calls. *)
Theorem game_loop_makes_its_own_calls :
  forall (client : Client.gateway) (script : list (prompt_result * Client.gateway))
         (w : world),
    (exists trace out,
        Rendered._game_loop client script w = (trace, w, out) /\
        List.length (calls trace) <= 1 + List.length script /\
        forallb loop_request (calls trace) = true) /\
    (forall action,
        List.length (calls (trace_of (Rendered.loop_body client action) w)) <= 1).
Proof.
  intros client script w. split;
    [|intros action;
      destruct (rendered_round_calls client action w) as (t & out & E & H);
      unfold trace_of; rewrite E; cbn [fst];
      destruct H as [->|(r & -> & _)]; cbn; lia].
  destruct (rendered_rounds_calls script w) as (t & out & E & Hlen & Hall).
  unfold Rendered._game_loop, try_except, iobind, attempt, call, print.
  destruct (Client.get_unread_count client) as [unread|e]; cbv beta iota.
  - destruct (0 <? unread)%Z; unfold ret; cbv beta iota; rewrite E;
      eexists; eexists; (split; [reflexivity|]);
      cbn [app calls List.length forallb loop_request andb];
      (split; [lia | exact Hall]).
  - unfold ret. cbv beta iota. rewrite E.
    eexists; eexists. split; [reflexivity|].
    cbn [app calls List.length forallb loop_request andb].
    split; [lia | exact Hall].
Qed.

(** X25: a line of 7-bit text that starts with a slash is handled
    by the slash-command lexer alone: the round is the dispatch of
    the command the alias table gives for the lowered, stripped line;
    it makes no call of the chat router or of the gameplay fallback;
    if it returns, it ends the loop for the quit family and goes on
    otherwise; an unknown name makes no call at all and, when the
    line holds no opening bracket, prints one error and the loop goes
    on; /quit, /exit and /q are one and the same round, after which
    no further line is read. *)
Theorem slash_lines_stay_in_the_lexer :
  (forall (client : Client.gateway) (action : string) (w : world),
      isascii action = true ->
      startswith "/" action = true ->
      Rendered.loop_body client action w
      = dispatch client action (spec_lex action) w /\
      existsb router_only (calls (trace_of (Rendered.loop_body client action) w))
      = false /\
      (forall c, result_of (Rendered.loop_body client action) w = Ret c ->
                 c = match spec_lex action with Some Quit => Break | _ => Continue end) /\
      match spec_lex action with
      | Some Quit =>
          Rendered.loop_body client action w
          = ([Out (Success "Farewell, adventurer!")], w, Ret Break)
      | Some HelpCommand =>
          Rendered.loop_body client action w = ([Out Help], w, Ret Continue)
      | Some Look => calls (trace_of (Rendered.loop_body client action) w) = [RLook]
      | Some Inventory =>
          calls (trace_of (Rendered.loop_body client action) w) = [RInventory]
      | Some Rest => calls (trace_of (Rendered.loop_body client action) w) = [RRest]
      | Some Messages =>
          calls (trace_of (Rendered.loop_body client action) w) = [RGetPendingMessages]
      | Some Chat =>
          calls (trace_of (Rendered.loop_body client action) w) = [RGetGlobalChat 10]
      | None =>
          calls (trace_of (Rendered.loop_body client action) w) = [] /\
          (plain action = true ->
           Rendered.loop_body client action w
           = ([Out (Error ("Unknown command: " ++ action))], w, Ret Continue))
      end) /\
  (forall (client : Client.gateway) (w : world)
          (script : list (prompt_result * Client.gateway)),
      Rendered.loop_body client "/exit" w = Rendered.loop_body client "/quit" w /\
      Rendered.loop_body client "/q" w = Rendered.loop_body client "/quit" w /\
      Rendered.game_rounds ((Line "/quit", client) :: script) w
      = ([Out (Success "Farewell, adventurer!")], w, Ret tt)).
Proof.
  split; [|intros client w script; repeat split].
  intros client action w _ Hs. apply slash_survives in Hs.
  rewrite (rendered_slash client action Hs).
  pose proof (dispatch_run client action (spec_lex action) w) as H.
  unfold trace_of, result_of. split; [reflexivity|].
  destruct (spec_lex action) as [[]|].
  all: try (rewrite H; cbn; repeat split; auto; intros c [= <-]; reflexivity).
  all: try (pose proof (reported_calls H) as Hc;
         destruct H as (raised & ls & out & E & Hx & _); rewrite E in *;
         cbn [fst snd] in *; rewrite Hc; repeat split; auto).
  destruct H as (ls & out & -> & Hx & Hp). cbn [fst snd].
  rewrite calls_prints. repeat split; auto.
  intros Hpl. now destruct (Hp Hpl) as [-> ->].
Qed.

Lemma slash_lines_stay_in_the_lexer_witness :
  Rendered.loop_body Fixtures.offline "/Dance " Fixtures.w0
  = ([Out (Error "Unknown command: /Dance ")], Fixtures.w0, Ret Continue).
Proof.
  assert (Ha : isascii "/Dance " = true) by reflexivity.
  assert (Hs : startswith "/" "/Dance " = true) by reflexivity.
  assert (Hp : plain "/Dance " = true) by reflexivity.
  pose proof (proj1 slash_lines_stay_in_the_lexer
                    Fixtures.offline "/Dance " Fixtures.w0 Ha Hs)
    as (_ & _ & _ & H).
  exact (proj2 H Hp).
Defined.

(** X26: when the Gateway call of a round fails with an exception
    whose text holds no opening bracket, the exception is caught, the
    round prints exactly one error line, made of one of five fixed
    openings and that text, and nothing else, and the loop goes on
    with the lines that follow; a failure of the unread-count call at
    the entry of the loop prints nothing. *)
Theorem gateway_failure_is_one_error_line :
  (forall (client : Client.gateway) (action : string) (w : world)
          (r : request) (e : exn),
      isascii action = true ->
      In (Call r (Some e)) (trace_of (Rendered.loop_body client action) w) ->
      plain (str_exn e) = true ->
      exists prefix,
        In prefix failure_prefixes /\
        Rendered.loop_body client action w
        = ([Call r (Some e); Out (Error (prefix ++ str_exn e))], w, Ret Continue) /\
        forall script,
          Rendered.game_rounds ((Line action, client) :: script) w
          = then_run [Call r (Some e); Out (Error (prefix ++ str_exn e))]
                     (Rendered.game_rounds script w)) /\
  (forall (client : Client.gateway)
          (script : list (prompt_result * Client.gateway)) (e : exn) (w : world),
      Client.get_unread_count client = Raise e ->
      Rendered._game_loop client script w
      = then_run [Out (Plain "Type your actions naturally. /help for commands.");
                  Call RGetUnreadCount (Some e)]
                 (Rendered.game_rounds script w)).
Proof.
  split.
  - intros client action w r e _ Hin Hpl.
    assert (Hgo : forall prefix r0,
               In prefix failure_prefixes ->
               reported (Rendered.loop_body client action w) w r0 prefix Continue ->
               exists prefix,
                 In prefix failure_prefixes /\
                 Rendered.loop_body client action w
                 = ([Call r (Some e); Out (Error (prefix ++ str_exn e))], w,
                    Ret Continue) /\
                 forall script,
                   Rendered.game_rounds ((Line action, client) :: script) w
                   = then_run [Call r (Some e); Out (Error (prefix ++ str_exn e))]
                              (Rendered.game_rounds script w)).
    { intros prefix r0 Hpre Hrep.
      destruct (reported_failure Hrep Hin Hpl) as [E ->].
      exists prefix. split; [exact Hpre|]. split; [exact E|].
      intros script. now apply rendered_rounds_continue. }
    destruct (truthy action) eqn:Ht.
    + destruct (startswith "/" (strip (lower action))) eqn:Hs.
      * pose proof (dispatch_run client action (spec_lex action) w) as H.
        rewrite <- (rendered_slash client action Hs) in H.
        unfold trace_of in Hin.
        destruct (spec_lex action) as [[]|].
        all: try (rewrite H in Hin; cbn in Hin; destruct Hin as [Hin|[]]; discriminate).
        all: try (eapply Hgo; [|exact H]; cbn; tauto).
        destruct H as (ls & out & E & _). rewrite E in Hin. cbn [fst] in Hin.
        now apply In_prints in Hin.
      * destruct (rendered_round client action w Ht Hs) as (i & prefix & _ & Hpre & H).
        now apply (Hgo prefix (request_of i)).
    + destruct action; [|discriminate]. destruct Hin.
  - intros client script e w He.
    unfold Rendered._game_loop, try_except, iobind, attempt, call, print.
    rewrite He. cbn. now destruct (Rendered.game_rounds script w) as [[t' w'] r'].
Qed.

Lemma gateway_failure_is_one_error_line_witness :
  exists prefix,
    In prefix failure_prefixes /\
    Rendered.loop_body Fixtures.offline "attack the goblin" Fixtures.w0
    = ([Call (RDoAction "attack the goblin") (Some Fixtures.down);
        Out (Error (prefix ++ str_exn Fixtures.down))], Fixtures.w0, Ret Continue) /\
    forall script,
      Rendered.game_rounds ((Line "attack the goblin", Fixtures.offline) :: script)
                           Fixtures.w0
      = then_run [Call (RDoAction "attack the goblin") (Some Fixtures.down);
                  Out (Error (prefix ++ str_exn Fixtures.down))]
                 (Rendered.game_rounds script Fixtures.w0).
Proof.
  assert (Ha : isascii "attack the goblin" = true) by reflexivity.
  assert (Hin : In (Call (RDoAction "attack the goblin") (Some Fixtures.down))
                   (trace_of (Rendered.loop_body Fixtures.offline "attack the goblin")
                             Fixtures.w0))
    by (vm_compute; auto).
  assert (Hp : plain (str_exn Fixtures.down) = true) by reflexivity.
  exact (proj1 gateway_failure_is_one_error_line
               Fixtures.offline "attack the goblin" Fixtures.w0 _ _ Ha Hin Hp).
Defined.

(** X27: of the messages fetched, the message lines [_show_messages]
    shows are those of the first few, ten at most, whatever the
    messages hold; and when no sender and no text among the first ten
    holds an opening bracket, the first ten are shown and no other;
    beyond ten, one line tells how many are left; an empty fetch
    prints the empty-inbox notice. *)
Theorem inbox_shows_ten :
  forall (client : Client.gateway) (messages : list Client.dm) (w : world),
    Client.get_pending_messages client = Ret messages ->
    let shown := outputs (trace_of (Rendered._show_messages client) w) in
    (exists n, n <= 10 /\
               filter is_message_line shown = map render_dm (firstn n messages)) /\
    (forallb plain_line (map render_dm (firstn 10 messages)) = true ->
     filter is_message_line shown = map render_dm (firstn 10 messages) /\
     List.length (filter is_message_line shown) = Nat.min 10 (List.length messages) /\
     filter is_and_more shown
     = (if (10 <? List.length messages)%nat
        then [AndMore (List.length messages - 10)] else []) /\
     (messages = [] -> shown = [Plain "No unread messages. Your inbox is empty."])).
Proof.
  intros client messages w H shown. subst shown.
  split; [now apply rendered_show_messages_prefix|].
  intros Hpl. unfold trace_of.
  rewrite (rendered_show_messages_run client messages w H Hpl). cbn [fst outputs].
  rewrite outputs_prints.
  assert (Hf : filter is_message_line (inbox_lines messages)
               = map render_dm (firstn 10 messages)).
  { destruct messages as [|m ms]; [reflexivity|]. unfold inbox_lines.
    cbn [filter is_message_line]. rewrite !filter_app.
    rewrite (proj1 (filter_rendered _)).
    destruct (10 <? List.length (m :: ms))%nat; cbn; now rewrite app_nil_r. }
  repeat split.
  - exact Hf.
  - rewrite Hf, length_map, length_firstn. reflexivity.
  - destruct messages as [|m ms]; [reflexivity|]. unfold inbox_lines.
    cbn [filter is_and_more]. rewrite !filter_app.
    rewrite (proj2 (filter_rendered _)).
    destruct (10 <? List.length (m :: ms))%nat; reflexivity.
  - intros ->. reflexivity.
Qed.

Lemma inbox_shows_ten_witness :
  let shown := outputs (trace_of (Rendered._show_messages
                                    (Fixtures.mailbox Fixtures.twelve)) Fixtures.w0) in
  filter is_message_line shown = map render_dm (firstn 10 Fixtures.twelve) /\
  List.length (filter is_message_line shown)
  = Nat.min 10 (List.length Fixtures.twelve) /\
  filter is_and_more shown
  = (if (10 <? List.length Fixtures.twelve)%nat
     then [AndMore (List.length Fixtures.twelve - 10)] else []) /\
  (Fixtures.twelve = []
   -> shown = [Plain "No unread messages. Your inbox is empty."]).
Proof.
  assert (H : Client.get_pending_messages (Fixtures.mailbox Fixtures.twelve)
              = Ret Fixtures.twelve) by reflexivity.
  assert (Hpl : forallb plain_line (map render_dm (firstn 10 Fixtures.twelve)) = true)
    by reflexivity.
  exact (proj2 (inbox_shows_ten (Fixtures.mailbox Fixtures.twelve) Fixtures.twelve
                                Fixtures.w0 H) Hpl).
Defined.

Lemma rendered_each_chat (messages : list Client.chat_message) (w : world) :
  exists n out,
    Rendered.print_each render_chat messages w
    = (prints (map render_chat (firstn n messages)), w, out) /\
    (forallb plain_line (map render_chat messages) = true ->
     n = List.length messages /\ out = Ret tt).
Proof.
  induction messages as [|x xs (n & out & IH & Hall)]; cbn [Rendered.print_each].
  - exists 0, (Ret tt). split; [reflexivity | auto].
  - unfold iobind, console_print.
    destruct (Markup.render (Rendered.sender_and_content (render_chat x)))
      as [e|] eqn:R.
    + exists 0, (Raise e). split; [reflexivity|].
      cbn [map forallb]. intros H. apply andb_prop in H as [Hx _].
      rewrite (render_sender_and_content _ Hx) in R. discriminate.
    + rewrite IH. exists (S n), out. split; [reflexivity|].
      cbn [map forallb]. intros H. apply andb_prop in H as [_ Hxs].
      destruct (Hall Hxs) as [-> ->]. auto.
Qed.

Lemma forallb_rev {A : Type} (f : A -> bool) (l : list A) :
  forallb f l = true -> forallb f (rev l) = true.
Proof.
  intros H. apply forallb_forall. intros x Hx. apply in_rev in Hx.
  revert x Hx. now apply forallb_forall.
Qed.

(** The chat lines [_show_chat] shows: those of the first few of the
    messages in reverse, and of all of them when their words hold no
    opening bracket. *)
Lemma rendered_show_chat_run (client : Client.gateway)
      (messages : list Client.chat_message) (w : world) :
  Client.get_global_chat client 10 = Ret messages ->
  exists n,
    filter is_chat_line (outputs (trace_of (Rendered._show_chat client) w))
    = map render_chat (firstn n (rev messages)) /\
    (forallb plain_line (map render_chat messages) = true ->
     n = List.length messages).
Proof.
  intros H. unfold trace_of, Rendered._show_chat, try_except, attempt.
  unfold iobind, call, print. rewrite H.
  destruct messages as [|m ms]; [exists 0; split; [reflexivity | auto]|].
  cbv beta iota.
  destruct (rendered_each_chat (rev (m :: ms)) w) as (n & out & -> & Hall).
  exists n. split.
  - assert (Hf : forall tail,
               filter is_chat_line tail = [] ->
               filter is_chat_line
                      (Plain "Recent Global Chat:"
                       :: map render_chat (firstn n (rev (m :: ms))) ++ tail)%list
               = map render_chat (firstn n (rev (m :: ms)))).
    { intros tail Ht. cbn [filter is_chat_line]. rewrite filter_app, Ht, app_nil_r.
      apply filter_chat_lines. }
    destruct out as [[]|e].
    + unfold ret. cbv beta iota. cbn [fst snd app outputs].
      rewrite ?app_nil_r, ?outputs_app, ?outputs_prints. cbn [outputs].
      apply Hf. reflexivity.
    + cbv beta iota. unfold Rendered.print_error, console_print.
      destruct (Markup.render _); cbv beta iota; cbn [fst snd app outputs];
        rewrite ?app_nil_r, ?outputs_app, ?outputs_prints; cbn [outputs];
        first [ apply Hf; reflexivity
              | pose proof (Hf [] eq_refl) as Hf0; rewrite app_nil_r in Hf0;
                exact Hf0 ].
  - intros Hpl. apply forallb_rev in Hpl. rewrite <- map_rev in Hpl.
    destruct (Hall Hpl) as [-> _]. apply length_rev.
Qed.

(** X21: [/chat] asks for ten messages; the chat lines it shows are
    those of the messages the server returns, in the reverse of the
    order in which they came: the first few of them whatever they
    hold, and all of them, however many, none cut off and the first
    one returned printed last, when no sender and no text holds an
    opening bracket; when none comes, one line says so. *)
Theorem chat_shows_every_message_in_reverse :
  forall (client : Client.gateway) (messages : list Client.chat_message) (w : world),
    Client.get_global_chat client 10 = Ret messages ->
    let run := Rendered._show_chat client in
    let shown := outputs (trace_of run w) in
    calls (trace_of run w) = [RGetGlobalChat 10] /\
    (exists n, filter is_chat_line shown = map render_chat (firstn n (rev messages))) /\
    (forallb plain_line (map render_chat messages) = true ->
     filter is_chat_line shown = map render_chat (rev messages) /\
     List.length (filter is_chat_line shown) = List.length messages /\
     (forall m, hd_error messages = Some m ->
                last (filter is_chat_line shown) Blank = render_chat m)) /\
    (messages = [] -> shown = [Plain "No recent chat messages."]).
Proof.
  intros client messages w H run shown. subst run shown.
  split; [|split; [|split]].
  - pose proof (reports_show_chat client w) as R.
    unfold trace_of. now rewrite (reported_calls R).
  - destruct (rendered_show_chat_run client messages w H) as (n & Hn & _).
    exists n. exact Hn.
  - intros Hpl.
    destruct (rendered_show_chat_run client messages w H) as (n & Hn & Hall).
    rewrite Hn, (Hall Hpl), <- length_rev, firstn_all. repeat split.
    + now rewrite length_map, length_rev.
    + intros m Hm. destruct messages as [|m' ms]; [discriminate|].
      injection Hm as ->. cbn [rev]. rewrite map_app. cbn [map].
      apply last_last.
  - intros ->. unfold trace_of, Rendered._show_chat, try_except, attempt, iobind, call.
    rewrite H. reflexivity.
Qed.

Lemma chat_shows_every_message_in_reverse_witness :
  filter is_chat_line
         (outputs (trace_of (Rendered._show_chat (Samples.tavern Samples.chatter))
                            Fixtures.w0))
  = [ChatLine "Odo" "earliest"; ChatLine "Unknown" "earlier"; ChatLine "Kira" "latest"].
Proof.
  assert (Hg : Client.get_global_chat (Samples.tavern Samples.chatter) 10
               = Ret Samples.chatter) by reflexivity.
  assert (Hpl : forallb plain_line (map render_chat Samples.chatter) = true)
    by reflexivity.
  destruct (chat_shows_every_message_in_reverse
              (Samples.tavern Samples.chatter) Samples.chatter Fixtures.w0 Hg)
    as (_ & _ & H & _).
  exact (proj1 (H Hpl)).
Defined.

Lemma as_printed_refl {A : Type} (m : io A) : as_printed m m.
Proof. intros w _. reflexivity. Qed.

Lemma as_printed_console (markup : string) (l : line) :
  (plain_line l = true -> render markup = None) ->
  as_printed (console_print markup l) (print l).
Proof.
  intros H w Hpl. cbn in Hpl. rewrite andb_true_r in Hpl.
  now apply console_print_renders, H.
Qed.

Lemma as_printed_bind {A B : Type} (r g : io A) (fr fg : A -> io B) :
  as_printed r g -> (forall a, as_printed (fr a) (fg a)) ->
  as_printed (iobind r fr) (iobind g fg).
Proof.
  intros Hm Hf w Hpl. unfold trace_of, iobind in *.
  specialize (Hm w). unfold trace_of in Hm.
  destruct (g w) as [[t w1] [a|e]] eqn:Eg.
  - specialize (Hf a w1). unfold trace_of in Hf.
    destruct (fg a w1) as [[t' w2] x] eqn:Ef. cbn [fst] in *.
    rewrite outputs_app, forallb_app in Hpl. apply andb_prop in Hpl as [H1 H2].
    rewrite (Hm H1), (Hf H2). reflexivity.
  - cbn [fst] in *. now rewrite (Hm Hpl).
Qed.

Lemma as_printed_attempt {A : Type} (r g : io A) :
  as_printed r g -> as_printed (attempt r) (attempt g).
Proof.
  intros Hm w Hpl. unfold trace_of, attempt in *.
  specialize (Hm w). unfold trace_of in Hm.
  destruct (g w) as [[t w1] x] eqn:Eg. cbn [fst] in *. now rewrite (Hm Hpl).
Qed.

Lemma as_printed_try {A : Type} (r g : io A) (hr hg : exn -> io A) :
  as_printed r g -> (forall e, as_printed (hr e) (hg e)) ->
  as_printed (try_except r hr) (try_except g hg).
Proof.
  intros Hm Hh. unfold try_except.
  apply as_printed_bind; [now apply as_printed_attempt|].
  intros [a|e]; [apply as_printed_refl | apply Hh].
Qed.

Lemma as_printed_error (message : string) :
  as_printed (Rendered.print_error message) (print_error message).
Proof. apply as_printed_console. apply render_error. Qed.

Lemma as_printed_success (message : string) :
  as_printed (Rendered.print_success message) (print_success message).
Proof. apply as_printed_console. apply render_success. Qed.

Lemma as_printed_narrative (text mood : string) :
  as_printed (Rendered.print_narrative text mood) (print_narrative text mood).
Proof. apply as_printed_console. apply render_plain. Qed.

Lemma as_printed_numbered (actions : list string) :
  forall i, as_printed (Rendered.print_numbered i actions) (print_numbered i actions).
Proof.
  induction actions as [|a l IH]; intros i;
    cbn [Rendered.print_numbered print_numbered]; [apply as_printed_refl|].
  apply as_printed_bind; [|intros _; apply IH].
  apply as_printed_console. apply render_numbered.
Qed.

Lemma as_printed_suggestions (actions : list string) :
  as_printed (Rendered.print_suggestions actions) (print_suggestions actions).
Proof.
  destruct actions as [|a l]; [apply as_printed_refl|].
  apply as_printed_bind; [apply as_printed_refl | intros _; apply as_printed_numbered].
Qed.

Lemma as_printed_each {A : Type} (render : A -> line) (xs : list A) :
  as_printed (Rendered.print_each render xs) (print_each render xs).
Proof.
  induction xs as [|x xs IH]; cbn [Rendered.print_each print_each];
    [apply as_printed_refl|].
  apply as_printed_bind; [|intros _; exact IH].
  apply as_printed_console. apply render_sender_and_content.
Qed.

Ltac as_printed_auto :=
  first [ apply as_printed_error | apply as_printed_success
        | apply as_printed_narrative | apply as_printed_suggestions
        | apply as_printed_each | apply as_printed_refl
        | (apply as_printed_bind; [as_printed_auto | intros ?; as_printed_auto]) ].

Lemma as_printed_do_action (client : Client.gateway) (action : string) :
  as_printed (Rendered._do_action client action) (_do_action client action).
Proof.
  apply as_printed_bind; [apply as_printed_refl|]. intros [result|e];
    [|apply as_printed_error].
  destruct (truthy_opt (Client.error result)); [apply as_printed_error|].
  apply as_printed_bind; [apply as_printed_narrative | intros _].
  apply as_printed_bind; [apply as_printed_suggestions | intros _].
  destruct (Client.requires_account result); [|apply as_printed_refl].
  apply as_printed_bind; [|intros _; apply as_printed_refl].
  apply as_printed_console. apply render_incentive.
Qed.

Lemma as_printed_do_look (client : Client.gateway) :
  as_printed (Rendered._do_look client) (_do_look client).
Proof.
  apply as_printed_bind; [apply as_printed_refl|]. intros [result|e];
    as_printed_auto.
Qed.

Lemma as_printed_do_inventory (client : Client.gateway) :
  as_printed (Rendered._do_inventory client) (_do_inventory client).
Proof.
  apply as_printed_bind; [apply as_printed_refl|]. intros [result|e];
    as_printed_auto.
Qed.

Lemma as_printed_do_rest (client : Client.gateway) :
  as_printed (Rendered._do_rest client) (_do_rest client).
Proof.
  apply as_printed_bind; [apply as_printed_refl|]. intros [result|e];
    as_printed_auto.
Qed.

Lemma as_printed_show_messages (client : Client.gateway) :
  as_printed (Rendered._show_messages client) (_show_messages client).
Proof.
  apply as_printed_try; [|intros e; apply as_printed_error].
  apply as_printed_bind; [apply as_printed_refl|]. intros [|m ms];
    [apply as_printed_refl|].
  apply as_printed_bind; [apply as_printed_refl | intros _].
  apply as_printed_bind; [apply as_printed_each | intros _; apply as_printed_refl].
Qed.

Lemma as_printed_show_chat (client : Client.gateway) :
  as_printed (Rendered._show_chat client) (_show_chat client).
Proof.
  apply as_printed_try; [|intros e; apply as_printed_error].
  apply as_printed_bind; [apply as_printed_refl|]. intros [|m ms];
    [apply as_printed_refl|].
  apply as_printed_bind; [apply as_printed_refl | intros _].
  apply as_printed_bind; [apply as_printed_each | intros _; apply as_printed_refl].
Qed.

Lemma as_printed_chat_intent (client : Client.gateway) (action : string) :
  as_printed (Rendered._handle_chat_intent client action)
             (_handle_chat_intent client action).
Proof.
  apply as_printed_bind; [apply as_printed_refl|]. intros [[recipient message]|].
  - apply as_printed_bind; [|intros _; apply as_printed_refl].
    apply as_printed_try; [|intros e; apply as_printed_error].
    apply as_printed_bind; [apply as_printed_refl|]. intros result.
    destruct (Client.success result); as_printed_auto.
  - destruct (_parse_inbox_intent action).
    + apply as_printed_bind; [apply as_printed_show_messages
                             | intros _; apply as_printed_refl].
    + apply as_printed_bind; [apply as_printed_refl|]. intros global_msg.
      destruct (truthy_opt global_msg); [|apply as_printed_refl].
      apply as_printed_bind; [|intros _; apply as_printed_refl].
      apply as_printed_try; [|intros e; apply as_printed_error].
      apply as_printed_bind; [apply as_printed_refl|]. intros result.
      destruct (Client.success result); as_printed_auto.
Qed.

Lemma as_printed_loop_body (client : Client.gateway) (action : string) :
  as_printed (Rendered.loop_body client action) (loop_body client action).
Proof.
  unfold Rendered.loop_body, loop_body.
  repeat match goal with
         | |- as_printed (if ?b then _ else _) (if ?b then _ else _) =>
             destruct b
         | |- as_printed (let x := ?v in _) (let y := ?v in _) => cbv zeta
         end;
    try (apply as_printed_bind; [|intros _; apply as_printed_refl]);
    first [ apply as_printed_refl | apply as_printed_success
          | apply as_printed_do_look | apply as_printed_do_inventory
          | apply as_printed_do_rest | apply as_printed_show_messages
          | apply as_printed_show_chat | apply as_printed_error | idtac ].
  apply as_printed_bind; [apply as_printed_chat_intent|]. intros [|];
    [apply as_printed_refl|].
  apply as_printed_bind; [apply as_printed_do_action | intros _; apply as_printed_refl].
Qed.

Lemma as_printed_rounds (script : list (prompt_result * Client.gateway)) :
  as_printed (Rendered.game_rounds script) (game_rounds script).
Proof.
  induction script as [|[[action|] client] script IH];
    cbn [Rendered.game_rounds game_rounds]; try apply as_printed_refl.
  apply as_printed_bind; [apply as_printed_loop_body|]. intros [|];
    [exact IH | apply as_printed_refl].
Qed.

(** X28: when no line that the game loop hands to the console holds
    an opening bracket in a typed or received text, the console
    prints every line as it is given and raises nothing of its own: a
    round of the loop on the console, and the whole loop, is the one
    in which every line handed over is printed. *)
Theorem a_run_without_brackets_is_printed_as_it_is :
  forall (client : Client.gateway) (script : list (prompt_result * Client.gateway))
         (action : string) (w : world),
    (forallb plain_line (outputs (trace_of (loop_body client action) w)) = true ->
     Rendered.loop_body client action w = loop_body client action w) /\
    (forallb plain_line (outputs (trace_of (_game_loop client script) w)) = true ->
     Rendered._game_loop client script w = _game_loop client script w).
Proof.
  intros client script action w. split; [apply as_printed_loop_body|].
  revert w. change (as_printed (Rendered._game_loop client script)
                               (_game_loop client script)).
  unfold Rendered._game_loop, _game_loop.
  apply as_printed_bind; [apply as_printed_refl | intros _].
  apply as_printed_bind; [apply as_printed_refl | intros _].
  apply as_printed_rounds.
Qed.

Lemma a_run_without_brackets_is_printed_as_it_is_witness :
  Rendered.loop_body Fixtures.offline "attack the goblin" Fixtures.w0
  = loop_body Fixtures.offline "attack the goblin" Fixtures.w0.
Proof.
  assert (H : forallb plain_line
                      (outputs (trace_of (loop_body Fixtures.offline "attack the goblin")
                                         Fixtures.w0)) = true) by reflexivity.
  exact (proj1 (a_run_without_brackets_is_printed_as_it_is
                  Fixtures.offline [] "attack the goblin" Fixtures.w0) H).
Defined.

End OnTheConsole.
